(** * img-worker.js: the offline image normalisation worker

  A shallow embedding of [src/img-worker.js] and the properties of its
  EXIF reader, orientation compositor, size-constrained JPEG encoder and
  message handler.

  Conventions of the embedding.
  - JavaScript numbers that the worker computes with are exact rationals
    ([Q]); counters, byte offsets, pixel and byte sizes are integers ([Z]).
    Rounding error of IEEE doubles is not modelled: a product that falls
    within a rounding error of a half-integer can round to the other
    neighbour in the source, so the properties below relate pixel sizes to
    scales by the expression of the source and state no numeric bound that
    depends on which side of such a boundary a product falls.
  - A JavaScript exception is the outcome [Throw]; a [while] loop is a
    recursion on fuel that keeps the guard of the source, and running out
    of fuel is the separate outcome [Diverge], which no [try]/[catch]
    intercepts.  Each loop comes with a lemma that the fuel supplied by its
    caller is never exhausted.
  - The platform (image decoders, the canvas JPEG encoder) is a record of
    functions the development quantifies over.  The decoders can fail; the
    canvas and its encoder are taken to succeed, so [renderResizedJpeg]
    throws from its own guards only, before any encode. *)

From Stdlib Require Import ZArith QArith Qround Qminmax.
From Stdlib Require Import List String Ascii Bool Lia Lqa Sorted.
From Stdlib Require Import Strings.Byte.
Import ListNotations.

Local Open Scope Z_scope.

(** ** Outcomes of a computation *)

Inductive Outcome (A : Type) : Type :=
| Ret (a : A)
| Throw (e : string)
| Diverge.

Arguments Ret {A} a.
Arguments Throw {A} e.
Arguments Diverge {A}.

Definition bind {A B : Type} (m : Outcome A) (k : A -> Outcome B) : Outcome B :=
match m with
| Ret a => k a
| Throw e => Throw e
| Diverge => Diverge
end.

(** [try { m } catch (e) { h e }] *)
Definition try_catch {A : Type} (m : Outcome A) (h : string -> Outcome A) : Outcome A :=
match m with
| Throw e => h e
| other => other
end.

Declare Scope js_scope.
Delimit Scope js_scope with js.
Notation "x <- m ;; k" := (bind m (fun x => k))
(at level 61, m at next level, right associativity) : js_scope.
Local Open Scope js_scope.

Definition halts {A : Type} (m : Outcome A) : Prop := m <> Diverge.

(** ** DataView over an ArrayBuffer *)

Module DataView.

Definition t := list byte.

Definition byteLength (dv : t) : Z := Z.of_nat (List.length dv).

Definition byteAt (dv : t) (o : Z) : option Z :=
  if o <? 0 then None
  else option_map (fun b => Z.of_N (Byte.to_N b)) (nth_error dv (Z.to_nat o)).

(** [dv.getUint16(o, little)]: a RangeError when the two bytes are not
    inside the buffer. *)
Definition getUint16 (dv : t) (o : Z) (little : bool) : Outcome Z :=
  match byteAt dv o, byteAt dv (o + 1) with
  | Some b0, Some b1 =>
      Ret (if little then b0 + 256 * b1 else 256 * b0 + b1)
  | _, _ => Throw "RangeError"
  end.

Definition getUint32 (dv : t) (o : Z) (little : bool) : Outcome Z :=
  match byteAt dv o, byteAt dv (o + 1), byteAt dv (o + 2), byteAt dv (o + 3) with
  | Some b0, Some b1, Some b2, Some b3 =>
      Ret (if little
           then b0 + 256 * (b1 + 256 * (b2 + 256 * b3))
           else b3 + 256 * (b2 + 256 * (b1 + 256 * b0)))
  | _, _, _, _ => Throw "RangeError"
  end.

End DataView.

(** ** EXIF orientation of a JPEG (lines 59-129) *)

Module Exif.

Import DataView.

Section Reader.

Variable dv : DataView.t.

(** The [for] loop of lines 105-118 followed by [return 1] of line 119.
    [n] is the number of iterations that remain, [entries - i]. *)
Fixpoint scanEntries (little : bool) (ifd0 : Z) (n : nat) (i : Z) : Outcome Z :=
  match n with
  | O => Ret 1
  | S n' =>
      let entry := ifd0 + i * 12 in
      if entry + 12 >? byteLength dv then Ret 1
      else
        tag <- getUint16 dv entry little ;;
        if tag =? 0x0112 then
          type <- getUint16 dv (entry + 2) little ;;
          count <- getUint32 dv (entry + 4) little ;;
          if negb (type =? 3) || negb (count =? 1) then Ret 1
          else
            value <- getUint16 dv (entry + 8) little ;;
            if (1 <=? value) && (value <=? 8) then Ret value else Ret 1
        else scanEntries little ifd0 n' (i + 1)
  end.

(** Lines 90-119: the TIFF header and IFD0 behind an Exif signature;
    [offset] is the first byte of the APP1 payload. *)
Definition parseTiff (offset : Z) : Outcome Z :=
  let tiffOffset := offset + 6 in
  bom <- getUint16 dv tiffOffset false ;;
  let little := bom =? 0x4949 in
  magic <- getUint16 dv (tiffOffset + 2) little ;;
  if negb (magic =? 0x002A) then Ret 1
  else
    ifd0Rel <- getUint32 dv (tiffOffset + 4) little ;;
    let ifd0 := tiffOffset + ifd0Rel in
    if ifd0 + 2 >? byteLength dv then Ret 1
    else
      entries <- getUint16 dv ifd0 little ;;
      scanEntries little (ifd0 + 2) (Z.to_nat entries) 0.

(** Line 83-84: [&&] reads the second operand only when the first holds. *)
Definition exifHeader (offset : Z) : Outcome bool :=
  h <- getUint32 dv offset false ;;
  if h =? 0x45786966 then
    z <- getUint16 dv (offset + 4) false ;;
    Ret (z =? 0x0000)
  else Ret false.

(** The [while] loop of lines 69-123 followed by [return 1] of line 125. *)
Fixpoint segments (fuel : nat) (offset : Z) : Outcome Z :=
  match fuel with
  | O => Diverge
  | S fuel' =>
      if offset + 4 <? byteLength dv then
        marker <- getUint16 dv offset false ;;
        let offset := offset + 2 in
        if (marker =? 0xFFD9) || (marker =? 0xFFDA) then Ret 1
        else
          size <- getUint16 dv offset false ;;
          let offset := offset + 2 in
          if size <? 2 then Ret 1
          else if marker =? 0xFFE1 then
            hdr <- exifHeader offset ;;
            if negb hdr then segments fuel' (offset + (size - 2))
            else parseTiff offset
          else segments fuel' (offset + (size - 2))
      else Ret 1
  end.

(** The body of the [try] block. *)
Definition readBody : Outcome Z :=
  soi <- getUint16 dv 0 false ;;
  if negb (soi =? 0xFFD8) then Ret 1
  else segments (S (List.length dv)) 2.

Definition readJpegExifOrientation : Outcome Z :=
  try_catch readBody (fun _ => Ret 1).

End Reader.

End Exif.

(** ** JavaScript values that cross the message boundary *)

Inductive JsNum : Type :=
| Finite (q : Q)
| NaN
| PosInf
| NegInf.

Inductive JsVal : Type :=
| JUndefined
| JNull
| JBool (b : bool)
| JNum (n : JsNum)
| JStr (s : string).

(** Lines 30-32. *)
Definition isFiniteNumber (x : JsVal) : bool :=
  match x with
  | JNum (Finite _) => true
  | _ => false
  end.

(** The number behind a value that passed [isFiniteNumber]. *)
Definition numberOf (x : JsVal) : Q :=
  match x with
  | JNum (Finite q) => q
  | _ => 0%Q
  end.

(** ToBoolean, as [!x], [x || y] and [x ? a : b] apply it. *)
Definition truthy (x : JsVal) : bool :=
  match x with
  | JUndefined | JNull => false
  | JBool b => b
  | JNum (Finite q) => negb (Qeq_bool q 0)
  | JNum NaN => false
  | JNum _ => true
  | JStr s => negb (String.eqb s "")
  end.

Definition Qltb (x y : Q) : bool := negb (Qle_bool y x).

(** ** Strings *)

Definition lowerAscii (c : ascii) : ascii :=
  let n := nat_of_ascii c in
  if ((65 <=? n) && (n <=? 90))%nat then ascii_of_nat (n + 32) else c.

(** [s.toLowerCase()] on the ASCII letters, which are the only ones the
    comparisons of the worker can see. *)
Fixpoint toLowerCase (s : string) : string :=
  match s with
  | EmptyString => EmptyString
  | String c r => String (lowerAscii c) (toLowerCase r)
  end.

Definition endsWith (s suffix : string) : bool :=
  let ls := String.length s in
  let lx := String.length suffix in
  if (lx <=? ls)%nat then String.eqb (substring (ls - lx) lx s) suffix else false.

(** ** Files, bitmaps and blobs *)

Record File : Type := mkFile {
  file_type : string;
  file_name : string;
  file_size : Z;
  file_bytes : list byte
}.

Record ImageBitmap : Type := mkBitmap {
  bm_width : Z;
  bm_height : Z;
  bm_pixels : list byte
}.

(** [ImageBitmap.close()] releases the pixels; a closed bitmap reports the
    width 0 and the height 0. *)
Definition close (bm : ImageBitmap) : ImageBitmap := mkBitmap 0 0 [].

Record Blob : Type := mkBlob {
  blob_type : string;
  blob_size : Z
}.

(** Lines 34-44; [file] is not null where the worker calls it. *)
Definition inferMime (file : File) : string :=
  let t := file_type file in
  if negb (String.eqb t "") then toLowerCase t
  else
    let name := toLowerCase (file_name file) in
    if endsWith name ".heic" then "image/heic"
    else if endsWith name ".heif" then "image/heif"
    else if endsWith name ".jpg" || endsWith name ".jpeg" then "image/jpeg"
    else if endsWith name ".png" then "image/png"
    else if endsWith name ".webp" then "image/webp"
    else "".

(** Lines 46-48. *)
Definition isHeicLike (mime : string) : bool :=
  String.eqb mime "image/heic" || String.eqb mime "image/heif"
  || String.eqb mime "image/heic-sequence" || String.eqb mime "image/heif-sequence".

(** ** The 2D canvas

    The current transformation matrix maps user space to the pixel grid:
    [x' = a x + c y + e], [y' = b x + d y + f].  The worker rotates by
    quarter and half turns only, so the matrices stay integral. *)

Record Matrix : Type := mkMatrix {
  m_a : Z; m_b : Z; m_c : Z; m_d : Z; m_e : Z; m_f : Z
}.

Definition identity : Matrix := mkMatrix 1 0 0 1 0 0.

(** [mmul m n] applies [n] first, then [m]: a canvas transformation call
    multiplies the current matrix on the right. *)
Definition mmul (m n : Matrix) : Matrix :=
  mkMatrix (m_a m * m_a n + m_c m * m_b n)
           (m_b m * m_a n + m_d m * m_b n)
           (m_a m * m_c n + m_c m * m_d n)
           (m_b m * m_c n + m_d m * m_d n)
           (m_a m * m_e n + m_c m * m_f n + m_e m)
           (m_b m * m_e n + m_d m * m_f n + m_f m).

Definition mapPoint (m : Matrix) (p : Z * Z) : Z * Z :=
  (m_a m * fst p + m_c m * snd p + m_e m,
   m_b m * fst p + m_d m * snd p + m_f m).

(** The angles the worker passes to [ctx.rotate]. *)
Inductive Angle : Type :=
| HalfPi        (* Math.PI / 2 *)
| MinusHalfPi   (* -Math.PI / 2 *)
| Pi.           (* Math.PI *)

(** [rotate(t)] is the matrix [cos t, sin t, -sin t, cos t, 0, 0]. *)
Definition rotation (t : Angle) : Matrix :=
  match t with
  | HalfPi => mkMatrix 0 1 (-1) 0 0 0
  | MinusHalfPi => mkMatrix 0 (-1) 1 0 0 0
  | Pi => mkMatrix (-1) 0 0 (-1) 0 0
  end.

Inductive DrawOp : Type :=
| FillRect (style : string) (m : Matrix) (x y w h : Z)
| DrawImage (bitmap : ImageBitmap) (m : Matrix) (dx dy dw dh : Z).

Record OffscreenCanvas : Type := mkCanvas {
  cv_width : Z;
  cv_height : Z;
  cv_ops : list DrawOp
}.

Record Context2D : Type := mkContext {
  ctx_canvas : OffscreenCanvas;
  ctx_matrix : Matrix;
  ctx_fillStyle : string;
  ctx_saved : list (Matrix * string)
}.

Definition newOffscreenCanvas (w h : Z) : OffscreenCanvas := mkCanvas w h [].

Definition getContext (c : OffscreenCanvas) : Context2D :=
  mkContext c identity "#000000" [].

Definition paint (op : DrawOp) (ctx : Context2D) : Context2D :=
  let c := ctx_canvas ctx in
  mkContext (mkCanvas (cv_width c) (cv_height c) (cv_ops c ++ [op]))
            (ctx_matrix ctx) (ctx_fillStyle ctx) (ctx_saved ctx).

Definition transform (m : Matrix) (ctx : Context2D) : Context2D :=
  mkContext (ctx_canvas ctx) (mmul (ctx_matrix ctx) m) (ctx_fillStyle ctx) (ctx_saved ctx).

Definition save (ctx : Context2D) : Context2D :=
  mkContext (ctx_canvas ctx) (ctx_matrix ctx) (ctx_fillStyle ctx)
            ((ctx_matrix ctx, ctx_fillStyle ctx) :: ctx_saved ctx).

Definition restore (ctx : Context2D) : Context2D :=
  match ctx_saved ctx with
  | [] => ctx
  | (m, s) :: rest => mkContext (ctx_canvas ctx) m s rest
  end.

Definition setFillStyle (s : string) (ctx : Context2D) : Context2D :=
  mkContext (ctx_canvas ctx) (ctx_matrix ctx) s (ctx_saved ctx).

Definition fillRect (x y w h : Z) (ctx : Context2D) : Context2D :=
  paint (FillRect (ctx_fillStyle ctx) (ctx_matrix ctx) x y w h) ctx.

Definition translate (tx ty : Z) : Context2D -> Context2D :=
  transform (mkMatrix 1 0 0 1 tx ty).

Definition rotate (t : Angle) : Context2D -> Context2D :=
  transform (rotation t).

Definition scale (sx sy : Z) : Context2D -> Context2D :=
  transform (mkMatrix sx 0 0 sy 0 0).

Definition drawImage (bitmap : ImageBitmap) (dx dy dw dh : Z) (ctx : Context2D) : Context2D :=
  paint (DrawImage bitmap (ctx_matrix ctx) dx dy dw dh) ctx.

(** Lines 131-135. *)
Definition orientedSize (w h orientation : Z) : Z * Z :=
  if (5 <=? orientation) && (orientation <=? 8) then (h, w) else (w, h).

Notation "ctx |> f" := (f ctx) (at level 45, left associativity, only parsing).

(** Lines 137-190; [outW] and [outH] are the dimensions after orientation. *)
Definition drawBitmapWithOrientation
  (ctx : Context2D) (bitmap : ImageBitmap) (orientation outW outH : Z) : Context2D :=
  let ctx := ctx |> save |> setFillStyle "#ffffff" |> fillRect 0 0 outW outH in
  let ctx :=
    match orientation with
    | 2 => ctx |> translate outW 0 |> scale (-1) 1 |> drawImage bitmap 0 0 outW outH
    | 3 => ctx |> translate outW outH |> rotate Pi |> drawImage bitmap 0 0 outW outH
    | 4 => ctx |> translate 0 outH |> scale 1 (-1) |> drawImage bitmap 0 0 outW outH
    | 5 => ctx |> rotate MinusHalfPi |> scale (-1) 1 |> translate (- outH) 0
               |> drawImage bitmap 0 0 outH outW
    | 6 => ctx |> rotate HalfPi |> translate 0 (- outW) |> drawImage bitmap 0 0 outH outW
    | 7 => ctx |> rotate HalfPi |> scale (-1) 1 |> translate (- outH) (- outW)
               |> drawImage bitmap 0 0 outH outW
    | 8 => ctx |> rotate MinusHalfPi |> translate (- outH) 0 |> drawImage bitmap 0 0 outH outW
    | _ => ctx |> drawImage bitmap 0 0 outW outH
    end in
  restore ctx.

(** Lines 274-277 and 316-318: a fresh canvas of the output size with the
    bitmap composited on it. *)
Definition composite (bitmap : ImageBitmap) (orientation outW outH : Z) : OffscreenCanvas :=
  ctx_canvas
    (drawBitmapWithOrientation (getContext (newOffscreenCanvas outW outH))
       bitmap orientation outW outH).

(** ** Runtime configuration (lines 17-28) *)

(** The payload an external HEIC decoder returns. *)
Record RgbaPayload : Type := mkPayload {
  pl_width : Z;
  pl_height : Z;
  pl_rgba : option (list byte);
  pl_orientation : option Z
}.

(** The decoder hook of an init message: an object that may or may not have
    a [decodeToRGBA] function; [None] as its result is a falsy payload. *)
Record HeicWasm : Type := mkHeicWasm {
  decodeToRGBA : option (list byte -> Outcome (option RgbaPayload))
}.

Record Runtime : Type := mkRuntime {
  ready : bool;
  maxLongSidePx : Q;
  targetMaxBytes : option Q;
  jpegQualityStart : Q;
  jpegMinQuality : Q;
  jpegQualityStep : Q;
  maxQualityIters : Q;
  maxResizePasses : Q;
  resizeDownFactor : Q;
  heicWasm : option HeicWasm
}.

Definition RUNTIME : Runtime :=
  mkRuntime false 2560 None (95 # 100) (65 # 100) (5 # 100) 8 4 (9 # 10) None.

(** ** The platform *)

Record Platform : Type := mkPlatform {
  (** [typeof ImageDecoder !== "undefined"] *)
  hasImageDecoder : bool;
  (** lines 213-218: decode frame 0 of the data as the given type and turn
      the frame into a bitmap *)
  imageDecoderFrame0 : string -> list byte -> Outcome ImageBitmap;
  (** [createImageBitmap(file, { imageOrientation: "from-image" })] *)
  createImageBitmapFromImage : File -> Outcome ImageBitmap;
  (** [createImageBitmap(file)] *)
  createImageBitmap : File -> Outcome ImageBitmap;
  (** lines 239-245: an RGBA buffer of the given size put on a canvas and
      transferred to a bitmap *)
  bitmapOfRgba : Z -> Z -> list byte -> Outcome ImageBitmap;
  (** [typeof OffscreenCanvas !== "undefined"] *)
  hasOffscreenCanvas : bool;
  (** [canvas.convertToBlob({ type: "image/jpeg", quality })]; the encoder
      is taken to succeed on every canvas *)
  convertToBlob : OffscreenCanvas -> Q -> Blob
}.

(** ** The size-constrained encoder (lines 254-332) *)

(** What [renderResizedJpeg] returns; [r_bestEffortOverLimit] is [None]
    where the object has no such property. *)
Record Rendition : Type := mkRendition {
  r_blob : Blob;
  r_width : Z;
  r_height : Z;
  r_quality : Q;
  r_scale : Q;
  r_pass : Q;
  r_iter : Q;
  r_bestEffortOverLimit : option bool
}.

(** One call of [convertToBlob], as the log of a run records it: the canvas
    size, quality and scale of the encode, the values of the counters [pass]
    and [iter] when it was made, and the size of the blob.  The final render
    of lines 314-319 is logged with [at_final] set, the value the pass
    counter had when the resize loop ended, and [at_iter] 0. *)
Record Attempt : Type := mkAttempt {
  at_width : Z;
  at_height : Z;
  at_quality : Q;
  at_scale : Q;
  at_pass : Z;
  at_iter : Z;
  at_size : Z;
  at_final : bool
}.

(** [Math.round] *)
Definition round (x : Q) : Z := Qfloor (x + (1 # 2)).

(** Lines 271-272 and 314-315: [Math.max(1, Math.round(side * scale))], on
    the exact product. *)
Definition outDim (side : Z) (scale : Q) : Z :=
  Z.max 1 (round (inject_Z side * scale)).

Section Encoder.

Variable pf : Platform.
Variable R : Runtime.

Section Search.

Variable bitmap : ImageBitmap.
Variable orientation : Z.
Variable target : Q.
Variable oSize : Z * Z.

(** The quality loop of lines 284-296 on the canvas of one pass. *)
Fixpoint qualityLoop (fuel : nat) (canvas : OffscreenCanvas) (outW outH : Z)
  (scale : Q) (pass : Z) (q : Q) (iter : Z) : Outcome (option Rendition * list Attempt) :=
  match fuel with
  | O => Diverge
  | S fuel' =>
      if Qltb (inject_Z iter) (maxQualityIters R) then
        let jpegBlob := convertToBlob pf canvas q in
        let a := mkAttempt outW outH q scale pass iter (blob_size jpegBlob) false in
        if Qle_bool (inject_Z (blob_size jpegBlob)) target then
          Ret (Some (mkRendition jpegBlob outW outH q scale (inject_Z pass) (inject_Z iter) None),
               [a])
        else
          let nextQ := Qmax (jpegMinQuality R) (q - jpegQualityStep R) in
          if Qeq_bool nextQ q then Ret (None, [a])
          else
            r <- qualityLoop fuel' canvas outW outH scale pass nextQ (iter + 1) ;;
            Ret (fst r, a :: snd r)
      else Ret (None, [])
  end.

(** The fuel that lets a counter starting at 0 reach [bound] and fail the
    guard once. *)
Definition fuelFor (bound : Q) : nat := S (Z.to_nat (Qceiling bound)).

(** Lines 312-331: the final render at the current scale and the minimum
    quality. *)
Definition finalRender (scale : Q) (pass : Z) : Rendition * list Attempt :=
  let outW := outDim (fst oSize) scale in
  let outH := outDim (snd oSize) scale in
  let canvas := composite bitmap orientation outW outH in
  let jpegBlob := convertToBlob pf canvas (jpegMinQuality R) in
  (mkRendition jpegBlob outW outH (jpegMinQuality R) scale
     (maxResizePasses R) (maxQualityIters R)
     (Some (Qltb target (inject_Z (blob_size jpegBlob)))),
   [mkAttempt outW outH (jpegMinQuality R) scale pass 0 (blob_size jpegBlob) true]).

(** The resize loop of lines 270-310, followed by the final render. *)
Fixpoint passLoop (fuel : nat) (scale : Q) (pass : Z) : Outcome (Rendition * list Attempt) :=
  match fuel with
  | O => Diverge
  | S fuel' =>
      if Qltb (inject_Z pass) (maxResizePasses R) then
        let outW := outDim (fst oSize) scale in
        let outH := outDim (snd oSize) scale in
        let canvas := composite bitmap orientation outW outH in
        r <- qualityLoop (fuelFor (maxQualityIters R)) canvas outW outH scale pass
               (jpegQualityStart R) 0 ;;
        match fst r with
        | Some best => Ret (best, snd r)
        | None =>
            r' <- passLoop fuel' (scale * resizeDownFactor R) (pass + 1) ;;
            Ret (fst r', snd r ++ snd r')
        end
      else Ret (finalRender scale pass)
  end.

End Search.

(** Line 264-265. *)
Definition initialScale (oSize : Z * Z) (maxLongSidePx : Q) : Q :=
  let longSide := Z.max (fst oSize) (snd oSize) in
  if Qltb maxLongSidePx (inject_Z longSide) then maxLongSidePx / inject_Z longSide else 1.

(** Lines 254-332.  The result comes with the log of the encodes made, in
    the order they were made. *)
Definition renderResizedJpeg (bitmap : ImageBitmap) (orientation : Z)
  (maxLongSidePx targetMaxBytes : JsVal) : Outcome (Rendition * list Attempt) :=
  if negb (isFiniteNumber maxLongSidePx) || Qle_bool (numberOf maxLongSidePx) 0
  then Throw "Invalid maxLongSidePx"
  else if negb (isFiniteNumber targetMaxBytes) || Qle_bool (numberOf targetMaxBytes) 0
  then Throw "Invalid targetMaxBytes"
  else if negb (hasOffscreenCanvas pf)
  then Throw "OffscreenCanvas is required for worker pipeline"
  else
    let srcW := bm_width bitmap in
    let srcH := bm_height bitmap in
    let oSize := orientedSize srcW srcH orientation in
    let scale := initialScale oSize (numberOf maxLongSidePx) in
    passLoop bitmap orientation (numberOf targetMaxBytes) oSize
      (fuelFor (maxResizePasses R)) scale 0.

End Encoder.

(** ** The worker: computations that call the platform *)

Inductive PlatformCall : Type :=
| CallImageDecoder
| CallCreateImageBitmap (fromImage : bool)
| CallHeicWasm
| CallBitmapOfRgba
| CallConvertToBlob (a : Attempt).

(** An outcome together with the platform calls made on the way to it. *)
Definition W (A : Type) : Type := (list PlatformCall * Outcome A)%type.

Definition retW {A : Type} (a : A) : W A := ([], Ret a).

Definition throwW {A : Type} (e : string) : W A := ([], Throw e).

Definition bindW {A B : Type} (m : W A) (k : A -> W B) : W B :=
  match snd m with
  | Ret a => (fst m ++ fst (k a), snd (k a))
  | Throw e => (fst m, Throw e)
  | Diverge => (fst m, Diverge)
  end.

Definition tryW {A : Type} (m : W A) (h : string -> W A) : W A :=
  match snd m with
  | Throw e => (fst m ++ fst (h e), snd (h e))
  | _ => m
  end.

(** A platform call: logged, then its outcome. *)
Definition call {A : Type} (c : PlatformCall) (o : Outcome A) : W A := ([c], o).

Notation "x <~ m ;; k" := (bindW m (fun x => k))
(at level 61, m at next level, right associativity) : js_scope.

Record Decoded : Type := mkDecoded {
  dec_bitmap : ImageBitmap;
  dec_orientation : Z;
  dec_orientationMode : string
}.

(** [x || 1] on a number. *)
Definition orOne (x : Z) : Z := if x =? 0 then 1 else x.

Section Worker.

Variable pf : Platform.

(** Lines 192-205. *)
Definition bitmapFromNonHeic (file : File) : W Decoded :=
  tryW
    (bm <~ call (CallCreateImageBitmap true) (createImageBitmapFromImage pf file) ;;
     retW (mkDecoded bm 1 "native_from-image"))
    (fun _ =>
       let mime := inferMime file in
       orientation <~ (if String.eqb mime "image/jpeg"
                       then ([], Exif.readJpegExifOrientation (file_bytes file))
                       else retW 1) ;;
       bm <~ call (CallCreateImageBitmap false) (createImageBitmap pf file) ;;
       retW (mkDecoded bm orientation "manual_exif_or_unknown")).

(** Lines 208-223: the WebCodecs strategy; [None] when it is absent or
    failed. *)
Definition heicViaImageDecoder (file : File) : W (option Decoded) :=
  if hasImageDecoder pf then
    tryW
      (let mime := if String.eqb (inferMime file) "" then "image/heic"%string
                   else inferMime file in
       bm <~ call CallImageDecoder (imageDecoderFrame0 pf mime (file_bytes file)) ;;
       retW (Some (mkDecoded bm 1 "webcodecs_imagedecoder")))
      (fun _ => retW None)
  else retW None.

(** The decoder function of the configured hook, if there is one (the test
    of line 226). *)
Definition wasmDecoder (R : Runtime) : option (list byte -> Outcome (option RgbaPayload)) :=
  match heicWasm R with
  | Some hook => decodeToRGBA hook
  | None => None
  end.

(** Lines 225-251: the WASM strategy, and the failure when there is none. *)
Definition heicViaWasm (R : Runtime) (file : File) : W Decoded :=
  match wasmDecoder R with
  | Some decode =>
      decoded <~ call CallHeicWasm (decode (file_bytes file)) ;;
      match decoded with
      | Some (mkPayload w h (Some rgba) orientation) =>
          if (w =? 0) || (h =? 0)
          then throwW "HEIC WASM decoder returned invalid payload"
          else
            let orientation := match orientation with Some o => orOne o | None => 1 end in
            bm <~ call CallBitmapOfRgba (bitmapOfRgba pf w h rgba) ;;
            retW (mkDecoded bm orientation "wasm_rgba")
      | _ => throwW "HEIC WASM decoder returned invalid payload"
      end
  | None =>
      throwW "HEIC decode not available (no WebCodecs ImageDecoder and no WASM decoder provided)"
  end.

(** Lines 207-252. *)
Definition bitmapFromHeic (R : Runtime) (file : File) : W Decoded :=
  first <~ heicViaImageDecoder file ;;
  match first with
  | Some d => retW d
  | None => heicViaWasm R file
  end.

(** *** Messages and responses *)

Record Overrides : Type := mkOverrides {
  o_jpegQualityStart : JsVal;
  o_jpegMinQuality : JsVal;
  o_jpegQualityStep : JsVal;
  o_maxQualityIters : JsVal;
  o_maxResizePasses : JsVal;
  o_resizeDownFactor : JsVal
}.

(** [ev.data || {}].  [msg_max_long_side_px] and [msg_target_max_bytes] are
    the values of [config?.constraints?.images?.max_long_side_px] and
    [...target_max_bytes], [JUndefined] when a link of the chain is missing;
    [msg_overrides] is [msg.overrides || {}]; a falsy [heicWasmDecoder] or
    [file] is [None]. *)
Record Message : Type := mkMessage {
  msg_type : option string;
  msg_max_long_side_px : JsVal;
  msg_target_max_bytes : JsVal;
  msg_overrides : Overrides;
  msg_heicWasmDecoder : option HeicWasm;
  msg_requestId : JsVal;
  msg_file : option File
}.

(** The [extra] argument of [err]: the properties it may carry. *)
Record Extra : Type := mkExtra {
  x_type : option string;
  x_requestId : option JsVal;
  x_detail : option string
}.

(** The [error] object of a failure response. *)
Record ErrorInfo : Type := mkError {
  err_code : string;
  err_message : string;
  err_type : option string;
  err_requestId : option JsVal;
  err_detail : option string
}.

Record InitOk : Type := mkInitOk {
  io_maxLongSidePx : Q;
  io_targetMaxBytes : option Q;
  io_hasHeicWasm : bool;
  io_hasWebCodecsImageDecoder : bool;
  io_warnings : list string
}.

Record Debug : Type := mkDebug {
  dbg_input_mime : string;
  dbg_input_bytes : Z;
  dbg_input_name : string;
  dbg_decode_orientation : Z;
  dbg_decode_mode : string;
  dbg_decode_srcW : Z;
  dbg_decode_srcH : Z;
  dbg_output_bytes : Z;
  dbg_output_width : Z;
  dbg_output_height : Z;
  dbg_output_quality : Q;
  dbg_output_scale : Q;
  dbg_output_pass : Q;
  dbg_output_iter : Q;
  dbg_output_bestEffortOverLimit : bool;
  dbg_limits_maxLongSidePx : Q;
  dbg_limits_targetMaxBytes : option Q
}.

Record ProcessOk : Type := mkProcessOk {
  po_requestId : JsVal;
  po_original_blob : File;
  po_original_mime : string;
  po_original_bytes : Z;
  po_normalized_blob : Blob;
  po_normalized_bytes : Z;
  po_normalized_width : Z;
  po_normalized_height : Z;
  po_debug : Debug
}.

Inductive Response : Type :=
| Failure (e : ErrorInfo)
| InitDone (r : InitOk)
| ProcessDone (r : ProcessOk).

(** Lines 50-52. *)
Definition err (code message : string) (extra : Extra) : Response :=
  Failure (mkError code message (x_type extra) (x_requestId extra) (x_detail extra)).

Definition noExtra : Extra := mkExtra None None None.

(** [isFiniteNumber(v) ? v : keep] *)
Definition finiteOr (v : JsVal) (keep : Q) : Q :=
  if isFiniteNumber v then numberOf v else keep.

(** [!RUNTIME.targetMaxBytes] *)
Definition noTarget (R : Runtime) : bool :=
  match targetMaxBytes R with
  | Some q => Qeq_bool q 0
  | None => true
  end.

(** Lines 339-381. *)
Definition init (R : Runtime) (msg : Message) : Runtime * Response :=
  let maxLongSide := msg_max_long_side_px msg in
  let targetMax := msg_target_max_bytes msg in
  let o := msg_overrides msg in
  let R' :=
    mkRuntime true
      (finiteOr maxLongSide 2560)
      (if isFiniteNumber targetMax then Some (numberOf targetMax) else None)
      (finiteOr (o_jpegQualityStart o) (jpegQualityStart R))
      (finiteOr (o_jpegMinQuality o) (jpegMinQuality R))
      (finiteOr (o_jpegQualityStep o) (jpegQualityStep R))
      (finiteOr (o_maxQualityIters o) (maxQualityIters R))
      (finiteOr (o_maxResizePasses o) (maxResizePasses R))
      (finiteOr (o_resizeDownFactor o) (resizeDownFactor R))
      (match msg_heicWasmDecoder msg with
       | Some hook => Some hook
       | None => heicWasm R
       end) in
  let warnings :=
    if noTarget R'
    then ["Missing constraints.images.target_max_bytes in Config.DB — processing will fail until provided."%string]
    else [] in
  (R', InitDone (mkInitOk (maxLongSidePx R') (targetMaxBytes R')
                   (match heicWasm R' with Some _ => true | None => false end)
                   (hasImageDecoder pf) warnings)).

Definition targetValue (R : Runtime) : JsVal :=
  match targetMaxBytes R with
  | Some q => JNum (Finite q)
  | None => JNull
  end.

(** [!!normalized.bestEffortOverLimit] *)
Definition flagOf (r : Rendition) : bool :=
  match r_bestEffortOverLimit r with
  | Some b => b
  | None => false
  end.

(** Lines 405-463: from the file to the success response; the [catch] of the
    HEIC decode returns its failure response as a value. *)
Definition processFile (R : Runtime) (requestId : JsVal) (file : File) : W Response :=
  let mime := inferMime file in
  let originalBytes := file_size file in
  d <~ (if isHeicLike mime then
          tryW (x <~ bitmapFromHeic R file ;; retW (inr x))
               (fun e => retW (inl
                  (err "E_HEIC_CONVERT_FAILED"
                     "Не удалось конвертировать HEIC/HEIF офлайн. Выберите фото в JPEG/PNG."
                     (mkExtra (Some "process_err"%string) (Some requestId) (Some e)))))
        else x <~ bitmapFromNonHeic file ;; retW (inr x)) ;;
  match d with
  | inl failure => retW failure
  | inr decoded =>
      let bitmap := dec_bitmap decoded in
      let orientation := orOne (dec_orientation decoded) in
      let rendered := renderResizedJpeg pf R bitmap orientation
                        (JNum (Finite (maxLongSidePx R))) (targetValue R) in
      (* The encodes of a call that returns are its log; a call that throws
         does so from the guards of lines 255-257, before any encode. *)
      n <~ (match rendered with
            | Ret (normalized, log) => (map CallConvertToBlob log, Ret normalized)
            | Throw e => throwW e
            | Diverge => ([], Diverge)
            end) ;;
      (* Line 437 closes the bitmap; line 441 then reads the width and the
         height of [decoded.bitmap], which is that same closed object. *)
      let closed := close bitmap in
      let debug :=
        mkDebug mime originalBytes (file_name file)
          orientation (dec_orientationMode decoded) (bm_width closed) (bm_height closed)
          (blob_size (r_blob n)) (r_width n) (r_height n) (r_quality n) (r_scale n)
          (r_pass n) (r_iter n) (flagOf n)
          (maxLongSidePx R) (targetMaxBytes R) in
      retW (ProcessDone
              (mkProcessOk requestId file
                 (if String.eqb mime "" then file_type file else mime) originalBytes
                 (r_blob n) (blob_size (r_blob n)) (r_width n) (r_height n) debug))
  end.

(** Lines 383-464. *)
Definition process (R : Runtime) (msg : Message) : W Response :=
  if negb (ready R) then
    retW (err "E_NOT_INITIALIZED" "Worker is not initialized. Call init() first."
            (mkExtra (Some "process_err"%string) None None))
  else if noTarget R then
    retW (err "E_CONFIG_TARGET_MAX_BYTES_MISSING"
            "В Config.DB нет constraints.images.target_max_bytes. Добавь этот параметр, иначе нельзя гарантировать размер JPEG."
            (mkExtra (Some "process_err"%string) None None))
  else
    let requestId := if truthy (msg_requestId msg) then msg_requestId msg else JStr "" in
    match msg_file msg with
    | None =>
        retW (err "E_NO_FILE" "No file provided"
                (mkExtra (Some "process_err"%string) (Some requestId) None))
    | Some file => processFile R requestId file
    end.

Definition typeText (t : option string) : string :=
  match t with
  | Some s => s
  | None => "undefined"
  end.

(** [type === name] *)
Definition isType (msg : Message) (name : string) : bool :=
  match msg_type msg with
  | Some t => String.eqb t name
  | None => false
  end.

(** The body of the [try] of lines 338-466: the runtime it leaves and the
    response it posts. *)
Definition dispatch (R : Runtime) (msg : Message) : W (Runtime * Response) :=
  if isType msg "init" then retW (init R msg)
  else if isType msg "process" then r <~ process R msg ;; retW (R, r)
  else
    retW (R, err "E_UNKNOWN_MESSAGE" ("Unknown message type: " ++ typeText (msg_type msg))
               (mkExtra (Some "unknown_err"%string) None None)).

(** What handling one message leaves behind. *)
Record Handled : Type := mkHandled {
  runtime : Runtime;
  posted : list Response;
  calls : list PlatformCall
}.

(** Lines 334-470. *)
Definition onmessage (R : Runtime) (msg : Message) : Handled :=
  let r := dispatch R msg in
  match snd r with
  | Ret (R', response) => mkHandled R' [response] (fst r)
  | Throw e =>
      mkHandled R
        [err "E_WORKER_EXCEPTION" "Unhandled worker exception" (mkExtra None None (Some e))]
        (fst r)
  | Diverge => mkHandled R [] (fst r)
  end.

(** The worker handling a sequence of messages, one after the other. *)
Fixpoint run (R : Runtime) (msgs : list Message) : list Handled :=
  match msgs with
  | [] => []
  | msg :: rest =>
      let h := onmessage R msg in
      h :: run (runtime h) rest
  end.

End Worker.

(** ** Sample inputs *)

Definition octet (z : Z) : byte :=
  match Byte.of_N (Z.to_N z) with
  | Some b => b
  | None => x00
  end.

Definition octets (l : list Z) : list byte := map octet l.

(** SOI, an APP1 segment with a big-endian TIFF header and one IFD0 entry:
    Orientation, short, count 1, value 6. *)
Definition jpegBigEndian6 : list byte :=
  octets [0xFF; 0xD8; 0xFF; 0xE1; 0x00; 0x22;
          0x45; 0x78; 0x69; 0x66; 0x00; 0x00;
          0x4D; 0x4D; 0x00; 0x2A; 0x00; 0x00; 0x00; 0x08;
          0x00; 0x01;
          0x01; 0x12; 0x00; 0x03; 0x00; 0x00; 0x00; 0x01; 0x00; 0x06; 0x00; 0x00;
          0x00; 0x00; 0x00; 0x00;
          0xFF; 0xD9].

(** An XMP-like APP1 segment without the Exif signature, then an APP1 segment
    with a little-endian TIFF header and orientation 8. *)
Definition jpegTwoApp1 : list byte :=
  octets [0xFF; 0xD8;
          0xFF; 0xE1; 0x00; 0x08; 0x68; 0x74; 0x74; 0x70; 0x3A; 0x2F;
          0xFF; 0xE1; 0x00; 0x22;
          0x45; 0x78; 0x69; 0x66; 0x00; 0x00;
          0x49; 0x49; 0x2A; 0x00; 0x08; 0x00; 0x00; 0x00;
          0x01; 0x00;
          0x12; 0x01; 0x03; 0x00; 0x01; 0x00; 0x00; 0x00; 0x08; 0x00; 0x00; 0x00;
          0x00; 0x00; 0x00; 0x00;
          0xFF; 0xD9].

(** As [jpegBigEndian6], with the entry typed long (4) instead of short. *)
Definition jpegWrongType : list byte :=
  octets [0xFF; 0xD8; 0xFF; 0xE1; 0x00; 0x22;
          0x45; 0x78; 0x69; 0x66; 0x00; 0x00;
          0x4D; 0x4D; 0x00; 0x2A; 0x00; 0x00; 0x00; 0x08;
          0x00; 0x01;
          0x01; 0x12; 0x00; 0x04; 0x00; 0x00; 0x00; 0x01; 0x00; 0x00; 0x00; 0x06;
          0x00; 0x00; 0x00; 0x00;
          0xFF; 0xD9].

(** A little-endian IFD0 of two Orientation entries: the first typed long
    (4) with value 3, the second well formed with value 6. *)
Definition jpegLongThenShort : list byte :=
  octets [0xFF; 0xD8; 0xFF; 0xE1; 0x00; 0x2E;
          0x45; 0x78; 0x69; 0x66; 0x00; 0x00;
          0x49; 0x49; 0x2A; 0x00; 0x08; 0x00; 0x00; 0x00;
          0x02; 0x00;
          0x12; 0x01; 0x04; 0x00; 0x01; 0x00; 0x00; 0x00; 0x03; 0x00; 0x00; 0x00;
          0x12; 0x01; 0x03; 0x00; 0x01; 0x00; 0x00; 0x00; 0x06; 0x00; 0x00; 0x00;
          0x00; 0x00; 0x00; 0x00;
          0xFF; 0xD9].

(** The first bytes of a PNG file. *)
Definition pngSignature : list byte :=
  octets [0x89; 0x50; 0x4E; 0x47; 0x0D; 0x0A; 0x1A; 0x0A].

(** Where the bitmaps drawn on a canvas land: for every [drawImage], the
    pixel-grid images of the two opposite corners [(dx, dy)] and
    [(dx + dw, dy + dh)] of its destination rectangle. *)
Definition drawnCorners (c : OffscreenCanvas) : list ((Z * Z) * (Z * Z)) :=
  flat_map (fun op =>
              match op with
              | DrawImage _ m dx dy dw dh =>
                  [(mapPoint m (dx, dy), mapPoint m (dx + dw, dy + dh))]
              | FillRect _ _ _ _ _ _ => []
              end) (cv_ops c).

(** An encoder whose output grows with the pixel count and the quality: a
    quarter of a byte per pixel at quality 1. *)
Definition sampleEncoder (canvas : OffscreenCanvas) (q : Q) : Blob :=
  mkBlob "image/jpeg" (Qceiling (inject_Z (cv_width canvas * cv_height canvas) * q * (1 # 4))).

(** A platform without HEIC support that decodes every file to a 4000x3000
    bitmap. *)
Definition samplePlatform : Platform :=
  mkPlatform false
    (fun _ _ => Throw "ImageDecoder is not defined")
    (fun _ => Ret (mkBitmap 4000 3000 []))
    (fun _ => Ret (mkBitmap 4000 3000 []))
    (fun w h _ => Ret (mkBitmap w h []))
    true
    sampleEncoder.

Definition sampleBitmap : ImageBitmap := mkBitmap 4000 3000 [].

Definition noOverrides : Overrides :=
  mkOverrides JUndefined JUndefined JUndefined JUndefined JUndefined JUndefined.

(** [{ type: "init", config: { constraints: { images: { max_long_side_px,
    target_max_bytes } } } }] *)
Definition initMessage (max_long_side_px target_max_bytes : JsVal) : Message :=
  mkMessage (Some "init"%string) max_long_side_px target_max_bytes noOverrides None
    JUndefined None.

(** [{ type: "process", requestId, file }] *)
Definition processMessage (requestId : string) (file : option File) : Message :=
  mkMessage (Some "process"%string) JUndefined JUndefined noOverrides None
    (JStr requestId) file.

Definition jpegFile : File := mkFile "image/jpeg" "photo.jpg" 40 jpegBigEndian6.

Definition heicFile : File := mkFile "" "IMG_0001.HEIC" 8 pngSignature.

(** A platform on which every decode fails. *)
Definition brokenPlatform : Platform :=
  mkPlatform true
    (fun _ _ => Throw "decode failed")
    (fun _ => Throw "The source image could not be decoded.")
    (fun _ => Throw "The source image could not be decoded.")
    (fun _ _ _ => Throw "decode failed")
    true
    sampleEncoder.

(** The worker after an init message with both limits: 2560 px, 500000
    bytes. *)
Definition configured : Runtime :=
  runtime (onmessage samplePlatform RUNTIME
             (initMessage (JNum (Finite 2560)) (JNum (Finite 500000)))).

(** ** Specification vocabulary *)

(** A 12-byte IFD entry at [entry] that is a well-formed Orientation entry of
    value [v]: tag 0x0112, type short, count 1, value in 1..8. *)
Definition OrientationEntry (dv : DataView.t) (little : bool) (entry v : Z) : Prop :=
  DataView.getUint16 dv entry little = Ret 0x0112
  /\ DataView.getUint16 dv (entry + 2) little = Ret 3
  /\ DataView.getUint32 dv (entry + 4) little = Ret 1
  /\ DataView.getUint16 dv (entry + 8) little = Ret v
  /\ 1 <= v <= 8.

(** An APP1 payload at [offset] that carries orientation [v] with no anomaly:
    the Exif signature, the TIFF magic in the byte order of the header, and
    a well-formed Orientation entry in IFD0. *)
Definition ExifOrientation (dv : DataView.t) (offset v : Z) : Prop :=
  DataView.getUint16 dv (offset - 4) false = Ret 0xFFE1
  /\ DataView.getUint32 dv offset false = Ret 0x45786966
  /\ DataView.getUint16 dv (offset + 4) false = Ret 0
  /\ exists bom ifd0Rel entries i,
       DataView.getUint16 dv (offset + 6) false = Ret bom
       /\ DataView.getUint16 dv (offset + 8) (bom =? 0x4949) = Ret 0x002A
       /\ DataView.getUint32 dv (offset + 10) (bom =? 0x4949) = Ret ifd0Rel
       /\ DataView.getUint16 dv (offset + 6 + ifd0Rel) (bom =? 0x4949) = Ret entries
       /\ 0 <= i < entries
       /\ OrientationEntry dv (bom =? 0x4949) (offset + 6 + ifd0Rel + 2 + i * 12) v.

(** The loop of lines 69-123 steps over the segment whose marker is at
    [offset], to the marker at [next]: the four bytes of marker and length
    are inside the buffer, the marker is neither EOI nor SOS, the length is
    at least 2, and an APP1 segment does not carry the Exif signature. *)
Definition SkipsTo (dv : DataView.t) (offset next : Z) : Prop :=
  offset + 4 < DataView.byteLength dv
  /\ exists marker size,
       DataView.getUint16 dv offset false = Ret marker
       /\ marker <> 0xFFD9 /\ marker <> 0xFFDA
       /\ DataView.getUint16 dv (offset + 2) false = Ret size /\ 2 <= size
       /\ (marker = 0xFFE1 -> Exif.exifHeader dv (offset + 4) = Ret false)
       /\ next = offset + 4 + (size - 2).

(** The loop, started at [offset], arrives at the marker at [p]. *)
Inductive WalksTo (dv : DataView.t) : Z -> Z -> Prop :=
| WalksTo_here (offset : Z) : WalksTo dv offset offset
| WalksTo_skip (offset next p : Z) :
    SkipsTo dv offset next -> WalksTo dv next p -> WalksTo dv offset p.

(** An APP1 segment with the Exif signature has its marker at [p]. *)
Definition ExifApp1 (dv : DataView.t) (p : Z) : Prop :=
  p + 4 < DataView.byteLength dv
  /\ DataView.getUint16 dv p false = Ret 0xFFE1
  /\ (exists size, DataView.getUint16 dv (p + 2) false = Ret size /\ 2 <= size)
  /\ DataView.getUint32 dv (p + 4) false = Ret 0x45786966
  /\ DataView.getUint16 dv (p + 8) false = Ret 0.

(** The segment at [p] is the Exif segment the reader meets: the first one
    on its walk from the byte behind the SOI marker. *)
Definition ExifSegmentAt (dv : DataView.t) (p : Z) : Prop :=
  WalksTo dv 2 p /\ ExifApp1 dv p.

(** The APP1 payload at [payload] has a TIFF header with the magic number in
    its byte order [little] and an IFD0 inside the buffer, of [entries]
    entries of which the first is at [first]. *)
Definition TiffDirectory (dv : DataView.t) (payload : Z) (little : bool)
  (first entries : Z) : Prop :=
  exists bom ifd0Rel,
    DataView.getUint16 dv (payload + 6) false = Ret bom
    /\ little = (bom =? 0x4949)
    /\ DataView.getUint16 dv (payload + 8) little = Ret 0x002A
    /\ DataView.getUint32 dv (payload + 10) little = Ret ifd0Rel
    /\ payload + 6 + ifd0Rel + 2 <= DataView.byteLength dv
    /\ DataView.getUint16 dv (payload + 6 + ifd0Rel) little = Ret entries
    /\ first = payload + 6 + ifd0Rel + 2.

(** [entry] is the first entry of the directory that has the Orientation
    tag: it is inside the buffer and the entries before it have other tags. *)
Definition FirstOrientationEntry (dv : DataView.t) (little : bool)
  (first entries entry : Z) : Prop :=
  exists i,
    0 <= i < entries
    /\ entry = first + i * 12
    /\ entry + 12 <= DataView.byteLength dv
    /\ DataView.getUint16 dv entry little = Ret 0x0112
    /\ forall j, 0 <= j < i ->
         exists tag, DataView.getUint16 dv (first + j * 12) little = Ret tag
                     /\ tag <> 0x0112.

(** What iteration [iter] of the quality loop logs when it encodes [canvas]
    at quality [q]. *)
Definition attemptOf (pf : Platform) (canvas : OffscreenCanvas) (outW outH : Z)
  (scale : Q) (pass : Z) (q : Q) (iter : Z) : Attempt :=
  mkAttempt outW outH q scale pass iter (blob_size (convertToBlob pf canvas q)) false.

(** Line 292. *)
Definition nextQuality (R : Runtime) (q : Q) : Q :=
  Qmax (jpegMinQuality R) (q - jpegQualityStep R).

(** A rendition the quality loop accepted on [canvas]. *)
Definition Accepted (pf : Platform) (target : Q) (canvas : OffscreenCanvas)
  (outW outH : Z) (scale : Q) (best : Rendition) : Prop :=
  (inject_Z (blob_size (r_blob best)) <= target)%Q
  /\ r_bestEffortOverLimit best = None
  /\ r_width best = outW /\ r_height best = outH /\ r_scale best = scale
  /\ r_blob best = convertToBlob pf canvas (r_quality best).

(** Attempt [b] follows attempt [a] in the quality loop of one pass: [a] was
    over the target and [b] encodes at the next, different, quality. *)
Definition QualityStep (R : Runtime) (target : Q) (a b : Attempt) : Prop :=
  at_pass b = at_pass a ->
  at_quality b = nextQuality R (at_quality a)
  /\ ~ (at_quality b == at_quality a)%Q
  /\ at_iter b = at_iter a + 1
  /\ (target < inject_Z (at_size a))%Q.

(** The scale after [n] unsuccessful passes. *)
Definition scaleAfter (R : Runtime) (n : nat) (scale : Q) : Q :=
  Nat.iter n (fun s => (s * resizeDownFactor R)%Q) scale.

(** The number of times a counter that starts at 0 passes the guard
    [counter < bound]. *)
Definition iterations (bound : Q) : Z := Z.max 0 (Qceiling bound).

(** What every rendition returned by the resize loop satisfies: its
    dimensions are the oriented dimensions at its scale, its blob is the
    encode of the canvas composited at these dimensions, and it is either
    within the target without an over-limit property, or the final render at
    the minimum quality with the property set to [size > target]. *)
Definition Rendered (pf : Platform) (R : Runtime) (bitmap : ImageBitmap)
  (orientation : Z) (target : Q) (oSize : Z * Z) (r : Rendition) : Prop :=
  r_width r = outDim (fst oSize) (r_scale r)
  /\ r_height r = outDim (snd oSize) (r_scale r)
  /\ r_blob r = convertToBlob pf (composite bitmap orientation (r_width r) (r_height r))
                  (r_quality r)
  /\ ((inject_Z (blob_size (r_blob r)) <= target)%Q /\ r_bestEffortOverLimit r = None
      \/ r_bestEffortOverLimit r = Some (Qltb target (inject_Z (blob_size (r_blob r))))
         /\ r_quality r = jpegMinQuality R).

(** Attempt [b], made after attempt [a], is at a scale that is not larger. *)
Definition ScaleOrder (a b : Attempt) : Prop := (at_scale b <= at_scale a)%Q.

(** The failure of lines 390-394. *)
Definition missingTargetFailure : Response :=
  err "E_CONFIG_TARGET_MAX_BYTES_MISSING"
    "В Config.DB нет constraints.images.target_max_bytes. Добавь этот параметр, иначе нельзя гарантировать размер JPEG."
    (mkExtra (Some "process_err"%string) None None).

(** The failure of lines 414-418 for request [requestId] and the exception
    text [detail]. *)
Definition heicFailure (requestId : JsVal) (detail : string) : Response :=
  err "E_HEIC_CONVERT_FAILED"
    "Не удалось конвертировать HEIC/HEIF офлайн. Выберите фото в JPEG/PNG."
    (mkExtra (Some "process_err"%string) (Some requestId) (Some detail)).

(** [msg.requestId || ""] *)
Definition requestIdOf (msg : Message) : JsVal :=
  if truthy (msg_requestId msg) then msg_requestId msg else JStr "".

(** A [target_max_bytes] that leaves the worker without a byte budget: not a
    finite number, or zero. *)
Definition leavesNoTarget (v : JsVal) : Prop :=
  isFiniteNumber v = false \/ (numberOf v == 0)%Q.

(** The warning of line 367. *)
Definition missingTargetWarning : string :=
  "Missing constraints.images.target_max_bytes in Config.DB — processing will fail until provided.".

(** The text of the exception of line 251. *)
Definition heicUnavailable : string :=
  "HEIC decode not available (no WebCodecs ImageDecoder and no WASM decoder provided)".

(** The error code and the request identifier, if any, of each failure
    response in a list of posted responses. *)
Definition failureIds (responses : list Response) : list (string * option JsVal) :=
  flat_map (fun response =>
              match response with
              | Failure e => [(err_code e, err_requestId e)]
              | _ => []
              end) responses.

(** The worker after an init message without [target_max_bytes]. *)
Definition withoutBudget : Runtime :=
  runtime (onmessage samplePlatform RUNTIME (initMessage (JNum (Finite 2560)) JUndefined)).

(** Attempt [a] produced a blob over the target. *)
Definition Over (target : Q) (a : Attempt) : Prop :=
  (target < inject_Z (at_size a))%Q.

(** Attempt [a] is the encode that rendition [r] carries. *)
Definition Carries (r : Rendition) (a : Attempt) : Prop :=
  at_size a = blob_size (r_blob r)
  /\ at_quality a = r_quality r
  /\ at_scale a = r_scale r
  /\ at_width a = r_width r
  /\ at_height a = r_height r.

(** Attempt [a] is an encode of the bitmap: of the canvas on which the
    bitmap is composited at the oriented dimensions [oSize] scaled by the
    scale of the attempt, at the quality of the attempt. *)
Definition EncodeOf (pf : Platform) (bitmap : ImageBitmap) (orientation : Z)
  (oSize : Z * Z) (a : Attempt) : Prop :=
  at_width a = outDim (fst oSize) (at_scale a)
  /\ at_height a = outDim (snd oSize) (at_scale a)
  /\ at_size a
     = blob_size (convertToBlob pf
                    (composite bitmap orientation (at_width a) (at_height a))
                    (at_quality a)).

(** Attempt [b], made next after attempt [a], belongs to another pass only
    when the quality loop of the pass of [a] was through: line 292 left the
    quality of [a] unchanged, or the next iteration index has reached
    [maxQualityIters]. *)
Definition PassEnd (R : Runtime) (a b : Attempt) : Prop :=
  at_pass b <> at_pass a ->
  (nextQuality R (at_quality a) == at_quality a)%Q
  \/ (maxQualityIters R <= inject_Z (at_iter a + 1))%Q.

(** The search behind rendition [r] ran through every pass: [r] is at the
    scale [scale0] multiplied by the down-factor once per pass and has the
    configured bounds in [pass] and [iter], and every pass below
    [maxResizePasses] began with an encode at the start quality (when
    [maxQualityIters] lets a quality loop encode at all). *)
Definition Exhausted (R : Runtime) (scale0 : Q) (log : list Attempt) (r : Rendition) : Prop :=
  r_scale r = scaleAfter R (Z.to_nat (iterations (maxResizePasses R))) scale0
  /\ r_pass r = maxResizePasses R
  /\ r_iter r = maxQualityIters R
  /\ forall k, 0 <= k -> (inject_Z k < maxResizePasses R)%Q -> (0 < maxQualityIters R)%Q ->
       exists a, In a log /\ at_pass a = k /\ at_iter a = 0
                 /\ at_quality a = jpegQualityStart R /\ at_final a = false.

(** A platform without [OffscreenCanvas]. *)
Definition noCanvasPlatform : Platform :=
  mkPlatform false
    (fun _ _ => Throw "ImageDecoder is not defined")
    (fun _ => Ret (mkBitmap 4000 3000 []))
    (fun _ => Ret (mkBitmap 4000 3000 []))
    (fun w h _ => Ret (mkBitmap w h []))
    false
    sampleEncoder.

(** [{ type: "init", config, overrides }] with the two limits 2560 px and
    500000 bytes. *)
Definition initWith (o : Overrides) : Message :=
  mkMessage (Some "init"%string) (JNum (Finite 2560)) (JNum (Finite 500000)) o None
    JUndefined None.

(** The worker after an init message whose overrides set [maxQualityIters]
    to 2.5 and [maxResizePasses] to 1.5. *)
Definition withFractionalBounds : Runtime :=
  runtime (onmessage samplePlatform RUNTIME
             (initWith (mkOverrides JUndefined JUndefined JUndefined
                          (JNum (Finite (5 # 2))) (JNum (Finite (3 # 2))) JUndefined))).

(** The worker after an init message whose overrides set [resizeDownFactor]
    to 2. *)
Definition withFactorTwo : Runtime :=
  runtime (onmessage samplePlatform RUNTIME
             (initWith (mkOverrides JUndefined JUndefined JUndefined
                          JUndefined JUndefined (JNum (Finite 2))))).

(** Every decode function of the platform comes back, with a bitmap or with
    an exception. *)
Definition PlatformResponds (pf : Platform) : Prop :=
  (forall mime data, halts (imageDecoderFrame0 pf mime data))
  /\ (forall file, halts (createImageBitmapFromImage pf file))
  /\ (forall file, halts (createImageBitmap pf file))
  /\ (forall w h rgba, halts (bitmapOfRgba pf w h rgba)).

(** The configured HEIC decoder, if any, comes back on every input. *)
Definition DecoderResponds (R : Runtime) : Prop :=
  forall decode, wasmDecoder R = Some decode -> forall data, halts (decode data).

(** A platform whose encoder never gets under a million bytes. *)
Definition heavyPlatform : Platform :=
  mkPlatform false
    (fun _ _ => Throw "ImageDecoder is not defined")
    (fun _ => Ret (mkBitmap 4000 3000 []))
    (fun _ => Ret (mkBitmap 4000 3000 []))
    (fun w h _ => Ret (mkBitmap w h []))
    true
    (fun _ _ => mkBlob "image/jpeg" 1000000).

(** A platform without the [imageOrientation] option of [createImageBitmap]:
    the worker reads the EXIF orientation itself. *)
Definition legacyPlatform : Platform :=
  mkPlatform false
    (fun _ _ => Throw "ImageDecoder is not defined")
    (fun _ => Throw "imageOrientation is not supported")
    (fun _ => Ret (mkBitmap 4000 3000 []))
    (fun w h _ => Ret (mkBitmap w h []))
    true
    sampleEncoder.

(** The configured worker with a HEIC decoder hook that returns no payload. *)
Definition withEmptyDecoder : Runtime :=
  runtime (onmessage samplePlatform configured
             (mkMessage (Some "init"%string) (JNum (Finite 2560)) (JNum (Finite 500000))
                noOverrides (Some (mkHeicWasm (Some (fun _ => Ret None)))) JUndefined None)).

(** A 1200x800 bitmap, within the default long-side limit. *)
Definition smallBitmap : ImageBitmap := mkBitmap 1200 800 [].

(** Attempt [a] comes before attempt [b] in the order of the search: an
    earlier pass, or the same pass and an earlier quality iteration. *)
Definition Earlier (a b : Attempt) : Prop :=
  at_pass a < at_pass b \/ (at_pass a = at_pass b /\ at_iter a < at_iter b).

(** Lines 409-423 of the handler, as [processFile] has them: the decode of
    the file, or the failure response of the [catch] around the HEIC
    decode. *)
Definition decodeStep (pf : Platform) (R : Runtime) (requestId : JsVal) (file : File)
  : W (Response + Decoded) :=
  if isHeicLike (inferMime file) then
    tryW (x <~ bitmapFromHeic pf R file ;; retW (inr x))
         (fun e => retW (inl (heicFailure requestId e)))
  else x <~ bitmapFromNonHeic pf file ;; retW (inr x).

(** A message of a kind the worker does not know. *)
Definition pingMessage : Message :=
  mkMessage (Some "ping"%string) JUndefined JUndefined noOverrides None JUndefined None.

(** The configured worker with a HEIC decoder hook that returns a 4000x3000
    RGBA payload with orientation 6. *)
Definition withDecoder : Runtime :=
  runtime (onmessage samplePlatform configured
             (mkMessage (Some "init"%string) (JNum (Finite 2560)) (JNum (Finite 500000))
                noOverrides
                (Some (mkHeicWasm
                         (Some (fun _ => Ret (Some (mkPayload 4000 3000 (Some []) (Some 6)))))))
                JUndefined None)).

(** Lines 439-462: the success payload for a decoded file and its
    rendition. *)
Definition successOf (R : Runtime) (requestId : JsVal) (file : File)
  (decoded : Decoded) (n : Rendition) : ProcessOk :=
  mkProcessOk requestId file
    (if String.eqb (inferMime file) "" then file_type file else inferMime file)
    (file_size file)
    (r_blob n) (blob_size (r_blob n)) (r_width n) (r_height n)
    (mkDebug (inferMime file) (file_size file) (file_name file)
       (orOne (dec_orientation decoded)) (dec_orientationMode decoded)
       (bm_width (close (dec_bitmap decoded))) (bm_height (close (dec_bitmap decoded)))
       (blob_size (r_blob n)) (r_width n) (r_height n)
       (r_quality n) (r_scale n) (r_pass n) (r_iter n) (flagOf n)
       (maxLongSidePx R) (targetMaxBytes R)).

(** * Properties *)

(** ** Outcomes *)

Lemma bind_Ret_inv {A B : Type} (m : Outcome A) (k : A -> Outcome B) (b : B) :
  bind m k = Ret b -> exists a, m = Ret a /\ k a = Ret b.
Proof.
  destruct m as [a | e | ]; simpl; intros H; try discriminate.
  exists a; split; [reflexivity | exact H].
Qed.

Lemma bind_halts {A B : Type} (m : Outcome A) (k : A -> Outcome B) :
  halts m -> (forall a, m = Ret a -> halts (k a)) -> halts (bind m k).
Proof.
  unfold halts; destruct m as [a | e | ]; simpl; intros Hm Hk.
  - apply Hk; reflexivity.
  - discriminate.
  - congruence.
Qed.

Lemma Ret_inj {A : Type} (a b : A) : Ret a = Ret b -> a = b.
Proof. intros H; injection H as H; exact H. Qed.

Lemma Ret_halts {A : Type} (a : A) : halts (Ret a).
Proof. unfold halts; discriminate. Qed.

(** Splits a hypothesis [bind m k = Ret v]. *)
Tactic Notation "inv_bind" hyp(H) "as" ident(a) ident(Ha) :=
  apply bind_Ret_inv in H; destruct H as (a & Ha & H).

(** ** The EXIF reader *)

Module ExifFacts.

Import DataView Exif.

Lemma getUint16_halts dv o l : halts (getUint16 dv o l).
Proof.
  unfold halts, getUint16.
  destruct (byteAt dv o); [destruct (byteAt dv (o + 1)) |]; discriminate.
Qed.

Lemma getUint32_halts dv o l : halts (getUint32 dv o l).
Proof.
  unfold halts, getUint32.
  destruct (byteAt dv o); [destruct (byteAt dv (o + 1));
    [destruct (byteAt dv (o + 2)); [destruct (byteAt dv (o + 3)) |] |] |];
    discriminate.
Qed.

Create HintDb exif.

#[local] Hint Resolve getUint16_halts getUint32_halts Ret_halts : exif.

Lemma scanEntries_halts dv l ifd0 n i : halts (scanEntries dv l ifd0 n i).
Proof.
  revert i; induction n as [| n IH]; intros i; simpl; auto with exif.
  destruct (_ >? _); auto with exif.
  apply bind_halts; auto with exif; intros tag _.
  destruct (tag =? 274); [| apply IH].
  apply bind_halts; auto with exif; intros type _.
  apply bind_halts; auto with exif; intros count _.
  destruct (_ || _); auto with exif.
  apply bind_halts; auto with exif; intros value _.
  destruct (_ && _); auto with exif.
Qed.

Lemma parseTiff_halts dv offset : halts (parseTiff dv offset).
Proof.
  unfold parseTiff.
  apply bind_halts; auto with exif; intros bom _.
  apply bind_halts; auto with exif; intros magic _.
  destruct (negb _); auto with exif.
  apply bind_halts; auto with exif; intros rel _.
  destruct (_ >? _); auto with exif.
  apply bind_halts; auto with exif; intros entries _.
  apply scanEntries_halts.
Qed.

Lemma exifHeader_halts dv offset : halts (exifHeader dv offset).
Proof.
  unfold exifHeader.
  apply bind_halts; auto with exif; intros h _.
  destruct (h =? _); auto with exif.
  apply bind_halts; auto with exif.
Qed.

Lemma byteAt_nonneg dv o b : byteAt dv o = Some b -> 0 <= b.
Proof.
  unfold byteAt; destruct (o <? 0); [discriminate |].
  destruct (nth_error dv (Z.to_nat o)) as [x |]; [| discriminate].
  intros [= <-]; apply N2Z.is_nonneg.
Qed.

Lemma getUint16_nonneg dv o l v : getUint16 dv o l = Ret v -> 0 <= v.
Proof.
  unfold getUint16.
  destruct (byteAt dv o) as [b0 |] eqn:E0; [| discriminate].
  destruct (byteAt dv (o + 1)) as [b1 |] eqn:E1; [| discriminate].
  apply byteAt_nonneg in E0; apply byteAt_nonneg in E1.
  intros H; apply Ret_inj in H; subst v; destruct l; lia.
Qed.

(** Every segment moves the offset forward by at least four bytes, so the
    loop uses less fuel than there are bytes left. *)
Lemma segments_halts dv fuel offset :
  Z.max 0 (byteLength dv - offset) < Z.of_nat fuel -> halts (segments dv fuel offset).
Proof.
  revert offset; induction fuel as [| fuel IH]; intros offset Hfuel.
  - lia.
  - simpl.
    destruct (offset + 4 <? byteLength dv) eqn:Hguard; auto with exif.
    apply bind_halts; auto with exif; intros marker _.
    destruct (_ || _); auto with exif.
    apply bind_halts; auto with exif; intros size Hsize.
    destruct (size <? 2) eqn:Hs; auto with exif.
    apply Z.ltb_ge in Hs; apply Z.ltb_lt in Hguard.
    assert (Hnext : halts (segments dv fuel (offset + 2 + 2 + (size - 2)))).
    { apply IH; lia. }
    destruct (marker =? 65505); [| exact Hnext].
    apply bind_halts; [apply exifHeader_halts |]; intros hdr _.
    destruct hdr; simpl; [apply parseTiff_halts | exact Hnext].
Qed.

(** More fuel than a run needs does not change its outcome. *)
Lemma segments_more_fuel dv fuel fuel' offset :
  (fuel <= fuel')%nat -> halts (segments dv fuel offset) ->
  segments dv fuel' offset = segments dv fuel offset.
Proof.
  revert fuel' offset; induction fuel as [| fuel IH]; intros fuel' offset Hle Hhalts.
  - exfalso; apply Hhalts; reflexivity.
  - destruct fuel' as [| fuel']; [lia |].
    simpl in *.
    destruct (offset + 4 <? byteLength dv); [| reflexivity].
    destruct (getUint16 dv offset false) as [marker | e |]; cbn [bind] in *;
      try reflexivity.
    destruct (_ || _); [reflexivity |].
    destruct (getUint16 dv (offset + 2) false) as [size | e |]; cbn [bind] in *;
      try reflexivity.
    destruct (size <? 2); [reflexivity |].
    destruct (marker =? 65505); [| apply IH; [lia | exact Hhalts]].
    destruct (exifHeader dv (offset + 2 + 2)) as [hdr | e |]; cbn [bind] in *;
      try reflexivity.
    destruct (negb hdr); [apply IH; [lia | exact Hhalts] | reflexivity].
Qed.

Lemma scanEntries_sound dv l ifd0 n i v :
  0 <= i ->
  scanEntries dv l ifd0 n i = Ret v ->
  1 <= v <= 8 /\
  (v <> 1 -> exists j, i <= j < i + Z.of_nat n /\ OrientationEntry dv l (ifd0 + j * 12) v).
Proof.
  revert i; induction n as [| n IH]; intros i Hi H; simpl in H.
  - apply Ret_inj in H; subst; split; [lia | congruence].
  - destruct (_ >? _); [apply Ret_inj in H; subst; split; [lia | congruence] |].
    inv_bind H as tag Etag.
    destruct (tag =? 274) eqn:Htag.
    + apply Z.eqb_eq in Htag; subst tag.
      inv_bind H as type Etype. inv_bind H as count Ecount.
      destruct (negb (type =? 3) || negb (count =? 1)) eqn:Hshape;
        [apply Ret_inj in H; subst; split; [lia | congruence] |].
      apply orb_false_iff in Hshape; destruct Hshape as [Ht Hc].
      apply negb_false_iff, Z.eqb_eq in Ht; apply negb_false_iff, Z.eqb_eq in Hc; subst.
      inv_bind H as value Evalue.
      destruct ((1 <=? value) && (value <=? 8)) eqn:Hrange;
        [| apply Ret_inj in H; subst; split; [lia | congruence]].
      apply andb_true_iff in Hrange; destruct Hrange as [H1 H8].
      apply Z.leb_le in H1; apply Z.leb_le in H8.
      apply Ret_inj in H; subst; split; [lia |]; intros _.
      exists i; split; [lia |]; unfold OrientationEntry; repeat split; assumption || lia.
    + destruct (IH (i + 1) ltac:(lia) H) as [Hr Hfound]; split; [exact Hr |].
      intros Hv; destruct (Hfound Hv) as (j & Hj & He); exists j; split; [lia | exact He].
Qed.

Lemma parseTiff_sound dv offset v :
  parseTiff dv offset = Ret v ->
  1 <= v <= 8 /\
  (v <> 1 -> exists bom ifd0Rel entries i,
       getUint16 dv (offset + 6) false = Ret bom
       /\ getUint16 dv (offset + 8) (bom =? 0x4949) = Ret 0x002A
       /\ getUint32 dv (offset + 10) (bom =? 0x4949) = Ret ifd0Rel
       /\ getUint16 dv (offset + 6 + ifd0Rel) (bom =? 0x4949) = Ret entries
       /\ 0 <= i < entries
       /\ OrientationEntry dv (bom =? 0x4949) (offset + 6 + ifd0Rel + 2 + i * 12) v).
Proof.
  unfold parseTiff; intros H.
  inv_bind H as bom Ebom. inv_bind H as magic Emagic.
  destruct (negb (magic =? 42)) eqn:Hmagic;
    [apply Ret_inj in H; subst; split; [lia | congruence] |].
  apply negb_false_iff, Z.eqb_eq in Hmagic; subst magic.
  inv_bind H as rel Erel.
  destruct (_ >? _); [apply Ret_inj in H; subst; split; [lia | congruence] |].
  inv_bind H as entries Eentries.
  pose proof (getUint16_nonneg _ _ _ _ Eentries) as Hentries.
  destruct (scanEntries_sound _ _ _ _ 0 _ ltac:(lia) H) as [Hr Hfound].
  split; [exact Hr |]; intros Hv.
  destruct (Hfound Hv) as (j & Hj & He).
  exists bom, rel, entries, j.
  replace (offset + 8) with (offset + 6 + 2) by lia.
  replace (offset + 10) with (offset + 6 + 4) by lia.
  repeat (split; [assumption || lia |]); exact He.
Qed.

Lemma exifHeader_true dv offset :
  exifHeader dv offset = Ret true ->
  getUint32 dv offset false = Ret 0x45786966 /\ getUint16 dv (offset + 4) false = Ret 0.
Proof.
  unfold exifHeader; intros H.
  inv_bind H as h Eh.
  destruct (h =? 1165519206) eqn:Hh; [| discriminate].
  apply Z.eqb_eq in Hh; subst h.
  inv_bind H as z Ez. apply Ret_inj in H. apply Z.eqb_eq in H; subst.
  split; assumption.
Qed.

Lemma segments_sound dv fuel offset v :
  segments dv fuel offset = Ret v ->
  1 <= v <= 8 /\ (v <> 1 -> exists payload, ExifOrientation dv payload v).
Proof.
  revert offset; induction fuel as [| fuel IH]; intros offset H; simpl in H; [discriminate |].
  destruct (offset + 4 <? byteLength dv);
    [| apply Ret_inj in H; subst; split; [lia | congruence]].
  inv_bind H as marker Emarker.
  destruct (_ || _); [apply Ret_inj in H; subst; split; [lia | congruence] |].
  inv_bind H as size Esize.
  destruct (size <? 2); [apply Ret_inj in H; subst; split; [lia | congruence] |].
  destruct (marker =? 65505) eqn:Hmarker; [| exact (IH _ H)].
  apply Z.eqb_eq in Hmarker; subst marker.
  inv_bind H as hdr Ehdr.
  destruct hdr; simpl in H; [| exact (IH _ H)].
  destruct (exifHeader_true _ _ Ehdr) as [Hsig Hzero].
  destruct (parseTiff_sound _ _ _ H) as [Hr Hfound].
  split; [exact Hr |]; intros Hv.
  exists (offset + 2 + 2); unfold ExifOrientation.
  replace (offset + 2 + 2 - 4) with offset by lia.
  repeat (split; [assumption |]); apply Hfound, Hv.
Qed.

Lemma readBody_halts dv : halts (readBody dv).
Proof.
  unfold readBody.
  apply bind_halts; auto with exif; intros soi _.
  destruct (negb _); auto with exif.
  apply segments_halts; unfold byteLength; lia.
Qed.

Lemma gtb_le_false (x y : Z) : x <= y -> (x >? y) = false.
Proof. intros H; rewrite Z.gtb_ltb; apply Z.ltb_ge; exact H. Qed.

(** The scan of a directory gives the verdict on its first Orientation
    entry: the entries before it are passed over, none behind it is read. *)
Lemma scanEntries_first dv l first :
  forall n i0 i,
    0 <= i0 <= i -> i < i0 + Z.of_nat n ->
    first + i * 12 + 12 <= byteLength dv ->
    (forall j, i0 <= j < i ->
       exists tag, getUint16 dv (first + j * 12) l = Ret tag /\ tag <> 0x0112) ->
    getUint16 dv (first + i * 12) l = Ret 0x0112 ->
    scanEntries dv l first n i0 = scanEntries dv l first 1 i.
Proof.
  induction n as [| n IH]; intros i0 i Hi Hn Hbound Hbefore Htag; [lia |].
  destruct (Z.eq_dec i0 i) as [-> | Hne].
  - cbn [scanEntries].
    rewrite gtb_le_false by lia.
    rewrite Htag; cbn [bind]; rewrite Z.eqb_refl; reflexivity.
  - destruct (Hbefore i0 ltac:(lia)) as (tag & Htag0 & Hother).
    transitivity (scanEntries dv l first n (i0 + 1)).
    + cbn [scanEntries].
      rewrite gtb_le_false by nia.
      rewrite Htag0; cbn [bind].
      replace (tag =? 274) with false by (symmetry; apply Z.eqb_neq; exact Hother).
      reflexivity.
    + apply IH; try lia; try assumption.
      intros j Hj; apply Hbefore; lia.
Qed.

(** A value other than 1 comes from the first Orientation entry that the
    scan reads. *)
Lemma scanEntries_first_sound dv l first n i0 v :
  0 <= i0 ->
  scanEntries dv l first n i0 = Ret v -> v <> 1 ->
  exists i, i0 <= i < i0 + Z.of_nat n
            /\ first + i * 12 + 12 <= byteLength dv
            /\ (forall j, i0 <= j < i ->
                  exists tag, getUint16 dv (first + j * 12) l = Ret tag /\ tag <> 0x0112)
            /\ OrientationEntry dv l (first + i * 12) v.
Proof.
  revert i0; induction n as [| n IH]; intros i0 Hi0 H Hv; cbn [scanEntries] in H.
  - apply Ret_inj in H; congruence.
  - destruct (first + i0 * 12 + 12 >? byteLength dv) eqn:Hbound;
      [apply Ret_inj in H; congruence |].
    rewrite Z.gtb_ltb in Hbound; apply Z.ltb_ge in Hbound.
    inv_bind H as tag Etag.
    destruct (tag =? 274) eqn:Htag.
    + apply Z.eqb_eq in Htag; subst tag.
      inv_bind H as type Etype. inv_bind H as count Ecount.
      destruct (negb (type =? 3) || negb (count =? 1)) eqn:Hshape;
        [apply Ret_inj in H; congruence |].
      apply orb_false_iff in Hshape; destruct Hshape as [Ht Hc].
      apply negb_false_iff, Z.eqb_eq in Ht; apply negb_false_iff, Z.eqb_eq in Hc; subst.
      inv_bind H as value Evalue.
      destruct ((1 <=? value) && (value <=? 8)) eqn:Hrange;
        [| apply Ret_inj in H; congruence].
      apply andb_true_iff in Hrange; destruct Hrange as [H1 H8].
      apply Z.leb_le in H1; apply Z.leb_le in H8.
      apply Ret_inj in H; subst value.
      exists i0; split; [lia |]; split; [exact Hbound |]; split; [intros j Hj; lia |].
      unfold OrientationEntry.
      split; [exact Etag |]; split; [exact Etype |]; split; [exact Ecount |];
        split; [exact Evalue | lia].
    + apply Z.eqb_neq in Htag.
      destruct (IH (i0 + 1) ltac:(lia) H Hv) as (i & Hi & Hin & Hbefore & Hentry).
      exists i; split; [lia |]; split; [exact Hin |]; split; [| exact Hentry].
      intros j Hj; destruct (Z.eq_dec j i0) as [-> | Hne].
      * exists tag; split; assumption.
      * apply Hbefore; lia.
Qed.

Lemma parseTiff_directory dv payload little first entries :
  TiffDirectory dv payload little first entries ->
  parseTiff dv payload = scanEntries dv little first (Z.to_nat entries) 0.
Proof.
  intros (bom & rel & Hbom & -> & Hmagic & Hrel & Hin & Hentries & ->).
  unfold parseTiff.
  rewrite Hbom; cbn [bind].
  replace (payload + 6 + 2) with (payload + 8) by lia.
  rewrite Hmagic; cbn [bind]; rewrite Z.eqb_refl; cbn [negb].
  replace (payload + 6 + 4) with (payload + 10) by lia.
  rewrite Hrel; cbn [bind].
  rewrite gtb_le_false by lia.
  rewrite Hentries; reflexivity.
Qed.

(** A value other than 1 comes from a TIFF header with the magic number and
    from the first Orientation entry of its IFD0. *)
Lemma parseTiff_first_sound dv payload v :
  parseTiff dv payload = Ret v -> v <> 1 ->
  exists little first entries entry,
    TiffDirectory dv payload little first entries
    /\ FirstOrientationEntry dv little first entries entry
    /\ OrientationEntry dv little entry v.
Proof.
  unfold parseTiff; intros H Hv.
  inv_bind H as bom Ebom. inv_bind H as magic Emagic.
  destruct (negb (magic =? 42)) eqn:Hmagic; [apply Ret_inj in H; congruence |].
  apply negb_false_iff, Z.eqb_eq in Hmagic; subst magic.
  inv_bind H as rel Erel.
  destruct (payload + 6 + rel + 2 >? byteLength dv) eqn:Hin;
    [apply Ret_inj in H; congruence |].
  rewrite Z.gtb_ltb in Hin; apply Z.ltb_ge in Hin.
  inv_bind H as entries Eentries.
  pose proof (getUint16_nonneg _ _ _ _ Eentries) as Hentries.
  destruct (scanEntries_first_sound _ _ _ _ 0 _ ltac:(lia) H Hv)
    as (i & Hi & Hbound & Hbefore & Hentry).
  exists (bom =? 18761), (payload + 6 + rel + 2), entries, (payload + 6 + rel + 2 + i * 12).
  split; [| split; [| exact Hentry]].
  - exists bom, rel.
    replace (payload + 8) with (payload + 6 + 2) by lia.
    replace (payload + 10) with (payload + 6 + 4) by lia.
    split; [exact Ebom |]; split; [reflexivity |]; split; [exact Emagic |];
      split; [exact Erel |]; split; [exact Hin |]; split; [exact Eentries | reflexivity].
  - exists i; split; [lia |]; split; [reflexivity |]; split; [exact Hbound |];
      split; [exact (proj1 Hentry) | exact Hbefore].
Qed.

(** What the reader makes of the payload of its Exif segment: every anomaly
    of the TIFF header or of the first Orientation entry gives 1, and a
    well-formed first Orientation entry gives its value. *)
Lemma parseTiff_verdict dv payload v :
  try_catch (parseTiff dv payload) (fun _ => Ret 1) = Ret v ->
  (forall bom,
      getUint16 dv (payload + 6) false = Ret bom ->
      getUint16 dv (payload + 8) (bom =? 0x4949) <> Ret 0x002A -> v = 1)
  /\ (forall little first entries entry,
        TiffDirectory dv payload little first entries ->
        FirstOrientationEntry dv little first entries entry ->
        (getUint16 dv (entry + 2) little <> Ret 3 -> v = 1)
        /\ (getUint32 dv (entry + 4) little <> Ret 1 -> v = 1)
        /\ (forall x, getUint16 dv (entry + 8) little = Ret x -> ~ 1 <= x <= 8 -> v = 1)
        /\ (forall x, OrientationEntry dv little entry x -> v = x)).
Proof.
  intros Hv; split.
  - intros bom Hbom Hmagic; revert Hv; unfold parseTiff.
    rewrite Hbom; cbn [bind].
    replace (payload + 6 + 2) with (payload + 8) by lia.
    destruct (getUint16 dv (payload + 8) (bom =? 18761)) as [magic | e |] eqn:Emagic;
      cbn [bind try_catch]; intros Hv.
    + destruct (magic =? 42) eqn:Hm.
      * apply Z.eqb_eq in Hm; subst magic; congruence.
      * cbn [negb try_catch] in Hv; apply Ret_inj in Hv; congruence.
    + apply Ret_inj in Hv; congruence.
    + discriminate.
  - intros little first entries entry Hdir (i & Hi & -> & Hbound & Htag & Hbefore).
    revert Hv.
    rewrite (parseTiff_directory _ _ _ _ _ Hdir).
    rewrite (scanEntries_first dv little first (Z.to_nat entries) 0 i)
      by (try lia; assumption).
    cbn [scanEntries].
    rewrite gtb_le_false by lia.
    rewrite Htag; cbn [bind]; rewrite Z.eqb_refl.
    destruct (getUint16 dv (first + i * 12 + 2) little) as [type | e |] eqn:Etype;
      cbn [bind try_catch];
      [| intros Hv; apply Ret_inj in Hv;
         repeat split; try congruence;
         intros x (_ & Hx & _); congruence
       | discriminate].
    destruct (getUint32 dv (first + i * 12 + 4) little) as [count | e |] eqn:Ecount;
      cbn [bind try_catch];
      [| intros Hv; apply Ret_inj in Hv;
         repeat split; try congruence;
         intros x (_ & _ & Hx & _); congruence
       | discriminate].
    destruct (negb (type =? 3) || negb (count =? 1)) eqn:Hshape.
    + cbn [try_catch]; intros Hv; apply Ret_inj in Hv.
      repeat split; try congruence.
      intros x (_ & Ht & Hc & _).
      rewrite Etype in Ht; rewrite Ecount in Hc.
      apply Ret_inj in Ht; apply Ret_inj in Hc; subst type count.
      discriminate Hshape.
    + apply orb_false_iff in Hshape; destruct Hshape as [Ht Hc].
      apply negb_false_iff, Z.eqb_eq in Ht; apply negb_false_iff, Z.eqb_eq in Hc; subst.
      destruct (getUint16 dv (first + i * 12 + 8) little) as [value | e |] eqn:Evalue;
        cbn [bind try_catch];
        [| intros Hv; apply Ret_inj in Hv;
           repeat split; try congruence;
           intros x (_ & _ & _ & Hx & _); congruence
         | discriminate].
      destruct ((1 <=? value) && (value <=? 8)) eqn:Hrange; cbn [try_catch];
        intros Hv; apply Ret_inj in Hv; subst v.
      * apply andb_true_iff in Hrange; destruct Hrange as [H1 H8].
        apply Z.leb_le in H1; apply Z.leb_le in H8.
        split; [congruence |]; split; [congruence |]; split.
        -- intros x Hx Hout; apply Ret_inj in Hx; subst x; lia.
        -- intros x (_ & _ & _ & Hx & _); rewrite Evalue in Hx; apply Ret_inj in Hx;
             exact Hx.
      * split; [reflexivity |]; split; [reflexivity |]; split; [reflexivity |].
        intros x (_ & _ & _ & Hx & Hr); rewrite Evalue in Hx; apply Ret_inj in Hx; subst x.
        apply andb_false_iff in Hrange.
        destruct Hrange as [Hr' | Hr']; [apply Z.leb_gt in Hr' | apply Z.leb_gt in Hr']; lia.
Qed.

(** The loop steps over the segments before the Exif segment and hands the
    payload of that one to the TIFF parser. *)
Lemma segments_walk dv offset p :
  WalksTo dv offset p -> ExifApp1 dv p ->
  forall fuel, Z.max 0 (byteLength dv - offset) < Z.of_nat fuel ->
               segments dv fuel offset = parseTiff dv (p + 4).
Proof.
  intros Hwalk (Hguard & Hmarker & (size & Hsize & Hsize2) & Hsig & Hzero).
  induction Hwalk as [p | offset next p Hskip Hwalk IH]; intros fuel Hfuel.
  - destruct fuel as [| fuel]; [lia |].
    cbn [segments].
    replace (p + 4 <? byteLength dv) with true by (symmetry; apply Z.ltb_lt; exact Hguard).
    rewrite Hmarker; cbn [bind].
    change (65505 =? 65497) with false; change (65505 =? 65498) with false; cbn [orb].
    rewrite Hsize; cbn [bind].
    replace (size <? 2) with false by (symmetry; apply Z.ltb_ge; exact Hsize2).
    rewrite Z.eqb_refl.
    replace (p + 2 + 2) with (p + 4) by lia.
    unfold exifHeader; rewrite Hsig; cbn [bind]; rewrite Z.eqb_refl.
    replace (p + 4 + 4) with (p + 8) by lia.
    rewrite Hzero; cbn [bind]; rewrite Z.eqb_refl; reflexivity.
  - destruct Hskip as (Hin & marker & sz & Hm & Heoi & Hsos & Hsz & Hsz2 & Hhdr & ->).
    destruct fuel as [| fuel]; [lia |].
    cbn [segments].
    replace (offset + 4 <? byteLength dv) with true by (symmetry; apply Z.ltb_lt; exact Hin).
    rewrite Hm; cbn [bind].
    replace (marker =? 65497) with false by (symmetry; apply Z.eqb_neq; exact Heoi).
    replace (marker =? 65498) with false by (symmetry; apply Z.eqb_neq; exact Hsos).
    cbn [orb].
    rewrite Hsz; cbn [bind].
    replace (sz <? 2) with false by (symmetry; apply Z.ltb_ge; exact Hsz2).
    replace (offset + 2 + 2) with (offset + 4) by lia.
    assert (Hnext : segments dv fuel (offset + 4 + (sz - 2)) = parseTiff dv (p + 4)).
    { apply IH; try assumption; lia. }
    destruct (marker =? 65505) eqn:Happ1; [| exact Hnext].
    apply Z.eqb_eq in Happ1; rewrite (Hhdr Happ1); cbn [bind negb]; exact Hnext.
Qed.

(** A value other than 1 comes from the payload of the Exif segment at the
    end of the walk. *)
Lemma segments_walk_sound dv fuel offset v :
  segments dv fuel offset = Ret v -> v <> 1 ->
  exists p, WalksTo dv offset p /\ ExifApp1 dv p /\ parseTiff dv (p + 4) = Ret v.
Proof.
  revert offset; induction fuel as [| fuel IH]; intros offset H Hv;
    cbn [segments] in H; [discriminate |].
  destruct (offset + 4 <? byteLength dv) eqn:Hguard; [| apply Ret_inj in H; congruence].
  apply Z.ltb_lt in Hguard.
  inv_bind H as marker Emarker.
  destruct ((marker =? 65497) || (marker =? 65498)) eqn:Hend;
    [apply Ret_inj in H; congruence |].
  apply orb_false_iff in Hend; destruct Hend as [Heoi Hsos].
  apply Z.eqb_neq in Heoi; apply Z.eqb_neq in Hsos.
  inv_bind H as size Esize.
  destruct (size <? 2) eqn:Hsize; [apply Ret_inj in H; congruence |].
  apply Z.ltb_ge in Hsize.
  replace (offset + 2 + 2) with (offset + 4) in H by lia.
  assert (Hskip : (marker = 65505 -> exifHeader dv (offset + 4) = Ret false) ->
                  segments dv fuel (offset + 4 + (size - 2)) = Ret v ->
                  exists p, WalksTo dv offset p /\ ExifApp1 dv p
                            /\ parseTiff dv (p + 4) = Ret v).
  { intros Hhdr Hrest.
    destruct (IH _ Hrest Hv) as (p & Hwalk & Happ1 & Hparse).
    exists p; split; [| split; assumption].
    apply (WalksTo_skip dv offset (offset + 4 + (size - 2)) p); [| exact Hwalk].
    split; [exact Hguard |].
    exists marker, size.
    split; [exact Emarker |]; split; [exact Heoi |]; split; [exact Hsos |];
      split; [exact Esize |]; split; [exact Hsize |]; split; [exact Hhdr | reflexivity]. }
  destruct (marker =? 65505) eqn:Hmarker.
  - apply Z.eqb_eq in Hmarker; subst marker.
    inv_bind H as hdr Ehdr.
    destruct hdr; cbn [negb] in H.
    + destruct (exifHeader_true _ _ Ehdr) as [Hsig Hzero].
      exists offset; split; [apply WalksTo_here |]; split; [| exact H].
      split; [exact Hguard |]; split; [exact Emarker |];
        split; [exists size; split; assumption |].
      replace (offset + 8) with (offset + 4 + 4) by lia.
      split; assumption.
    + apply Hskip; [intros _; exact Ehdr | exact H].
  - apply Z.eqb_neq in Hmarker.
    apply Hskip; [intros Heq; contradiction | exact H].
Qed.

(** C2: on every byte stream the reader returns, without raising, an
    orientation between 1 and 8, and every anomaly it meets yields 1: a
    stream without the SOI marker; a walk over the marker segments that
    meets no APP1 segment with the Exif signature; in the Exif segment the
    walk meets, a TIFF header without the magic number in its byte order;
    in the first Orientation entry of its IFD0, a type other than short, a
    count other than 1 or a value outside 1..8.  A value other than 1 is
    returned exactly for the well-formed first Orientation entry of the
    Exif segment the walk meets, and is the value of that entry. *)
Theorem readJpegExifOrientation_total (dv : DataView.t) :
  exists v,
    readJpegExifOrientation dv = Ret v
    /\ 1 <= v <= 8
    /\ (getUint16 dv 0 false <> Ret 0xFFD8 -> v = 1)
    /\ ((forall p, ~ ExifSegmentAt dv p) -> v = 1)
    /\ (forall p,
          getUint16 dv 0 false = Ret 0xFFD8 -> ExifSegmentAt dv p ->
          (forall bom,
              getUint16 dv (p + 10) false = Ret bom ->
              getUint16 dv (p + 12) (bom =? 0x4949) <> Ret 0x002A -> v = 1)
          /\ (forall little first entries entry,
                TiffDirectory dv (p + 4) little first entries ->
                FirstOrientationEntry dv little first entries entry ->
                (getUint16 dv (entry + 2) little <> Ret 3 -> v = 1)
                /\ (getUint32 dv (entry + 4) little <> Ret 1 -> v = 1)
                /\ (forall x, getUint16 dv (entry + 8) little = Ret x ->
                              ~ 1 <= x <= 8 -> v = 1)
                /\ (forall x, OrientationEntry dv little entry x -> v = x)))
    /\ (v <> 1 ->
        getUint16 dv 0 false = Ret 0xFFD8
        /\ exists p little first entries entry,
             ExifSegmentAt dv p
             /\ TiffDirectory dv (p + 4) little first entries
             /\ FirstOrientationEntry dv little first entries entry
             /\ OrientationEntry dv little entry v).
Proof.
  assert (Hsome : exists v, readJpegExifOrientation dv = Ret v /\ 1 <= v <= 8).
  { unfold readJpegExifOrientation.
    pose proof (readBody_halts dv) as Hhalts.
    destruct (readBody dv) as [v | e |] eqn:Hbody; cbn [try_catch].
    - exists v; split; [reflexivity |].
      unfold readBody in Hbody.
      inv_bind Hbody as soi Esoi.
      destruct (negb (soi =? 65496)); [apply Ret_inj in Hbody; subst; lia |].
      exact (proj1 (segments_sound _ _ _ _ Hbody)).
    - exists 1; split; [reflexivity | lia].
    - exfalso; apply Hhalts; reflexivity. }
  destruct Hsome as (v & Hv & Hrange).
  assert (Htight : v <> 1 ->
            getUint16 dv 0 false = Ret 0xFFD8
            /\ exists p, ExifSegmentAt dv p /\ parseTiff dv (p + 4) = Ret v).
  { intros Hne; revert Hv; unfold readJpegExifOrientation, readBody.
    destruct (getUint16 dv 0 false) as [soi | e |] eqn:Esoi; cbn [bind try_catch];
      [| intros H; apply Ret_inj in H; congruence | discriminate].
    destruct (soi =? 65496) eqn:Hsoi; cbn [negb try_catch];
      [| intros H; apply Ret_inj in H; congruence].
    apply Z.eqb_eq in Hsoi; subst soi.
    destruct (segments dv (S (Datatypes.length dv)) 2) as [w | e |] eqn:Hseg;
      cbn [try_catch]; intros H; [| apply Ret_inj in H; congruence | discriminate].
    apply Ret_inj in H; subst w.
    destruct (segments_walk_sound _ _ _ _ Hseg Hne) as (p & Hwalk & Happ1 & Hparse).
    split; [reflexivity |]; exists p; split; [split; assumption | exact Hparse]. }
  exists v; split; [exact Hv |]; split; [exact Hrange |].
  split; [| split; [| split]].
  - intros Hsoi; destruct (Z.eq_dec v 1) as [-> | Hne]; [reflexivity |].
    destruct (Htight Hne) as [Hyes _]; contradiction.
  - intros Hnone; destruct (Z.eq_dec v 1) as [-> | Hne]; [reflexivity |].
    destruct (Htight Hne) as (_ & p & Hp & _); destruct (Hnone p Hp).
  - intros p Hsoi (Hwalk & Happ1).
    assert (Hread : try_catch (parseTiff dv (p + 4)) (fun _ => Ret 1) = Ret v).
    { rewrite <- Hv; unfold readJpegExifOrientation, readBody.
      rewrite Hsoi; cbn [bind]; rewrite Z.eqb_refl; cbn [negb].
      rewrite (segments_walk _ _ _ Hwalk Happ1); [reflexivity |].
      unfold byteLength; lia. }
    destruct (parseTiff_verdict _ _ _ Hread) as [Hmagic Hentry].
    split; [| exact Hentry].
    intros bom Hbom Hbad; apply (Hmagic bom).
    + replace (p + 4 + 6) with (p + 10) by lia; exact Hbom.
    + replace (p + 4 + 8) with (p + 12) by lia; exact Hbad.
  - intros Hne; destruct (Htight Hne) as (Hsoi & p & Hp & Hparse).
    split; [exact Hsoi |].
    destruct (parseTiff_first_sound _ _ _ Hparse Hne)
      as (little & first & entries & entry & Hdir & Hfirst & Hentry).
    exists p, little, first, entries, entry.
    split; [exact Hp |]; split; [exact Hdir |]; split; assumption.
Qed.

(** A stream whose IFD0 has an Orientation entry typed long in front of a
    well-formed one: the first entry decides, and the reader returns 1. *)
Lemma readJpegExifOrientation_total_witness :
  readJpegExifOrientation jpegLongThenShort = Ret 1.
Proof.
  destruct (readJpegExifOrientation_total jpegLongThenShort)
    as (v & Hv & _ & _ & _ & Hmet & _).
  rewrite Hv; f_equal.
  assert (Hsoi : getUint16 jpegLongThenShort 0 false = Ret 0xFFD8)
    by (vm_compute; reflexivity).
  assert (Hseg : ExifSegmentAt jpegLongThenShort 2).
  { split; [apply WalksTo_here |].
    split; [vm_compute; reflexivity |]; split; [vm_compute; reflexivity |];
      split; [exists 46; split; [vm_compute; reflexivity | lia] |];
      split; vm_compute; reflexivity. }
  destruct (Hmet 2 Hsoi Hseg) as (_ & Hentry).
  destruct (Hentry true 22 2 22) as (Htype & _).
  - exists 0x4949, 8.
    split; [vm_compute; reflexivity |]; split; [reflexivity |];
      split; [vm_compute; reflexivity |]; split; [vm_compute; reflexivity |];
      split; [vm_compute; discriminate |]; split; [vm_compute; reflexivity | reflexivity].
  - exists 0; split; [lia |]; split; [reflexivity |]; split; [vm_compute; discriminate |];
      split; [vm_compute; reflexivity | intros j Hj; lia].
  - apply Htype; vm_compute; discriminate.
Defined.

Example readJpegExifOrientation_big_endian :
  readJpegExifOrientation jpegBigEndian6 = Ret 6.
Proof. vm_compute; reflexivity. Qed.

Example readJpegExifOrientation_skips_foreign_app1 :
  readJpegExifOrientation jpegTwoApp1 = Ret 8.
Proof. vm_compute; reflexivity. Qed.

Example readJpegExifOrientation_wrong_type :
  readJpegExifOrientation jpegWrongType = Ret 1.
Proof. vm_compute; reflexivity. Qed.

Example readJpegExifOrientation_png :
  readJpegExifOrientation pngSignature = Ret 1.
Proof. vm_compute; reflexivity. Qed.

Example readJpegExifOrientation_empty :
  readJpegExifOrientation [] = Ret 1.
Proof. vm_compute; reflexivity. Qed.

End ExifFacts.

(** ** The compositor *)

Module CanvasFacts.

(** Splits an integer into the cases that start the [switch] of
    [drawBitmapWithOrientation] and closes those it can by computation. *)
Ltac by_orientation o :=
  destruct o as [| o | o]; try reflexivity;
  repeat (destruct o as [o | o |]; try reflexivity).



(** The drawing state that [save] recorded is back after the call. *)
Lemma drawBitmapWithOrientation_restores ctx bitmap o outW outH :
  ctx_matrix (drawBitmapWithOrientation ctx bitmap o outW outH) = ctx_matrix ctx
  /\ ctx_fillStyle (drawBitmapWithOrientation ctx bitmap o outW outH) = ctx_fillStyle ctx.
Proof. split; by_orientation o. Qed.


(** The white background is the first thing painted, over the whole canvas. *)
Lemma composite_background bitmap o outW outH :
  hd_error (cv_ops (composite bitmap o outW outH))
  = Some (FillRect "#ffffff" identity 0 0 outW outH).
Proof. by_orientation o. Qed.

Lemma orientedSize_swapped w h o : 5 <= o <= 8 -> orientedSize w h o = (h, w).
Proof.
  intros Ho; unfold orientedSize.
  destruct (5 <=? o) eqn:H5; destruct (o <=? 8) eqn:H8; try reflexivity; lia.
Qed.

Lemma orientedSize_kept w h o : ~ 5 <= o <= 8 -> orientedSize w h o = (w, h).
Proof.
  intros Ho; unfold orientedSize.
  destruct (5 <=? o) eqn:H5; destruct (o <=? 8) eqn:H8; try reflexivity; lia.
Qed.

(** X4: for the tags other than 5 the bitmap is drawn onto exactly the
    rectangle of the canvas, corner to corner. *)
Lemma composite_fills_canvas bitmap o outW outH :
  1 <= o <= 8 -> o <> 5 ->
  exists p q, drawnCorners (composite bitmap o outW outH) = [(p, q)]
              /\ (fst p = 0 /\ fst q = outW \/ fst p = outW /\ fst q = 0)
              /\ (snd p = 0 /\ snd q = outH \/ snd p = outH /\ snd q = 0).
Proof.
  intros Ho H5.
  assert (Hcases : o = 1 \/ o = 2 \/ o = 3 \/ o = 4 \/ o = 6 \/ o = 7 \/ o = 8) by lia.
  destruct Hcases as [-> | [-> | [-> | [-> | [-> | [-> | ->]]]]]];
    eexists; eexists; (split; [reflexivity |]);
    cbv - [Z.mul Z.add Z.opp Z.sub]; split; lia.
Qed.

(** X5: for tag 5 the transformation of lines 162-164 puts the bitmap on the
    rectangle from [(0, -outH)] to [(outW, 0)], above the canvas. *)
Lemma composite_tag5_placement bitmap outW outH :
  drawnCorners (composite bitmap 5 outW outH) = [((0, - outH), (outW, 0))].
Proof.
  cbv - [Z.mul Z.add Z.opp Z.sub].
  repeat f_equal; lia.
Qed.



End CanvasFacts.

(** ** The size-constrained encoder *)

Module EncoderFacts.

Lemma Qltb_lt (x y : Q) : Qltb x y = true <-> (x < y)%Q.
Proof.
  unfold Qltb; rewrite negb_true_iff; split.
  - intros H; apply Qnot_le_lt; intros Hle.
    apply Qle_bool_iff in Hle; congruence.
  - intros H; destruct (Qle_bool y x) eqn:E; [| reflexivity].
    apply Qle_bool_iff in E; exfalso; exact (Qlt_not_le _ _ H E).
Qed.

Lemma Qltb_ge (x y : Q) : Qltb x y = false <-> (y <= x)%Q.
Proof.
  unfold Qltb; rewrite negb_false_iff; apply Qle_bool_iff.
Qed.

Lemma lt_Qceiling (z : Z) (q : Q) : (inject_Z z < q)%Q -> z < Qceiling q.
Proof.
  intros H; rewrite Zlt_Qlt.
  eapply Qlt_le_trans; [exact H | apply Qle_ceiling].
Qed.

Lemma Qceiling_inject_Z (z : Z) (q : Q) : (q == inject_Z z)%Q -> Qceiling q = z.
Proof.
  intros H; rewrite H; unfold Qceiling; rewrite <- inject_Z_opp, Qfloor_Z; lia.
Qed.

(** *** Lists of attempts *)

Lemma Sorted_app_cross {A : Type} (rel : A -> A -> Prop) (l1 l2 : list A) :
  Sorted rel l1 -> Sorted rel l2 ->
  (forall a b, In a l1 -> In b l2 -> rel a b) ->
  Sorted rel (l1 ++ l2).
Proof.
  intros H1 H2 Hcross; induction l1 as [| a l1 IH]; [exact H2 |].
  inversion H1 as [| ? ? Hs Hh]; subst; cbn.
  constructor; [apply IH; [exact Hs | intros; apply Hcross; [right |]; assumption] |].
  destruct l1 as [| a' l1']; cbn.
  - destruct l2 as [| b l2']; constructor.
    apply Hcross; left; reflexivity.
  - inversion Hh; subst; constructor; assumption.
Qed.

Lemma StronglySorted_app_cross {A : Type} (rel : A -> A -> Prop) (l1 l2 : list A) :
  StronglySorted rel l1 -> StronglySorted rel l2 ->
  (forall a b, In a l1 -> In b l2 -> rel a b) ->
  StronglySorted rel (l1 ++ l2).
Proof.
  intros H1 H2 Hcross; induction l1 as [| a l1 IH]; [exact H2 |].
  inversion H1 as [| ? ? Hs Hall]; subst; cbn.
  constructor; [apply IH; [exact Hs | intros; apply Hcross; [right |]; assumption] |].
  apply Forall_app; split; [exact Hall |].
  apply Forall_forall; intros b Hb; apply Hcross; [left; reflexivity | exact Hb].
Qed.

Lemma StronglySorted_all {A : Type} (rel : A -> A -> Prop) (l : list A) :
  (forall a b, In a l -> In b l -> rel a b) -> StronglySorted rel l.
Proof.
  induction l as [| a l IH]; intros Hall; constructor.
  - apply IH; intros; apply Hall; right; assumption.
  - apply Forall_forall; intros b Hb; apply Hall; [left; reflexivity | right; exact Hb].
Qed.


Section Loops.

Variable pf : Platform.
Variable R : Runtime.
Variable bitmap : ImageBitmap.
Variable orientation : Z.
Variable target : Q.
Variable oSize : Z * Z.

Section Quality.

Variable canvas : OffscreenCanvas.
Variables outW outH : Z.
Variable scale : Q.
Variable pass : Z.

(** Induction over the iterations of the quality loop: the exit of the
    guard, the accepted encode, the break at the floor, and the step to the
    next quality. *)
Lemma qualityLoop_cases
  (P : Q -> Z -> option Rendition * list Attempt -> Prop) :
  (forall q iter,
      (maxQualityIters R <= inject_Z iter)%Q -> P q iter (None, [])) ->
  (forall q iter,
      (inject_Z iter < maxQualityIters R)%Q ->
      (inject_Z (blob_size (convertToBlob pf canvas q)) <= target)%Q ->
      P q iter
        (Some (mkRendition (convertToBlob pf canvas q) outW outH q scale
                 (inject_Z pass) (inject_Z iter) None),
         [attemptOf pf canvas outW outH scale pass q iter])) ->
  (forall q iter,
      (inject_Z iter < maxQualityIters R)%Q ->
      (target < inject_Z (blob_size (convertToBlob pf canvas q)))%Q ->
      (nextQuality R q == q)%Q ->
      P q iter (None, [attemptOf pf canvas outW outH scale pass q iter])) ->
  (forall q iter r,
      (inject_Z iter < maxQualityIters R)%Q ->
      (target < inject_Z (blob_size (convertToBlob pf canvas q)))%Q ->
      ~ (nextQuality R q == q)%Q ->
      P (nextQuality R q) (iter + 1) r ->
      P q iter (fst r, attemptOf pf canvas outW outH scale pass q iter :: snd r)) ->
  forall fuel q iter r,
    qualityLoop pf R target fuel canvas outW outH scale pass q iter = Ret r ->
    P q iter r.
Proof.
  intros Hexit Haccept Hfloor Hstep.
  induction fuel as [| fuel IH]; intros q iter r H; simpl in H; [discriminate |].
  destruct (Qltb (inject_Z iter) (maxQualityIters R)) eqn:Hguard.
  - apply Qltb_lt in Hguard.
    destruct (Qle_bool _ target) eqn:Hfit.
    + apply Qle_bool_iff in Hfit; apply Ret_inj in H; subst r.
      apply Haccept; assumption.
    + assert (Hover : (target < inject_Z (blob_size (convertToBlob pf canvas q)))%Q).
      { apply Qnot_le_lt; intros Hle; apply Qle_bool_iff in Hle; congruence. }
      destruct (Qeq_bool _ q) eqn:Hsame.
      * apply Qeq_bool_iff in Hsame; apply Ret_inj in H; subst r.
        apply Hfloor; assumption.
      * inv_bind H as r' Er'. apply Ret_inj in H; subst r.
        apply Hstep; try assumption.
        -- intros Heq; apply Qeq_bool_iff in Heq; unfold nextQuality in Heq; congruence.
        -- apply (IH _ _ _ Er').
  - apply Qltb_ge in Hguard; apply Ret_inj in H; subst r.
    apply Hexit; assumption.
Qed.

Lemma qualityLoop_returns fuel q iter :
  Z.max 0 (Qceiling (maxQualityIters R) - iter) < Z.of_nat fuel ->
  exists r, qualityLoop pf R target fuel canvas outW outH scale pass q iter = Ret r.
Proof.
  revert q iter; induction fuel as [| fuel IH]; intros q iter Hfuel; [lia |].
  simpl.
  destruct (Qltb (inject_Z iter) (maxQualityIters R)) eqn:Hguard; [| eexists; reflexivity].
  apply Qltb_lt, lt_Qceiling in Hguard.
  destruct (Qle_bool _ target); [eexists; reflexivity |].
  destruct (Qeq_bool _ q); [eexists; reflexivity |].
  destruct (IH (Qmax (jpegMinQuality R) (q - jpegQualityStep R)) (iter + 1) ltac:(lia))
    as [r Hr].
  rewrite Hr; eexists; reflexivity.
Qed.

(** More fuel than a run needs does not change its outcome. *)
Lemma qualityLoop_more_fuel fuel fuel' q iter r :
  (fuel <= fuel')%nat ->
  qualityLoop pf R target fuel canvas outW outH scale pass q iter = Ret r ->
  qualityLoop pf R target fuel' canvas outW outH scale pass q iter = Ret r.
Proof.
  revert fuel' q iter r; induction fuel as [| fuel IH]; intros fuel' q iter r Hle H;
    [discriminate |].
  destruct fuel' as [| fuel']; [lia |].
  simpl in *.
  destruct (Qltb (inject_Z iter) (maxQualityIters R)); [| exact H].
  destruct (Qle_bool _ target); [exact H |].
  destruct (Qeq_bool _ q); [exact H |].
  inv_bind H as r' Er'.
  rewrite (IH fuel' _ _ _ ltac:(lia) Er'); exact H.
Qed.

(** The loop encodes at most as often as the counter can still be
    incremented below [maxQualityIters]. *)
Lemma qualityLoop_length fuel q iter r :
  qualityLoop pf R target fuel canvas outW outH scale pass q iter = Ret r ->
  Z.of_nat (List.length (snd r)) <= Z.max 0 (Qceiling (maxQualityIters R) - iter).
Proof.
  revert fuel q iter r.
  apply (qualityLoop_cases
           (fun _ iter r => Z.of_nat (List.length (snd r))
                            <= Z.max 0 (Qceiling (maxQualityIters R) - iter)));
    intros; cbn [snd List.length] in *;
    try match goal with H : (inject_Z _ < _)%Q |- _ => apply lt_Qceiling in H end; lia.
Qed.

Lemma qualityLoop_accepted fuel q iter best log :
  qualityLoop pf R target fuel canvas outW outH scale pass q iter = Ret (Some best, log) ->
  Accepted pf target canvas outW outH scale best.
Proof.
  intros H.
  refine (qualityLoop_cases
            (fun _ _ r => forall b, fst r = Some b ->
                                    Accepted pf target canvas outW outH scale b)
            _ _ _ _ fuel q iter _ H best eq_refl); cbn [fst]; intros.
  - discriminate.
  - match goal with E : Some _ = Some _ |- _ => injection E as <- end.
    unfold Accepted; cbn; repeat split; assumption || reflexivity.
  - discriminate.
  - auto.
Qed.

(** Every attempt of the loop is made on the canvas of the pass. *)
Lemma qualityLoop_fields fuel q iter r :
  qualityLoop pf R target fuel canvas outW outH scale pass q iter = Ret r ->
  forall a, In a (snd r) ->
    at_pass a = pass /\ at_scale a = scale /\ at_width a = outW /\ at_height a = outH
    /\ at_final a = false /\ iter <= at_iter a.
Proof.
  revert fuel q iter r.
  apply (qualityLoop_cases
           (fun _ iter r => forall a, In a (snd r) ->
              at_pass a = pass /\ at_scale a = scale /\ at_width a = outW
              /\ at_height a = outH /\ at_final a = false /\ iter <= at_iter a));
    cbn [snd]; intros.
  - contradiction.
  - destruct H1 as [<- | []]; cbn; repeat split; lia.
  - destruct H2 as [<- | []]; cbn; repeat split; lia.
  - destruct H3 as [<- | Hin]; [cbn; repeat split; lia |].
    destruct (H2 _ Hin) as (? & ? & ? & ? & ? & ?); repeat split; assumption || lia.
Qed.

(** An attempt is either the first of the loop, at the quality the loop was
    entered with, or at a quality that line 292 floored at
    [jpegMinQuality]. *)
Lemma qualityLoop_floor fuel q iter r :
  qualityLoop pf R target fuel canvas outW outH scale pass q iter = Ret r ->
  forall a, In a (snd r) ->
    (at_quality a = q /\ at_iter a = iter) \/ (jpegMinQuality R <= at_quality a)%Q.
Proof.
  revert fuel q iter r.
  apply (qualityLoop_cases
           (fun q iter r => forall a, In a (snd r) ->
              (at_quality a = q /\ at_iter a = iter)
              \/ (jpegMinQuality R <= at_quality a)%Q));
    cbn [snd]; intros.
  - contradiction.
  - destruct H1 as [<- | []]; left; split; reflexivity.
  - destruct H2 as [<- | []]; left; split; reflexivity.
  - destruct H3 as [<- | Hin]; [left; split; reflexivity |].
    right; destruct (H2 _ Hin) as [[-> _] | Hmin]; [| exact Hmin].
    unfold nextQuality; apply Q.le_max_l.
Qed.

(** Consecutive attempts of the loop are one quality step apart. *)
Lemma qualityLoop_steps fuel q iter r :
  qualityLoop pf R target fuel canvas outW outH scale pass q iter = Ret r ->
  Sorted (QualityStep R target) (snd r)
  /\ (forall b rest, snd r = b :: rest -> at_quality b = q /\ at_iter b = iter).
Proof.
  revert fuel q iter r.
  apply (qualityLoop_cases
           (fun q iter r =>
              Sorted (QualityStep R target) (snd r)
              /\ (forall b rest, snd r = b :: rest ->
                                 at_quality b = q /\ at_iter b = iter)));
    cbn [snd]; intros.
  - split; [constructor | discriminate].
  - split; [repeat constructor | intros b rest [= <- _]; split; reflexivity].
  - split; [repeat constructor | intros b rest [= <- _]; split; reflexivity].
  - destruct H2 as [Hsorted Hhead]; split;
      [| intros b rest [= <- _]; split; reflexivity].
    constructor; [exact Hsorted |].
    destruct (snd r) as [| b rest] eqn:Hlog; constructor.
    destruct (Hhead b rest eq_refl) as [Hq Hi].
    intros _; cbn; rewrite Hq, Hi; repeat split; assumption || reflexivity.
Qed.

(** Line 293: when the next quality equals the current one the loop ends
    with the encode just made. *)
Lemma qualityLoop_break fuel q iter :
  (inject_Z iter < maxQualityIters R)%Q ->
  (target < inject_Z (blob_size (convertToBlob pf canvas q)))%Q ->
  (nextQuality R q == q)%Q ->
  qualityLoop pf R target (S fuel) canvas outW outH scale pass q iter
  = Ret (None, [attemptOf pf canvas outW outH scale pass q iter]).
Proof.
  intros Hguard Hover Hsame; simpl.
  apply Qltb_lt in Hguard; rewrite Hguard.
  destruct (Qle_bool _ target) eqn:Hfit.
  - apply Qle_bool_iff in Hfit; exfalso; exact (Qlt_not_le _ _ Hover Hfit).
  - apply Qeq_bool_iff in Hsame; unfold nextQuality in Hsame; rewrite Hsame; reflexivity.
Qed.

(** The size an attempt records is the size of the encode of the canvas at
    the quality of the attempt. *)
Lemma qualityLoop_sizes fuel q iter r :
  qualityLoop pf R target fuel canvas outW outH scale pass q iter = Ret r ->
  forall a, In a (snd r) ->
    at_size a = blob_size (convertToBlob pf canvas (at_quality a)).
Proof.
  revert fuel q iter r.
  apply (qualityLoop_cases
           (fun _ _ r => forall a, In a (snd r) ->
              at_size a = blob_size (convertToBlob pf canvas (at_quality a))));
    cbn [snd]; intros.
  - contradiction.
  - destruct H1 as [<- | []]; reflexivity.
  - destruct H2 as [<- | []]; reflexivity.
  - destruct H3 as [<- | Hin]; [reflexivity | auto].
Qed.

(** A loop entered below [maxQualityIters] encodes, first at the quality
    and the iteration index it was entered with. *)
Lemma qualityLoop_begins fuel q iter r :
  qualityLoop pf R target fuel canvas outW outH scale pass q iter = Ret r ->
  (inject_Z iter < maxQualityIters R)%Q ->
  exists a rest, snd r = a :: rest
                 /\ at_pass a = pass /\ at_iter a = iter /\ at_quality a = q
                 /\ at_final a = false.
Proof.
  revert fuel q iter r.
  apply (qualityLoop_cases
           (fun q iter r =>
              (inject_Z iter < maxQualityIters R)%Q ->
              exists a rest, snd r = a :: rest
                             /\ at_pass a = pass /\ at_iter a = iter /\ at_quality a = q
                             /\ at_final a = false));
    cbn [snd]; intros.
  - exfalso; exact (Qlt_not_le _ _ H0 H).
  - eexists; eexists; split; [reflexivity |]; cbn; repeat split.
  - eexists; eexists; split; [reflexivity |]; cbn; repeat split.
  - eexists; eexists; split; [reflexivity |]; cbn; repeat split.
Qed.

(** The encodes of a loop were over the target, but for the last one of a
    loop that accepts, which is the rendition it returns. *)
Lemma qualityLoop_over_until_fit fuel q iter r :
  qualityLoop pf R target fuel canvas outW outH scale pass q iter = Ret r ->
  match fst r with
  | Some best =>
      exists before last,
        snd r = before ++ [last] /\ Forall (Over target) before /\ Carries best last
  | None => Forall (Over target) (snd r)
  end.
Proof.
  revert fuel q iter r.
  apply (qualityLoop_cases
           (fun _ _ r =>
              match fst r with
              | Some best =>
                  exists before last,
                    snd r = before ++ [last] /\ Forall (Over target) before
                    /\ Carries best last
              | None => Forall (Over target) (snd r)
              end)); cbn [fst snd].
  - intros; constructor.
  - intros q iter _ _; exists [], (attemptOf pf canvas outW outH scale pass q iter).
    split; [reflexivity |]; split; [constructor |].
    unfold Carries; cbn; repeat split.
  - intros q iter _ Hover _; repeat constructor; exact Hover.
  - intros q iter r _ Hover _ IH.
    destruct (fst r) as [best |].
    + destruct IH as (before & last & Hlog & Hbefore & Hlast).
      exists (attemptOf pf canvas outW outH scale pass q iter :: before), last.
      rewrite Hlog; split; [reflexivity |]; split; [| exact Hlast].
      constructor; [exact Hover | exact Hbefore].
    + constructor; [exact Hover | exact IH].
Qed.

(** A loop that accepts nothing ends at the floor of the quality or at the
    bound of the iterations. *)
Lemma qualityLoop_through fuel q iter r :
  qualityLoop pf R target fuel canvas outW outH scale pass q iter = Ret r ->
  (snd r = [] -> (maxQualityIters R <= inject_Z iter)%Q)
  /\ (fst r = None -> forall before a, snd r = before ++ [a] ->
        (nextQuality R (at_quality a) == at_quality a)%Q
        \/ (maxQualityIters R <= inject_Z (at_iter a + 1))%Q).
Proof.
  revert fuel q iter r.
  apply (qualityLoop_cases
           (fun _ iter r =>
              (snd r = [] -> (maxQualityIters R <= inject_Z iter)%Q)
              /\ (fst r = None -> forall before a, snd r = before ++ [a] ->
                    (nextQuality R (at_quality a) == at_quality a)%Q
                    \/ (maxQualityIters R <= inject_Z (at_iter a + 1))%Q)));
    cbn [fst snd].
  - intros q iter Hexit; split; [intros _; exact Hexit |].
    intros _ before a Hlog; destruct before; discriminate.
  - intros q iter _ _; split; discriminate.
  - intros q iter _ _ Hsame; split; [discriminate |].
    intros _ before a Hlog.
    destruct before as [| x before]; [| destruct before; discriminate].
    injection Hlog as <-; left; exact Hsame.
  - intros q iter r _ _ _ [Hempty Hlast]; split; [discriminate |].
    intros Hnone before a Hlog.
    destruct before as [| x before]; cbn in Hlog.
    + injection Hlog as <- Hnil; right; cbn [at_iter attemptOf]; exact (Hempty Hnil).
    + injection Hlog as _ Hrest; exact (Hlast Hnone _ _ Hrest).
Qed.

End Quality.

Local Abbreviation onePass s pass :=
  (qualityLoop pf R target (fuelFor (maxQualityIters R))
     (composite bitmap orientation (outDim (fst oSize) s) (outDim (snd oSize) s))
     (outDim (fst oSize) s) (outDim (snd oSize) s) s pass (jpegQualityStart R) 0).

(** Induction over the passes of the resize loop: the final render after the
    guard fails, the pass whose quality loop accepts, and the pass that
    shrinks the scale and goes on. *)
Lemma passLoop_cases (P : Q -> Z -> Rendition * list Attempt -> Prop) :
  (forall s pass,
      (maxResizePasses R <= inject_Z pass)%Q ->
      P s pass (finalRender pf R bitmap orientation target oSize s pass)) ->
  (forall s pass best log,
      (inject_Z pass < maxResizePasses R)%Q ->
      onePass s pass = Ret (Some best, log) ->
      P s pass (best, log)) ->
  (forall s pass log r,
      (inject_Z pass < maxResizePasses R)%Q ->
      onePass s pass = Ret (None, log) ->
      P (s * resizeDownFactor R)%Q (pass + 1) r ->
      P s pass (fst r, log ++ snd r)) ->
  forall fuel s pass r,
    passLoop pf R bitmap orientation target oSize fuel s pass = Ret r -> P s pass r.
Proof.
  intros Hfinal Haccept Hnext.
  induction fuel as [| fuel IH]; intros s pass r H; simpl in H; [discriminate |].
  destruct (Qltb (inject_Z pass) (maxResizePasses R)) eqn:Hguard.
  - apply Qltb_lt in Hguard.
    inv_bind H as inner Einner.
    destruct inner as [[best |] log]; cbn [fst snd] in H.
    + apply Ret_inj in H; subst r; apply (Haccept _ _ _ _ Hguard Einner).
    + inv_bind H as r' Er'. apply Ret_inj in H; subst r.
      apply (Hnext _ _ _ _ Hguard Einner), (IH _ _ _ Er').
  - apply Qltb_ge in Hguard; apply Ret_inj in H; subst r.
    apply Hfinal; assumption.
Qed.

Lemma passLoop_unfold fuel s pass :
  passLoop pf R bitmap orientation target oSize (S fuel) s pass
  = if Qltb (inject_Z pass) (maxResizePasses R) then
      r <- onePass s pass ;;
      match fst r with
      | Some best => Ret (best, snd r)
      | None =>
          r' <- passLoop pf R bitmap orientation target oSize fuel
                  (s * resizeDownFactor R)%Q (pass + 1) ;;
          Ret (fst r', snd r ++ snd r')
      end
    else Ret (finalRender pf R bitmap orientation target oSize s pass).
Proof. reflexivity. Qed.

Lemma passLoop_returns fuel s pass :
  Z.max 0 (Qceiling (maxResizePasses R) - pass) < Z.of_nat fuel ->
  exists r, passLoop pf R bitmap orientation target oSize fuel s pass = Ret r.
Proof.
  revert s pass; induction fuel as [| fuel IH]; intros s pass Hfuel; [lia |].
  rewrite passLoop_unfold.
  destruct (Qltb (inject_Z pass) (maxResizePasses R)) eqn:Hguard; [| eexists; reflexivity].
  apply Qltb_lt, lt_Qceiling in Hguard.
  destruct (qualityLoop_returns
              (composite bitmap orientation (outDim (fst oSize) s) (outDim (snd oSize) s))
              (outDim (fst oSize) s) (outDim (snd oSize) s) s pass
              (fuelFor (maxQualityIters R)) (jpegQualityStart R) 0)
    as [[[best |] log] Hinner]; [unfold fuelFor; lia | |];
    rewrite Hinner; cbn [bind fst snd]; [eexists; reflexivity |].
  destruct (IH (s * resizeDownFactor R)%Q (pass + 1) ltac:(lia)) as [r Hr].
  rewrite Hr; eexists; reflexivity.
Qed.

(** More fuel than a run needs does not change its outcome. *)
Lemma passLoop_more_fuel fuel fuel' s pass r :
  (fuel <= fuel')%nat ->
  passLoop pf R bitmap orientation target oSize fuel s pass = Ret r ->
  passLoop pf R bitmap orientation target oSize fuel' s pass = Ret r.
Proof.
  revert fuel' s pass r; induction fuel as [| fuel IH]; intros fuel' s pass r Hle H;
    [discriminate |].
  destruct fuel' as [| fuel']; [lia |].
  rewrite passLoop_unfold in *.
  destruct (Qltb (inject_Z pass) (maxResizePasses R)); [| exact H].
  inv_bind H as inner Einner; rewrite Einner; cbn [bind].
  destruct (fst inner); [exact H |].
  inv_bind H as r' Er'.
  rewrite (IH fuel' _ _ _ ltac:(lia) Er'); exact H.
Qed.

(** The number of encodes: at most [maxQualityIters] per pass that can still
    start, and the final render. *)
Lemma passLoop_length fuel s pass r :
  passLoop pf R bitmap orientation target oSize fuel s pass = Ret r ->
  Z.of_nat (List.length (snd r))
  <= Z.max 0 (Qceiling (maxResizePasses R) - pass) * iterations (maxQualityIters R) + 1.
Proof.
  revert fuel s pass r.
  apply (passLoop_cases
           (fun _ pass r =>
              Z.of_nat (List.length (snd r))
              <= Z.max 0 (Qceiling (maxResizePasses R) - pass)
                 * iterations (maxQualityIters R) + 1));
    unfold iterations; cbn [snd]; intros.
  - unfold finalRender; cbn [snd List.length]; nia.
  - apply lt_Qceiling in H; apply qualityLoop_length in H0; cbn [snd] in H0.
    rewrite Z.sub_0_r in H0; nia.
  - apply lt_Qceiling in H; apply qualityLoop_length in H0; cbn [snd] in H0.
    rewrite Z.sub_0_r in H0; rewrite length_app; nia.
Qed.

Lemma passLoop_rendered fuel s pass r :
  passLoop pf R bitmap orientation target oSize fuel s pass = Ret r ->
  Rendered pf R bitmap orientation target oSize (fst r).
Proof.
  revert fuel s pass r.
  apply (passLoop_cases
           (fun _ _ r => Rendered pf R bitmap orientation target oSize (fst r)));
    cbn [fst]; intros.
  - unfold Rendered; cbn; repeat split; right; split; reflexivity.
  - destruct (qualityLoop_accepted _ _ _ _ _ _ _ _ _ _ H0)
      as (Hfit & Hflag & Hw & Hh & Hs & Hblob).
    unfold Rendered; rewrite Hw, Hh, Hs; repeat split; try assumption.
    left; split; assumption.
  - assumption.
Qed.

(** Pass [k] runs at the initial scale multiplied [k] times by
    [resizeDownFactor]. *)
Lemma passLoop_scales fuel s pass r :
  passLoop pf R bitmap orientation target oSize fuel s pass = Ret r ->
  forall a, In a (snd r) ->
    pass <= at_pass a
    /\ at_scale a = scaleAfter R (Z.to_nat (at_pass a - pass)) s
    /\ at_width a = outDim (fst oSize) (at_scale a)
    /\ at_height a = outDim (snd oSize) (at_scale a).
Proof.
  revert fuel s pass r.
  apply (passLoop_cases
           (fun s pass r => forall a, In a (snd r) ->
              pass <= at_pass a
              /\ at_scale a = scaleAfter R (Z.to_nat (at_pass a - pass)) s
              /\ at_width a = outDim (fst oSize) (at_scale a)
              /\ at_height a = outDim (snd oSize) (at_scale a)));
    cbn [snd]; intros.
  - destruct H0 as [<- | []]; cbn [at_pass at_scale at_width at_height].
    rewrite Z.sub_diag; repeat split; reflexivity || lia.
  - destruct (qualityLoop_fields _ _ _ _ _ _ _ _ _ H0 _ H1)
      as (Hp & Hs & Hw & Hh & _ & _).
    rewrite Hp, Hs, Hw, Hh, Z.sub_diag; repeat split; reflexivity || lia.
  - apply in_app_or in H2; destruct H2 as [Hin | Hin].
    + destruct (qualityLoop_fields _ _ _ _ _ _ _ _ _ H0 _ Hin)
        as (Hp & Hs & Hw & Hh & _ & _).
      rewrite Hp, Hs, Hw, Hh, Z.sub_diag; repeat split; reflexivity || lia.
    + destruct (H1 _ Hin) as (Hp & Hs & Hw & Hh).
      repeat split; try assumption; [lia |].
      rewrite Hs.
      replace (Z.to_nat (at_pass a - pass)) with (S (Z.to_nat (at_pass a - (pass + 1))))
        by lia.
      unfold scaleAfter; rewrite Nat.iter_succ_r; reflexivity.
Qed.

Lemma passLoop_floor fuel s pass r :
  passLoop pf R bitmap orientation target oSize fuel s pass = Ret r ->
  forall a, In a (snd r) ->
    (at_quality a = jpegQualityStart R /\ at_iter a = 0)
    \/ (jpegMinQuality R <= at_quality a)%Q.
Proof.
  revert fuel s pass r.
  apply (passLoop_cases
           (fun _ _ r => forall a, In a (snd r) ->
              (at_quality a = jpegQualityStart R /\ at_iter a = 0)
              \/ (jpegMinQuality R <= at_quality a)%Q));
    cbn [snd]; intros.
  - destruct H0 as [<- | []]; right; cbn; apply Qle_refl.
  - exact (qualityLoop_floor _ _ _ _ _ _ _ _ _ H0 _ H1).
  - apply in_app_or in H2; destruct H2 as [Hin | Hin]; [| auto].
    exact (qualityLoop_floor _ _ _ _ _ _ _ _ _ H0 _ Hin).
Qed.

(** Consecutive attempts of the same pass are one quality step apart, over
    the whole run. *)
Lemma passLoop_steps fuel s pass r :
  passLoop pf R bitmap orientation target oSize fuel s pass = Ret r ->
  Sorted (QualityStep R target) (snd r)
  /\ (forall a, In a (snd r) -> pass <= at_pass a).
Proof.
  revert fuel s pass r.
  apply (passLoop_cases
           (fun _ pass r =>
              Sorted (QualityStep R target) (snd r)
              /\ (forall a, In a (snd r) -> pass <= at_pass a)));
    cbn [snd]; intros.
  - split; [repeat constructor | intros a [<- | []]; cbn; lia].
  - split; [exact (proj1 (qualityLoop_steps _ _ _ _ _ _ _ _ _ H0)) |].
    intros a Hin.
    destruct (qualityLoop_fields _ _ _ _ _ _ _ _ _ H0 _ Hin) as (Hp & _); lia.
  - destruct H1 as [Hsorted Hlater]; split.
    + apply Sorted_app_cross;
        [exact (proj1 (qualityLoop_steps _ _ _ _ _ _ _ _ _ H0)) | exact Hsorted |].
      intros a b Ha Hb Hsame.
      destruct (qualityLoop_fields _ _ _ _ _ _ _ _ _ H0 _ Ha) as (Hp & _).
      specialize (Hlater _ Hb); lia.
    + intros a Hin; apply in_app_or in Hin; destruct Hin as [Hin | Hin].
      * destruct (qualityLoop_fields _ _ _ _ _ _ _ _ _ H0 _ Hin) as (Hp & _); lia.
      * specialize (Hlater _ Hin); lia.
Qed.

(** With a down-factor between 0 and 1 the scale never grows: later attempts
    are at a scale not above that of earlier ones, and none is above the
    scale the loop was entered with. *)
Lemma passLoop_monotone fuel s pass r :
  (0 <= resizeDownFactor R <= 1)%Q ->
  passLoop pf R bitmap orientation target oSize fuel s pass = Ret r ->
  (0 <= s)%Q ->
  StronglySorted ScaleOrder (snd r)
  /\ (forall a, In a (snd r) -> (0 <= at_scale a <= s)%Q)
  /\ (0 <= r_scale (fst r) <= s)%Q.
Proof.
  intros Hfactor; revert fuel s pass r.
  apply (passLoop_cases
           (fun s _ r =>
              (0 <= s)%Q ->
              StronglySorted ScaleOrder (snd r)
              /\ (forall a, In a (snd r) -> (0 <= at_scale a <= s)%Q)
              /\ (0 <= r_scale (fst r) <= s)%Q));
    cbn [fst snd]; intros.
  - unfold finalRender; cbn [fst snd r_scale]; repeat split.
    + repeat constructor.
    + destruct H1 as [<- | []]; cbn; assumption.
    + destruct H1 as [<- | []]; cbn; apply Qle_refl.
    + assumption.
    + apply Qle_refl.
  - assert (Hscale : forall a, In a log -> at_scale a = s).
    { intros a Hin.
      destruct (qualityLoop_fields _ _ _ _ _ _ _ _ _ H0 _ Hin) as (_ & Hs & _); exact Hs. }
    destruct (qualityLoop_accepted _ _ _ _ _ _ _ _ _ _ H0) as (_ & _ & _ & _ & Hs & _).
    rewrite Hs; repeat split; try assumption; try apply Qle_refl.
    + apply StronglySorted_all; intros a b Ha Hb; unfold ScaleOrder.
      rewrite (Hscale _ Ha), (Hscale _ Hb); apply Qle_refl.
    + rewrite (Hscale _ H2); assumption.
    + rewrite (Hscale _ H2); apply Qle_refl.
  - assert (Hscale : forall a, In a log -> at_scale a = s).
    { intros a Hin.
      destruct (qualityLoop_fields _ _ _ _ _ _ _ _ _ H0 _ Hin) as (_ & Hs & _); exact Hs. }
    assert (Hnext : (0 <= s * resizeDownFactor R)%Q) by (apply Qmult_le_0_compat; tauto).
    assert (Hshrink : (s * resizeDownFactor R <= s)%Q) by nra.
    destruct (H1 Hnext) as (Hsorted & Hbound & Hres).
    split; [| split].
    + apply StronglySorted_app_cross; [| exact Hsorted |].
      * apply StronglySorted_all; intros a b Ha Hb; unfold ScaleOrder.
        rewrite (Hscale _ Ha), (Hscale _ Hb); apply Qle_refl.
      * intros a b Ha Hb; unfold ScaleOrder; rewrite (Hscale _ Ha).
        eapply Qle_trans; [apply (Hbound _ Hb) | exact Hshrink].
    + intros a Hin; apply in_app_or in Hin; destruct Hin as [Hin | Hin].
      * rewrite (Hscale _ Hin); split; [assumption | apply Qle_refl].
      * split; [apply (Hbound _ Hin) |].
        eapply Qle_trans; [apply (Hbound _ Hin) | exact Hshrink].
    + split; [apply Hres |].
      eapply Qle_trans; [apply Hres | exact Hshrink].
Qed.

(** Every attempt of a run is an encode of the bitmap at the oriented
    dimensions scaled by its scale. *)
Lemma passLoop_encodes fuel s pass r :
  passLoop pf R bitmap orientation target oSize fuel s pass = Ret r ->
  Forall (EncodeOf pf bitmap orientation oSize) (snd r).
Proof.
  revert fuel s pass r.
  assert (Hpass : forall s pass x,
             onePass s pass = Ret x ->
             Forall (EncodeOf pf bitmap orientation oSize) (snd x)).
  { intros s pass x Hinner; apply Forall_forall; intros a Hin.
    destruct (qualityLoop_fields _ _ _ _ _ _ _ _ _ Hinner _ Hin)
      as (_ & Hs & Hw & Hh & _ & _).
    pose proof (qualityLoop_sizes _ _ _ _ _ _ _ _ _ Hinner _ Hin) as Hsize.
    unfold EncodeOf; rewrite Hs, Hw, Hh; repeat split; exact Hsize. }
  apply (passLoop_cases
           (fun _ _ r => Forall (EncodeOf pf bitmap orientation oSize) (snd r)));
    cbn [snd]; intros.
  - unfold finalRender; cbn [snd]; constructor; [| constructor].
    unfold EncodeOf; cbn; repeat split.
  - exact (Hpass _ _ _ H0).
  - apply Forall_app; split; [exact (Hpass _ _ _ H0) | exact H1].
Qed.

(** The rendition a run returns is its last encode, and the encodes before
    it were over the target. *)
Lemma passLoop_over_until_fit fuel s pass r :
  passLoop pf R bitmap orientation target oSize fuel s pass = Ret r ->
  exists before last,
    snd r = before ++ [last] /\ Forall (Over target) before /\ Carries (fst r) last.
Proof.
  revert fuel s pass r.
  apply (passLoop_cases
           (fun _ _ r =>
              exists before last,
                snd r = before ++ [last] /\ Forall (Over target) before
                /\ Carries (fst r) last)).
  - intros s pass _; unfold finalRender; cbn [fst snd].
    eexists [], _; split; [reflexivity |]; split; [constructor |].
    unfold Carries; cbn; repeat split.
  - intros s pass best l _ Hinner.
    apply qualityLoop_over_until_fit in Hinner; exact Hinner.
  - intros s pass l x _ Hinner (before & last & Hlog & Hbefore & Hlast).
    apply qualityLoop_over_until_fit in Hinner; cbn [fst snd] in *.
    exists (l ++ before), last; rewrite Hlog, app_assoc.
    split; [reflexivity |]; split; [| exact Hlast].
    apply Forall_app; split; assumption.
Qed.

(** A rendition with the over-limit property comes at the end of a search
    that ran through every pass. *)
Lemma passLoop_exhausted fuel s pass r :
  passLoop pf R bitmap orientation target oSize fuel s pass = Ret r ->
  0 <= pass ->
  r_bestEffortOverLimit (fst r) <> None ->
  r_scale (fst r)
  = scaleAfter R (Z.to_nat (Z.max 0 (Qceiling (maxResizePasses R) - pass))) s
  /\ r_pass (fst r) = maxResizePasses R
  /\ r_iter (fst r) = maxQualityIters R
  /\ forall k, pass <= k -> (inject_Z k < maxResizePasses R)%Q ->
       (0 < maxQualityIters R)%Q ->
       exists a, In a (snd r) /\ at_pass a = k /\ at_iter a = 0
                 /\ at_quality a = jpegQualityStart R /\ at_final a = false.
Proof.
  revert fuel s pass r.
  apply (passLoop_cases
           (fun s pass r =>
              0 <= pass ->
              r_bestEffortOverLimit (fst r) <> None ->
              r_scale (fst r)
              = scaleAfter R (Z.to_nat (Z.max 0 (Qceiling (maxResizePasses R) - pass))) s
              /\ r_pass (fst r) = maxResizePasses R
              /\ r_iter (fst r) = maxQualityIters R
              /\ forall k, pass <= k -> (inject_Z k < maxResizePasses R)%Q ->
                   (0 < maxQualityIters R)%Q ->
                   exists a, In a (snd r) /\ at_pass a = k /\ at_iter a = 0
                             /\ at_quality a = jpegQualityStart R /\ at_final a = false)).
  - intros s pass Hguard Hpass _; unfold finalRender; cbn [fst snd r_scale r_pass r_iter].
    pose proof Hguard as Hceil.
    apply Qceiling_resp_le in Hceil; rewrite Qceiling_Z in Hceil.
    replace (Z.to_nat (Z.max 0 (Qceiling (maxResizePasses R) - pass))) with O by lia.
    split; [reflexivity |]; split; [reflexivity |]; split; [reflexivity |].
    intros k Hk Hlt _; exfalso.
    apply (Qlt_not_le _ _ Hlt); eapply Qle_trans; [exact Hguard |].
    rewrite <- Zle_Qle; exact Hk.
  - intros s pass best l _ Hinner _ Hflag; exfalso; cbn [fst] in Hflag.
    destruct (qualityLoop_accepted _ _ _ _ _ _ _ _ _ _ Hinner) as (_ & Hnone & _).
    exact (Hflag Hnone).
  - intros s pass l x Hguard Hinner IH Hpass Hflag; cbn [fst snd] in *.
    destruct (IH ltac:(lia) Hflag) as (Hs & Hp & Hi & Hfirst).
    split; [| split; [exact Hp |]; split; [exact Hi |]].
    + rewrite Hs; pose proof (lt_Qceiling _ _ Hguard) as Hceil.
      replace (Z.to_nat (Z.max 0 (Qceiling (maxResizePasses R) - pass)))
        with (S (Z.to_nat (Z.max 0 (Qceiling (maxResizePasses R) - (pass + 1)))))
        by lia.
      unfold scaleAfter; rewrite Nat.iter_succ_r; reflexivity.
    + intros k Hk Hlt Hiters.
      destruct (Z.eq_dec k pass) as [-> | Hne].
      * destruct (qualityLoop_begins _ _ _ _ _ _ _ _ _ Hinner Hiters)
          as (a & rest & Hlog & Ha); cbn [snd] in Hlog; subst l.
        exists a; split; [left; reflexivity | exact Ha].
      * destruct (Hfirst k ltac:(lia) Hlt Hiters) as (a & Hin & Ha).
        exists a; split; [apply in_or_app; right; exact Hin | exact Ha].
Qed.

Lemma Sorted_app_last {A : Type} (rel : A -> A -> Prop) (l1 l2 : list A) :
  Sorted rel l1 -> Sorted rel l2 ->
  (forall before a b, l1 = before ++ [a] -> rel a b) ->
  Sorted rel (l1 ++ l2).
Proof.
  intros H1 H2 Hlast; induction l1 as [| x l1 IH]; [exact H2 |].
  inversion H1 as [| ? ? Hs Hh]; subst; cbn.
  constructor.
  - apply IH; [exact Hs |].
    intros before a b ->; apply (Hlast (x :: before) a b); reflexivity.
  - destruct l1 as [| y l1']; cbn.
    + destruct l2 as [| b l2']; constructor.
      apply (Hlast [] x b); reflexivity.
    + inversion Hh; subst; constructor; assumption.
Qed.

(** A run leaves a pass only when the quality loop of the pass was
    through. *)
Lemma passLoop_pass_end fuel s pass r :
  passLoop pf R bitmap orientation target oSize fuel s pass = Ret r ->
  Sorted (PassEnd R) (snd r).
Proof.
  revert fuel s pass r.
  assert (Hpass : forall s pass x,
             onePass s pass = Ret x -> Sorted (PassEnd R) (snd x)).
  { intros s pass x Hinner.
    apply StronglySorted_Sorted, StronglySorted_all; intros a b Ha Hb Hdiff.
    destruct (qualityLoop_fields _ _ _ _ _ _ _ _ _ Hinner _ Ha) as (Hpa & _).
    destruct (qualityLoop_fields _ _ _ _ _ _ _ _ _ Hinner _ Hb) as (Hpb & _).
    congruence. }
  apply (passLoop_cases (fun _ _ r => Sorted (PassEnd R) (snd r))); cbn [snd]; intros.
  - unfold finalRender; cbn [snd]; repeat constructor.
  - exact (Hpass _ _ _ H0).
  - apply Sorted_app_last; [exact (Hpass _ _ _ H0) | exact H1 |].
    intros before a b Hlog _.
    exact (proj2 (qualityLoop_through _ _ _ _ _ _ _ _ _ H0) eq_refl before a Hlog).
Qed.

End Loops.

Lemma Sorted_adjacent {A : Type} (rel : A -> A -> Prop) (l1 l2 : list A) (a b : A) :
  Sorted rel (l1 ++ a :: b :: l2) -> rel a b.
Proof.
  induction l1 as [| x l1 IH]; cbn; intros H; inversion H as [| ? ? Hs Hh]; subst.
  - inversion Hh; subst; assumption.
  - apply IH; exact Hs.
Qed.

Lemma initialScale_range (oSize : Z * Z) (m : Q) :
  (0 < m)%Q -> (0 <= initialScale oSize m <= 1)%Q.
Proof.
  intros Hm; unfold initialScale.
  destruct (Qltb m (inject_Z (Z.max (fst oSize) (snd oSize)))) eqn:Hlong;
    [| split; discriminate].
  apply Qltb_lt in Hlong.
  assert (Hpos : (0 < inject_Z (Z.max (fst oSize) (snd oSize)))%Q)
    by (eapply Qlt_trans; eassumption).
  split.
  - apply Qle_shift_div_l; [exact Hpos |]. rewrite Qmult_0_l; apply Qlt_le_weak, Hm.
  - apply Qle_shift_div_r; [exact Hpos |]. rewrite Qmult_1_l; apply Qlt_le_weak, Hlong.
Qed.

(** Line 265 is [min(1, maxLongSidePx / longSide)] when the long side is
    positive. *)
Lemma initialScale_min (oSize : Z * Z) (m : Q) :
  (0 < m)%Q -> 0 < Z.max (fst oSize) (snd oSize) ->
  (initialScale oSize m == Qmin 1 (m / inject_Z (Z.max (fst oSize) (snd oSize))))%Q.
Proof.
  intros Hm Hlong; unfold initialScale.
  assert (Hpos : (0 < inject_Z (Z.max (fst oSize) (snd oSize)))%Q)
    by (change 0%Q with (inject_Z 0); rewrite <- Zlt_Qlt; exact Hlong).
  destruct (Qltb m (inject_Z (Z.max (fst oSize) (snd oSize)))) eqn:Hcmp.
  - apply Qltb_lt in Hcmp; symmetry; apply Q.min_r.
    apply Qle_shift_div_r; [exact Hpos |]. rewrite Qmult_1_l; apply Qlt_le_weak, Hcmp.
  - apply Qltb_ge in Hcmp; symmetry; apply Q.min_l.
    apply Qle_shift_div_l; [exact Hpos |]. rewrite Qmult_1_l; exact Hcmp.
Qed.

(** With valid limits and a canvas implementation the three guards of lines
    255-257 pass and the function is its resize loop. *)
Lemma renderResizedJpeg_runs pf R bitmap o (m b : Q) :
  (0 < m)%Q -> (0 < b)%Q -> hasOffscreenCanvas pf = true ->
  renderResizedJpeg pf R bitmap o (JNum (Finite m)) (JNum (Finite b))
  = passLoop pf R bitmap o b (orientedSize (bm_width bitmap) (bm_height bitmap) o)
      (fuelFor (maxResizePasses R))
      (initialScale (orientedSize (bm_width bitmap) (bm_height bitmap) o) m) 0.
Proof.
  intros Hm Hb Hcanvas; unfold renderResizedJpeg; cbn [isFiniteNumber numberOf negb orb].
  apply Qltb_lt in Hm, Hb; unfold Qltb in Hm, Hb; apply negb_true_iff in Hm, Hb.
  rewrite Hm, Hb, Hcanvas; reflexivity.
Qed.

(** Conversely, a call that returns had valid limits and a canvas
    implementation. *)
Lemma renderResizedJpeg_Ret_inv pf R bitmap o mv bv x :
  renderResizedJpeg pf R bitmap o mv bv = Ret x ->
  exists m b, mv = JNum (Finite m) /\ bv = JNum (Finite b)
              /\ (0 < m)%Q /\ (0 < b)%Q /\ hasOffscreenCanvas pf = true.
Proof.
  unfold renderResizedJpeg; intros H.
  destruct mv as [| | | [m | | |] |]; cbn [isFiniteNumber negb orb] in H; try discriminate.
  destruct (Qle_bool (numberOf (JNum (Finite m))) 0) eqn:Hm; [discriminate |].
  destruct bv as [| | | [b | | |] |]; cbn [isFiniteNumber negb orb] in H; try discriminate.
  destruct (Qle_bool (numberOf (JNum (Finite b))) 0) eqn:Hb; [discriminate |].
  destruct (hasOffscreenCanvas pf) eqn:Hc; [| discriminate].
  exists m, b; cbn [numberOf] in *; repeat split; try reflexivity;
    apply Qltb_lt; unfold Qltb; apply negb_true_iff; assumption.
Qed.

Lemma renderResizedJpeg_halts pf R bitmap o mv bv :
  halts (renderResizedJpeg pf R bitmap o mv bv).
Proof.
  unfold renderResizedJpeg.
  destruct (_ || _); [discriminate |].
  destruct (_ || _); [discriminate |].
  destruct (negb _); [discriminate |].
  match goal with
  | |- halts (passLoop ?pf ?R ?bm ?o ?t ?sz ?fuel ?s ?p) =>
      destruct (passLoop_returns pf R bm o t sz fuel s p) as [r Hr];
      [unfold fuelFor; lia | rewrite Hr; discriminate]
  end.
Qed.

(** C1: with a finite positive long-side limit, a finite positive byte
    limit and a canvas implementation, [renderResizedJpeg] returns a
    rendition after at most
    [iterations maxResizePasses * iterations maxQualityIters] encodes of its
    two loops and one final encode, which is
    [maxResizePasses * maxQualityIters + 1] when the two bounds are
    non-negative integers.  Every encode is an encode of the bitmap
    composited at its oriented dimensions and the scale of the encode; the
    encodes before the last were over the byte limit and the rendition is
    the last encode.  The rendition is within the byte limit and has no
    over-limit property, or it is the final render at the minimum quality
    with the property set to [size > limit], so it is within the limit or
    carries [bestEffortOverLimit = true]; the property is set only after a
    search that ran through every pass, and a pass is left only when its
    quality loop was through. *)
Theorem renderResizedJpeg_returns pf R bitmap o (m b : Q) :
  (0 < m)%Q -> (0 < b)%Q -> hasOffscreenCanvas pf = true ->
  let oSize := orientedSize (bm_width bitmap) (bm_height bitmap) o in
  exists r log,
    renderResizedJpeg pf R bitmap o (JNum (Finite m)) (JNum (Finite b)) = Ret (r, log)
    /\ Z.of_nat (List.length log)
       <= iterations (maxResizePasses R) * iterations (maxQualityIters R) + 1
    /\ (forall p i : Z,
          0 <= p -> 0 <= i ->
          (maxResizePasses R == inject_Z p)%Q -> (maxQualityIters R == inject_Z i)%Q ->
          Z.of_nat (List.length log) <= p * i + 1)
    /\ ((inject_Z (blob_size (r_blob r)) <= b)%Q \/ r_bestEffortOverLimit r = Some true)
    /\ Forall (EncodeOf pf bitmap o oSize) log
    /\ (exists before last,
          log = before ++ [last] /\ Forall (Over b) before /\ Carries r last)
    /\ Rendered pf R bitmap o b oSize r
    /\ (r_bestEffortOverLimit r <> None -> Exhausted R (initialScale oSize m) log r)
    /\ Sorted (PassEnd R) log.
Proof.
  intros Hm Hb Hcanvas oSize.
  rewrite (renderResizedJpeg_runs _ _ _ _ _ _ Hm Hb Hcanvas); fold oSize.
  destruct (passLoop_returns pf R bitmap o b oSize (fuelFor (maxResizePasses R))
              (initialScale oSize m) 0) as [[r log] Hrun]; [unfold fuelFor; lia |].
  exists r, log; split; [exact Hrun |].
  pose proof (passLoop_length _ _ _ _ _ _ _ _ _ _ Hrun) as Hlen; cbn [snd] in Hlen.
  rewrite Z.sub_0_r in Hlen; fold (iterations (maxResizePasses R)) in Hlen.
  pose proof (passLoop_rendered _ _ _ _ _ _ _ _ _ _ Hrun) as Hrendered.
  cbn [fst] in Hrendered.
  split; [exact Hlen |]; split; [| split; [| split; [| split; [| split; [| split]]]]].
  - intros p i Hp Hi HP HI.
    unfold iterations in Hlen.
    rewrite (Qceiling_inject_Z _ _ HP), (Qceiling_inject_Z _ _ HI) in Hlen.
    rewrite !Z.max_r in Hlen by assumption; exact Hlen.
  - destruct Hrendered as (_ & _ & _ & Hfit).
    destruct Hfit as [[Hfit _] | [Hflag _]]; [left; exact Hfit |].
    destruct (Qltb b (inject_Z (blob_size (r_blob r)))) eqn:Hover;
      [right; exact Hflag | left; apply Qltb_ge; exact Hover].
  - exact (passLoop_encodes _ _ _ _ _ _ _ _ _ _ Hrun).
  - exact (passLoop_over_until_fit _ _ _ _ _ _ _ _ _ _ Hrun).
  - exact Hrendered.
  - intros Hflag.
    destruct (passLoop_exhausted _ _ _ _ _ _ _ _ _ _ Hrun ltac:(lia) Hflag)
      as (Hs & Hp & Hi & Hfirst); cbn [fst snd] in *.
    rewrite Z.sub_0_r in Hs.
    split; [exact Hs |]; split; [exact Hp |]; split; [exact Hi |].
    intros k Hk; apply Hfirst; exact Hk.
  - exact (passLoop_pass_end _ _ _ _ _ _ _ _ _ _ Hrun).
Qed.

Lemma renderResizedJpeg_returns_witness :
  exists r log,
    renderResizedJpeg samplePlatform RUNTIME sampleBitmap 6
      (JNum (Finite 2560)) (JNum (Finite 500000)) = Ret (r, log)
    /\ Z.of_nat (List.length log)
       <= iterations (maxResizePasses RUNTIME) * iterations (maxQualityIters RUNTIME) + 1
    /\ (forall p i : Z,
          0 <= p -> 0 <= i ->
          (maxResizePasses RUNTIME == inject_Z p)%Q ->
          (maxQualityIters RUNTIME == inject_Z i)%Q ->
          Z.of_nat (List.length log) <= p * i + 1)
    /\ ((inject_Z (blob_size (r_blob r)) <= 500000)%Q
        \/ r_bestEffortOverLimit r = Some true)
    /\ Forall (EncodeOf samplePlatform sampleBitmap 6 (3000, 4000)) log
    /\ (exists before last,
          log = before ++ [last] /\ Forall (Over 500000) before /\ Carries r last)
    /\ Rendered samplePlatform RUNTIME sampleBitmap 6 500000 (3000, 4000) r
    /\ (r_bestEffortOverLimit r <> None ->
        Exhausted RUNTIME (initialScale (3000, 4000) 2560) log r)
    /\ Sorted (PassEnd RUNTIME) log.
Proof.
  apply (renderResizedJpeg_returns samplePlatform RUNTIME sampleBitmap 6 2560 500000);
    reflexivity.
Defined.

(** The claim fails outside these conditions.  With the overrides
    [maxResizePasses = 1.5] and [maxQualityIters = 2.5], which an init
    message stores as they are, a run on an encoder that never fits makes
    two passes of three encodes and the final render: 7 encodes, more than
    [1.5 * 2.5 + 1].  On a platform without [OffscreenCanvas] the call
    throws and returns no rendition. *)
Lemma fractional_bounds_exceed_product :
  (maxResizePasses withFractionalBounds == 3 # 2)%Q
  /\ (maxQualityIters withFractionalBounds == 5 # 2)%Q
  /\ (exists r log,
        renderResizedJpeg heavyPlatform withFractionalBounds sampleBitmap 1
          (JNum (Finite 2560)) (JNum (Finite 500000)) = Ret (r, log)
        /\ List.length log = 7%nat
        /\ map at_pass log = [0; 0; 0; 1; 1; 1; 2]
        /\ map at_iter log = [0; 1; 2; 0; 1; 2; 0]
        /\ ~ (inject_Z (Z.of_nat (List.length log))
              <= maxResizePasses withFractionalBounds
                 * maxQualityIters withFractionalBounds + 1)%Q)
  /\ renderResizedJpeg noCanvasPlatform RUNTIME sampleBitmap 1
       (JNum (Finite 2560)) (JNum (Finite 500000))
     = Throw "OffscreenCanvas is required for worker pipeline".
Proof.
  split; [reflexivity |]; split; [reflexivity |]; split; [| reflexivity].
  eexists; eexists; split; [vm_compute; reflexivity |].
  split; [reflexivity |]; split; [reflexivity |]; split; [reflexivity |].
  vm_compute; intros H; apply H; reflexivity.
Qed.

(** The run of the sample platform on a 4000x3000 bitmap with tag 6 and the
    limits 2560 px and 500000 bytes: accepted in the fourth pass at quality
    0.75, 1400x1866, after 26 encodes. *)
Example renderResizedJpeg_sample :
  exists r log,
    renderResizedJpeg samplePlatform RUNTIME sampleBitmap 6
      (JNum (Finite 2560)) (JNum (Finite 500000)) = Ret (r, log)
    /\ r_width r = 1400 /\ r_height r = 1866 /\ blob_size (r_blob r) = 489825
    /\ (r_quality r == 75 # 100)%Q /\ (r_pass r == 3)%Q /\ (r_iter r == 4)%Q
    /\ r_bestEffortOverLimit r = None /\ List.length log = 26%nat.
Proof.
  eexists; eexists; split; [vm_compute; reflexivity |].
  cbn [r_width r_height r_blob r_quality r_pass r_iter r_bestEffortOverLimit blob_size].
  repeat split; reflexivity.
Qed.

(** A byte limit no encode can meet: the search ends with the final render
    and the over-limit property set. *)
Example renderResizedJpeg_best_effort :
  exists r log,
    renderResizedJpeg samplePlatform RUNTIME sampleBitmap 1
      (JNum (Finite 2560)) (JNum (Finite 1000)) = Ret (r, log)
    /\ r_bestEffortOverLimit r = Some true
    /\ (r_quality r == 65 # 100)%Q
    /\ List.length log = 29%nat.
Proof.
  eexists; eexists; split; [vm_compute; reflexivity |].
  cbn [r_quality r_bestEffortOverLimit]; repeat split; reflexivity.
Qed.

(** C6: with a down-factor between 0 and 1, the initial scale is
    [min(1, maxLongSidePx / longSide)] (for a positive long side); every
    encode of pass [k] is at the initial scale multiplied [k] times by
    [resizeDownFactor]; the scale never grows from an encode to a later one
    and never exceeds 1, nor does the scale of the returned rendition. *)
Theorem scale_never_grows pf R bitmap o (m b : Q) :
  (0 < m)%Q -> (0 < b)%Q -> hasOffscreenCanvas pf = true ->
  (0 <= resizeDownFactor R <= 1)%Q ->
  let oSize := orientedSize (bm_width bitmap) (bm_height bitmap) o in
  let longSide := Z.max (fst oSize) (snd oSize) in
  let scale0 := initialScale oSize m in
  (0 < longSide -> (scale0 == Qmin 1 (m / inject_Z longSide))%Q)
  /\ (scale0 <= 1)%Q
  /\ exists r log,
       renderResizedJpeg pf R bitmap o (JNum (Finite m)) (JNum (Finite b)) = Ret (r, log)
       /\ (forall a, In a log ->
             0 <= at_pass a
             /\ at_scale a = scaleAfter R (Z.to_nat (at_pass a)) scale0
             /\ (at_scale a <= 1)%Q)
       /\ StronglySorted ScaleOrder log
       /\ (r_scale r <= 1)%Q.
Proof.
  intros Hm Hb Hcanvas Hfactor oSize longSide scale0.
  destruct (initialScale_range oSize m Hm) as [H0 H1]; fold scale0 in H0, H1.
  split; [| split; [exact H1 |]].
  - intros Hlong; apply initialScale_min; [exact Hm | exact Hlong].
  - rewrite (renderResizedJpeg_runs _ _ _ _ _ _ Hm Hb Hcanvas).
    fold oSize; fold scale0.
    destruct (passLoop_returns pf R bitmap o b oSize (fuelFor (maxResizePasses R)) scale0 0)
      as [[r log] Hrun]; [unfold fuelFor; lia |].
    destruct (passLoop_monotone _ _ _ _ _ _ _ _ _ _ Hfactor Hrun H0)
      as (Hsorted & Hbound & Hres); cbn [fst snd] in *.
    exists r, log; split; [exact Hrun |]; split; [| split].
    + intros a Hin.
      destruct (passLoop_scales _ _ _ _ _ _ _ _ _ _ Hrun a Hin) as (Hp & Hs & _).
      rewrite Z.sub_0_r in Hs; split; [exact Hp |]; split; [exact Hs |].
      eapply Qle_trans; [apply (Hbound _ Hin) | exact H1].
    + exact Hsorted.
    + eapply Qle_trans; [apply Hres | exact H1].
Qed.

Lemma scale_never_grows_witness :
  (initialScale (3000, 4000)%Z 2560 == Qmin 1 (2560 / 4000))%Q
  /\ exists r log,
       renderResizedJpeg samplePlatform RUNTIME sampleBitmap 6
         (JNum (Finite 2560)) (JNum (Finite 500000)) = Ret (r, log)
       /\ StronglySorted ScaleOrder log
       /\ (r_scale r <= 1)%Q.
Proof.
  destruct (scale_never_grows samplePlatform RUNTIME sampleBitmap 6 2560 500000)
    as (Hmin & _ & r & log & Hrun & _ & Hsorted & Hres);
    [reflexivity | reflexivity | reflexivity | split; discriminate |].
  split; [apply Hmin; reflexivity |].
  exists r, log; repeat split; assumption.
Defined.

(** Without the condition on the down-factor the claim fails: an init
    message with the override [resizeDownFactor = 2] is stored as it is, and
    a run on an encoder that never fits then doubles the scale from pass to
    pass: 1, 2, 4, 8, and 16 in the final render, 19200 pixels wide from a
    bitmap of 1200. *)
Lemma down_factor_two_upscales :
  (resizeDownFactor withFactorTwo == 2)%Q
  /\ exists r log,
       renderResizedJpeg heavyPlatform withFactorTwo smallBitmap 1
         (JNum (Finite 2560)) (JNum (Finite 500000)) = Ret (r, log)
       /\ (initialScale (1200, 800)%Z 2560 == 1)%Q
       /\ (r_scale r == 16)%Q
       /\ r_width r = 19200
       /\ ~ (r_scale r <= 1)%Q
       /\ map at_pass log
          = [0; 0; 0; 0; 0; 0; 0; 1; 1; 1; 1; 1; 1; 1; 2; 2; 2; 2; 2; 2; 2;
             3; 3; 3; 3; 3; 3; 3; 4]
       /\ map at_width log
          = [1200; 1200; 1200; 1200; 1200; 1200; 1200;
             2400; 2400; 2400; 2400; 2400; 2400; 2400;
             4800; 4800; 4800; 4800; 4800; 4800; 4800;
             9600; 9600; 9600; 9600; 9600; 9600; 9600; 19200]
       /\ ~ StronglySorted ScaleOrder log.
Proof.
  split; [reflexivity |].
  eexists; eexists; split; [vm_compute; reflexivity |].
  split; [reflexivity |]; split; [reflexivity |]; split; [reflexivity |].
  split; [intros H; apply H; reflexivity |].
  split; [reflexivity |]; split; [reflexivity |].
  intros Hsorted; inversion Hsorted as [| ? ? _ Hall]; subst.
  rewrite Forall_forall in Hall.
  eapply Hall; [do 6 right; left; reflexivity | reflexivity].
Qed.

(** C7: in every quality loop of a run, an encode that follows a quality
    step is at a quality of at least [jpegMinQuality], and so is every
    encode when the start quality is; the encode after another of the same
    pass is at [max(jpegMinQuality, q - jpegQualityStep)], which differs from
    [q]: when the step leaves the quality unchanged the loop makes no further
    encode in that pass. *)
Theorem quality_never_below_floor pf R bitmap o (m b : Q) :
  (0 < m)%Q -> (0 < b)%Q -> hasOffscreenCanvas pf = true ->
  exists r log,
    renderResizedJpeg pf R bitmap o (JNum (Finite m)) (JNum (Finite b)) = Ret (r, log)
    /\ (forall a, In a log -> 0 < at_iter a -> (jpegMinQuality R <= at_quality a)%Q)
    /\ ((jpegMinQuality R <= jpegQualityStart R)%Q ->
        forall a, In a log -> (jpegMinQuality R <= at_quality a)%Q)
    /\ (forall before a a' after,
          log = before ++ a :: a' :: after ->
          at_pass a' = at_pass a ->
          at_quality a' = Qmax (jpegMinQuality R) (at_quality a - jpegQualityStep R)
          /\ ~ (at_quality a' == at_quality a)%Q)
    /\ (forall before a a' after,
          log = before ++ a :: a' :: after ->
          (Qmax (jpegMinQuality R) (at_quality a - jpegQualityStep R) == at_quality a)%Q ->
          at_pass a' <> at_pass a).
Proof.
  intros Hm Hb Hcanvas.
  rewrite (renderResizedJpeg_runs _ _ _ _ _ _ Hm Hb Hcanvas).
  match goal with
  | |- context [passLoop ?pf ?R ?bm ?o ?t ?sz ?fuel ?s ?p] =>
      destruct (passLoop_returns pf R bm o t sz fuel s p) as [[r log] Hrun];
      [unfold fuelFor; lia |]
  end.
  pose proof (passLoop_floor _ _ _ _ _ _ _ _ _ _ Hrun) as Hfloor; cbn [snd] in Hfloor.
  destruct (passLoop_steps _ _ _ _ _ _ _ _ _ _ Hrun) as [Hsteps _]; cbn [snd] in Hsteps.
  assert (Hpair : forall before a a' after,
             log = before ++ a :: a' :: after ->
             at_pass a' = at_pass a ->
             at_quality a' = Qmax (jpegMinQuality R) (at_quality a - jpegQualityStep R)
             /\ ~ (at_quality a' == at_quality a)%Q).
  { intros before a a' after Hlog Hsame; subst log.
    destruct (Sorted_adjacent _ _ _ _ _ Hsteps Hsame) as (Hq & Hne & _).
    split; assumption. }
  exists r, log; split; [exact Hrun |]; repeat split.
  - intros a Hin Hiter; destruct (Hfloor a Hin) as [[_ Hzero] | Hmin]; [lia | exact Hmin].
  - intros Hstart a Hin; destruct (Hfloor a Hin) as [[-> _] | Hmin]; assumption.
  - apply (Hpair _ _ _ _ H H0).
  - apply (Hpair _ _ _ _ H H0).
  - intros before a a' after Hlog Hsame Hpass.
    destruct (Hpair _ _ _ _ Hlog Hpass) as [Hq Hne].
    apply Hne; rewrite Hq; exact Hsame.
Qed.

Lemma quality_never_below_floor_witness :
  exists r log,
    renderResizedJpeg samplePlatform RUNTIME sampleBitmap 6
      (JNum (Finite 2560)) (JNum (Finite 500000)) = Ret (r, log)
    /\ (forall a, In a log -> (jpegMinQuality RUNTIME <= at_quality a)%Q).
Proof.
  destruct (quality_never_below_floor samplePlatform RUNTIME sampleBitmap 6 2560 500000)
    as (r & log & Hrun & _ & Hfloor & _); [reflexivity | reflexivity | reflexivity |].
  exists r, log; split; [exact Hrun |].
  apply Hfloor; discriminate.
Defined.

End EncoderFacts.

(** ** The message handler *)

Module WorkerFacts.

Lemma isType_init_false (msg : Message) :
  msg_type msg <> Some "init"%string -> isType msg "init" = false.
Proof.
  unfold isType; destruct (msg_type msg) as [t |]; [| reflexivity].
  intros Hne; destruct (String.eqb_spec t "init"); [subst; congruence | reflexivity].
Qed.

Lemma isType_true (msg : Message) (name : string) :
  msg_type msg = Some name -> isType msg name = true.
Proof. unfold isType; intros ->; apply String.eqb_refl. Qed.

Lemma isType_true_inv (msg : Message) (name : string) :
  isType msg name = true -> msg_type msg = Some name.
Proof.
  unfold isType; destruct (msg_type msg) as [t |]; [| discriminate].
  intros H; apply String.eqb_eq in H; subst; reflexivity.
Qed.

(** Only the init branch writes the runtime. *)
Lemma onmessage_frame pf R msg :
  isType msg "init" = false -> runtime (onmessage pf R msg) = R.
Proof.
  intros Hinit; unfold onmessage, dispatch; rewrite Hinit.
  destruct (isType msg "process"); [| reflexivity].
  unfold bindW; destruct (snd (process pf R msg)); reflexivity.
Qed.

Lemma onmessage_init pf R msg :
  isType msg "init" = true ->
  onmessage pf R msg = mkHandled (fst (init pf R msg)) [snd (init pf R msg)] [].
Proof.
  intros Hinit; unfold onmessage, dispatch; rewrite Hinit; cbn.
  reflexivity.
Qed.

Lemma onmessage_process pf R msg :
  isType msg "process" = true ->
  posted (onmessage pf R msg)
  = match snd (process pf R msg) with
    | Ret response => [response]
    | Throw e =>
        [err "E_WORKER_EXCEPTION" "Unhandled worker exception" (mkExtra None None (Some e))]
    | Diverge => []
    end
  /\ calls (onmessage pf R msg) = fst (process pf R msg).
Proof.
  intros Hprocess.
  assert (Hinit : isType msg "init" = false).
  { apply isType_true_inv in Hprocess; unfold isType; rewrite Hprocess; reflexivity. }
  unfold onmessage, dispatch; rewrite Hinit, Hprocess.
  unfold bindW; destruct (process pf R msg) as [log [response | e |]]; cbn;
    rewrite ?app_nil_r; split; reflexivity.
Qed.

(** C9, as the code has it: a message other than an init message leaves every
    field of the runtime as it was, whatever the worker does for it; the
    runtime is written by init messages only, and by each of them: the
    worker is ready afterwards and the two limits are those of the message
    handled last. *)
Theorem runtime_written_by_init_only pf R msg :
  (msg_type msg <> Some "init"%string -> runtime (onmessage pf R msg) = R)
  /\ (msg_type msg = Some "init"%string ->
      ready (runtime (onmessage pf R msg)) = true
      /\ maxLongSidePx (runtime (onmessage pf R msg))
         = finiteOr (msg_max_long_side_px msg) 2560
      /\ targetMaxBytes (runtime (onmessage pf R msg))
         = (if isFiniteNumber (msg_target_max_bytes msg)
            then Some (numberOf (msg_target_max_bytes msg)) else None)).
Proof.
  split; intros H.
  - apply onmessage_frame, isType_init_false, H.
  - rewrite (onmessage_init _ _ _ (isType_true _ _ H)); repeat split.
Qed.

Lemma runtime_written_by_init_only_witness :
  runtime (onmessage samplePlatform configured (processMessage "r1" (Some jpegFile)))
  = configured.
Proof.
  apply (proj1 (runtime_written_by_init_only samplePlatform configured
                  (processMessage "r1" (Some jpegFile)))).
  discriminate.
Defined.

(** C9, as stated, fails: an init message handled by an initialised worker
    replaces the limits. *)
Lemma second_init_changes_runtime :
  ready configured = true
  /\ runtime (onmessage samplePlatform configured
                (initMessage (JNum (Finite 1024)) JUndefined))
     <> configured.
Proof.
  split; [reflexivity |].
  intros H; apply (f_equal targetMaxBytes) in H; vm_compute in H; discriminate.
Qed.

(** *** The missing byte budget *)

Lemma init_ready pf R msg : ready (fst (init pf R msg)) = true.
Proof. reflexivity. Qed.

Lemma init_leaves_no_target pf R msg :
  leavesNoTarget (msg_target_max_bytes msg) -> noTarget (fst (init pf R msg)) = true.
Proof.
  unfold leavesNoTarget, init, noTarget; cbn [fst targetMaxBytes].
  intros [Hnot | Hzero].
  - rewrite Hnot; reflexivity.
  - destruct (isFiniteNumber (msg_target_max_bytes msg)); [| reflexivity].
    apply Qeq_bool_iff; exact Hzero.
Qed.

Lemma init_warns pf R msg :
  noTarget (fst (init pf R msg)) = true ->
  exists io, snd (init pf R msg) = InitDone io /\ io_warnings io = [missingTargetWarning].
Proof.
  intros Hno; unfold init in *; cbn [fst snd] in *.
  eexists; split; [reflexivity |]; cbn [io_warnings].
  rewrite Hno; reflexivity.
Qed.

(** Lines 389-396: without a byte budget a process request is answered
    before the file is looked at. *)
Lemma process_without_target pf R msg :
  ready R = true -> noTarget R = true ->
  process pf R msg = ([], Ret missingTargetFailure).
Proof. intros Hready Hno; unfold process; rewrite Hready, Hno; reflexivity. Qed.

Lemma run_without_target pf R msgs :
  ready R = true -> noTarget R = true ->
  (forall m, In m msgs -> msg_type m <> Some "init"%string) ->
  Forall2 (fun m h =>
             msg_type m = Some "process"%string ->
             posted h = [missingTargetFailure] /\ calls h = [])
          msgs (run pf R msgs).
Proof.
  intros Hready Hno; induction msgs as [| m msgs IH]; intros Hall; cbn [run]; constructor.
  - intros Hprocess; apply isType_true in Hprocess.
    destruct (onmessage_process pf R m Hprocess) as [Hposted Hcalls].
    rewrite Hposted, Hcalls, (process_without_target _ _ _ Hready Hno); split; reflexivity.
  - rewrite onmessage_frame by (apply isType_init_false, Hall; left; reflexivity).
    apply IH; intros m' Hin; apply Hall; right; exact Hin.
Qed.

(** C4, as the code has it: when [target_max_bytes] of the init message is
    not a finite number, or is zero, the init message is acknowledged with
    the missing-budget warning and the worker is ready; every process
    request handled after it, until another init message, is answered with
    [E_CONFIG_TARGET_MAX_BYTES_MISSING] and nothing else, without a call to a
    decoder or to the encoder. *)
Theorem missing_target_fails_fast pf R0 msg0 msgs :
  msg_type msg0 = Some "init"%string ->
  leavesNoTarget (msg_target_max_bytes msg0) ->
  (forall m, In m msgs -> msg_type m <> Some "init"%string) ->
  (exists io, posted (onmessage pf R0 msg0) = [InitDone io]
              /\ io_targetMaxBytes io = targetMaxBytes (runtime (onmessage pf R0 msg0))
              /\ io_warnings io = [missingTargetWarning])
  /\ ready (runtime (onmessage pf R0 msg0)) = true
  /\ Forall2 (fun m h =>
                msg_type m = Some "process"%string ->
                posted h = [missingTargetFailure] /\ calls h = [])
             msgs (run pf (runtime (onmessage pf R0 msg0)) msgs).
Proof.
  intros Hinit Hno Hrest.
  rewrite (onmessage_init _ _ _ (isType_true _ _ Hinit)); cbn [posted runtime].
  pose proof (init_leaves_no_target pf R0 msg0 Hno) as Hnone.
  split; [| split].
  - destruct (init_warns pf R0 msg0 Hnone) as (io & Hio & Hwarn).
    exists io; rewrite Hio; repeat split; [| exact Hwarn].
    unfold init in Hio; cbn [snd] in Hio; injection Hio as <-; reflexivity.
  - apply init_ready.
  - apply run_without_target; [apply init_ready | exact Hnone | exact Hrest].
Qed.

Lemma missing_target_fails_fast_witness :
  Forall2 (fun m h =>
             msg_type m = Some "process"%string ->
             posted h = [missingTargetFailure] /\ calls h = [])
          [processMessage "r1" (Some jpegFile); processMessage "r2" (Some heicFile)]
          (run samplePlatform
             (runtime (onmessage samplePlatform RUNTIME
                         (initMessage (JNum (Finite 2560)) JUndefined)))
             [processMessage "r1" (Some jpegFile); processMessage "r2" (Some heicFile)]).
Proof.
  apply (missing_target_fails_fast samplePlatform RUNTIME
           (initMessage (JNum (Finite 2560)) JUndefined)
           [processMessage "r1" (Some jpegFile); processMessage "r2" (Some heicFile)]).
  - reflexivity.
  - left; reflexivity.
  - intros m [<- | [<- | []]]; discriminate.
Defined.

(** C4, as stated, fails for a negative [target_max_bytes]: the init message
    is acknowledged without a warning, and the process request that follows
    is decoded and then fails with [E_WORKER_EXCEPTION]. *)
Lemma negative_target_is_not_missing :
  ~ (0 < -5)%Q
  /\ (exists io,
        posted (onmessage samplePlatform RUNTIME
                  (initMessage JUndefined (JNum (Finite (-5))))) = [InitDone io]
        /\ io_warnings io = [])
  /\ posted (onmessage samplePlatform
               (runtime (onmessage samplePlatform RUNTIME
                           (initMessage JUndefined (JNum (Finite (-5))))))
               (processMessage "r1" (Some jpegFile)))
     = [err "E_WORKER_EXCEPTION" "Unhandled worker exception"
          (mkExtra None None (Some "Invalid targetMaxBytes"%string))]
  /\ calls (onmessage samplePlatform
              (runtime (onmessage samplePlatform RUNTIME
                          (initMessage JUndefined (JNum (Finite (-5))))))
              (processMessage "r1" (Some jpegFile)))
     = [CallCreateImageBitmap true].
Proof.
  split; [discriminate |]; split; [| split].
  - eexists; split; vm_compute; reflexivity.
  - vm_compute; reflexivity.
  - vm_compute; reflexivity.
Qed.

(** *** HEIC without a decoder *)

Lemma bitmapFromHeic_unavailable pf R file :
  hasImageDecoder pf = false -> wasmDecoder R = None ->
  bitmapFromHeic pf R file = ([], Throw heicUnavailable).
Proof.
  intros Hdec Hwasm; unfold bitmapFromHeic, heicViaImageDecoder, heicViaWasm.
  rewrite Hdec, Hwasm; reflexivity.
Qed.

(** Lines 220-222: an exception of the WebCodecs strategy is dropped and the
    WASM strategy decides. *)
Lemma bitmapFromHeic_falls_through pf R file e :
  hasImageDecoder pf = true ->
  imageDecoderFrame0 pf
    (if String.eqb (inferMime file) "" then "image/heic"%string else inferMime file)
    (file_bytes file) = Throw e ->
  bitmapFromHeic pf R file
  = (CallImageDecoder :: fst (heicViaWasm pf R file), snd (heicViaWasm pf R file)).
Proof.
  intros Hdec Hthrow; unfold bitmapFromHeic, heicViaImageDecoder.
  rewrite Hdec; unfold tryW, bindW, call; cbn [fst snd]; rewrite Hthrow; cbn.
  destruct (heicViaWasm pf R file) as [log [d | e' |]]; reflexivity.
Qed.

(** C5: a process request for a HEIC-like file, on a platform without
    ImageDecoder and with no WASM decoder configured, is answered with
    [E_HEIC_CONVERT_FAILED], whose message asks for a JPEG/PNG photo, and
    with nothing else; and where ImageDecoder exists but throws, the outcome
    of the decode is that of the WASM strategy. *)
Theorem heic_unavailable pf R msg file :
  ready R = true -> noTarget R = false ->
  msg_type msg = Some "process"%string -> msg_file msg = Some file ->
  isHeicLike (inferMime file) = true ->
  (hasImageDecoder pf = false -> wasmDecoder R = None ->
   posted (onmessage pf R msg) = [heicFailure (requestIdOf msg) heicUnavailable]
   /\ calls (onmessage pf R msg) = [])
  /\ (forall e,
        hasImageDecoder pf = true ->
        imageDecoderFrame0 pf
          (if String.eqb (inferMime file) "" then "image/heic"%string else inferMime file)
          (file_bytes file) = Throw e ->
        snd (bitmapFromHeic pf R file) = snd (heicViaWasm pf R file)).
Proof.
  intros Hready Htarget Htype Hfile Hheic; split.
  - intros Hdec Hwasm.
    destruct (onmessage_process pf R msg (isType_true _ _ Htype)) as [Hposted Hcalls].
    rewrite Hposted, Hcalls; unfold process, processFile.
    rewrite Hready, Htarget, Hfile; cbn [negb].
    rewrite Hheic, (bitmapFromHeic_unavailable _ _ _ Hdec Hwasm).
    split; reflexivity.
  - intros e Hdec Hthrow.
    rewrite (bitmapFromHeic_falls_through _ _ _ _ Hdec Hthrow); reflexivity.
Qed.

Lemma heic_unavailable_witness :
  posted (onmessage samplePlatform configured (processMessage "r7" (Some heicFile)))
  = [heicFailure (JStr "r7") heicUnavailable]
  /\ calls (onmessage samplePlatform configured (processMessage "r7" (Some heicFile))) = [].
Proof.
  apply (heic_unavailable samplePlatform configured
           (processMessage "r7" (Some heicFile)) heicFile); reflexivity.
Defined.

(** *** Request identifiers of failure responses *)

Lemma not_initialized_response pf R msg :
  msg_type msg = Some "process"%string -> ready R = false ->
  posted (onmessage pf R msg)
  = [err "E_NOT_INITIALIZED" "Worker is not initialized. Call init() first."
       (mkExtra (Some "process_err"%string) None None)].
Proof.
  intros Htype Hready.
  destruct (onmessage_process pf R msg (isType_true _ _ Htype)) as [Hposted _].
  rewrite Hposted; unfold process; rewrite Hready; reflexivity.
Qed.

Lemma exception_response pf R msg e :
  msg_type msg = Some "process"%string -> snd (process pf R msg) = Throw e ->
  posted (onmessage pf R msg)
  = [err "E_WORKER_EXCEPTION" "Unhandled worker exception" (mkExtra None None (Some e))].
Proof.
  intros Htype Hthrow.
  destruct (onmessage_process pf R msg (isType_true _ _ Htype)) as [Hposted _].
  rewrite Hposted, Hthrow; reflexivity.
Qed.

(** C8, evaluated: the responses to the process request with identifier
    [r1] in the five failure modes.  The failures for a missing file and for
    HEIC carry the identifier; those for an uninitialised worker, a missing
    byte budget and an unhandled exception do not. *)
Theorem failures_and_request_ids :
  failureIds (posted (onmessage samplePlatform RUNTIME
                        (processMessage "r1" (Some jpegFile))))
  = [("E_NOT_INITIALIZED"%string, None)]
  /\ failureIds (posted (onmessage samplePlatform withoutBudget
                           (processMessage "r1" (Some jpegFile))))
     = [("E_CONFIG_TARGET_MAX_BYTES_MISSING"%string, None)]
  /\ failureIds (posted (onmessage brokenPlatform configured
                           (processMessage "r1" (Some jpegFile))))
     = [("E_WORKER_EXCEPTION"%string, None)]
  /\ failureIds (posted (onmessage samplePlatform configured (processMessage "r1" None)))
     = [("E_NO_FILE"%string, Some (JStr "r1"))]
  /\ failureIds (posted (onmessage samplePlatform configured
                           (processMessage "r1" (Some heicFile))))
     = [("E_HEIC_CONVERT_FAILED"%string, Some (JStr "r1"))].
Proof. repeat split; vm_compute; reflexivity. Qed.

(** *** The over-limit flag of a success response *)

Lemma snd_bindW_Ret_inv {A B : Type} (m : W A) (k : A -> W B) (b : B) :
  snd (bindW m k) = Ret b -> exists a, snd m = Ret a /\ snd (k a) = Ret b.
Proof.
  unfold bindW; destruct (snd m) as [a | e |]; cbn [snd]; intros H; try discriminate.
  exists a; split; [reflexivity | exact H].
Qed.

(** The decode step of lines 409-423 yields a failure response only from the
    [catch] of the HEIC branch. *)
Lemma decode_failure_is_heic pf R requestId file failure :
  snd (if isHeicLike (inferMime file) then
         tryW (x <~ bitmapFromHeic pf R file ;; retW (inr x))
              (fun e => retW (inl
                 (err "E_HEIC_CONVERT_FAILED"
                    "Не удалось конвертировать HEIC/HEIF офлайн. Выберите фото в JPEG/PNG."
                    (mkExtra (Some "process_err"%string) (Some requestId) (Some e)))))
       else x <~ bitmapFromNonHeic pf file ;; retW (inr x))
  = Ret (inl failure) ->
  exists e, failure = heicFailure requestId e.
Proof.
  destruct (isHeicLike (inferMime file)).
  - unfold tryW, bindW.
    destruct (snd (bitmapFromHeic pf R file)) as [d | e |]; cbn; intros H;
      try discriminate.
    exists e; injection H as <-; reflexivity.
  - unfold bindW.
    destruct (snd (bitmapFromNonHeic pf file)) as [d | e |]; cbn; intros H; discriminate.
Qed.

(** A success response comes from a rendition that [renderResizedJpeg]
    returned for the limits of the runtime. *)
Lemma processFile_success pf R requestId file p :
  snd (processFile pf R requestId file) = Ret (ProcessDone p) ->
  exists bitmap orientation n log,
    renderResizedJpeg pf R bitmap orientation
      (JNum (Finite (maxLongSidePx R))) (targetValue R) = Ret (n, log)
    /\ po_normalized_blob p = r_blob n
    /\ po_normalized_bytes p = blob_size (r_blob n)
    /\ dbg_output_bytes (po_debug p) = blob_size (r_blob n)
    /\ dbg_output_bestEffortOverLimit (po_debug p) = flagOf n
    /\ dbg_limits_targetMaxBytes (po_debug p) = targetMaxBytes R.
Proof.
  unfold processFile; intros H.
  apply snd_bindW_Ret_inv in H; destruct H as ([failure | decoded] & Hdecode & H).
  - apply decode_failure_is_heic in Hdecode; destruct Hdecode as [e ->].
    cbn in H; discriminate.
  - apply snd_bindW_Ret_inv in H; destruct H as (n & Hrender & H).
    destruct (renderResizedJpeg pf R (dec_bitmap decoded) (orOne (dec_orientation decoded))
                (JNum (Finite (maxLongSidePx R))) (targetValue R))
      as [[n' log] | e |] eqn:Hrun; cbn [snd throwW] in Hrender; try discriminate.
    apply Ret_inj in Hrender; subst n'.
    cbn [snd retW] in H; apply Ret_inj in H; injection H as <-.
    exists (dec_bitmap decoded), (orOne (dec_orientation decoded)), n, log.
    repeat split; assumption || reflexivity.
Qed.

(** C10: in a success response the over-limit flag of the debug trace is
    true exactly when the normalized JPEG is larger than the configured
    [targetMaxBytes]; when the flag is false the JPEG is within the budget. *)
Theorem over_limit_flag_iff pf R msg p :
  posted (onmessage pf R msg) = [ProcessDone p] ->
  exists target,
    targetMaxBytes R = Some target
    /\ dbg_limits_targetMaxBytes (po_debug p) = Some target
    /\ po_normalized_bytes p = blob_size (po_normalized_blob p)
    /\ dbg_output_bytes (po_debug p) = po_normalized_bytes p
    /\ (dbg_output_bestEffortOverLimit (po_debug p) = true
        <-> (target < inject_Z (po_normalized_bytes p))%Q)
    /\ (dbg_output_bestEffortOverLimit (po_debug p) = false
        -> (inject_Z (po_normalized_bytes p) <= target)%Q).
Proof.
  intros Hposted.
  assert (Hprocess : snd (process pf R msg) = Ret (ProcessDone p)).
  { unfold onmessage, dispatch in Hposted.
    destruct (isType msg "init"); [cbn in Hposted; discriminate |].
    destruct (isType msg "process"); [| cbn in Hposted; discriminate].
    unfold bindW in Hposted.
    destruct (snd (process pf R msg)) as [response | e |]; cbn in Hposted;
      try discriminate.
    injection Hposted as ->; reflexivity. }
  unfold process in Hprocess.
  destruct (negb (ready R)); [cbn in Hprocess; discriminate |].
  destruct (noTarget R); [cbn in Hprocess; discriminate |].
  destruct (msg_file msg) as [file |]; [| cbn in Hprocess; discriminate].
  apply processFile_success in Hprocess.
  destruct Hprocess as (bitmap & o & n & log & Hrun & Hblob & Hbytes & Hdbg & Hflag & Hlimit).
  destruct (EncoderFacts.renderResizedJpeg_Ret_inv _ _ _ _ _ _ _ Hrun)
    as (m & b & Hlimits & Htarget & Hm & Hb & Hcanvas).
  injection Hlimits as Hlimits; subst m.
  assert (HR : targetMaxBytes R = Some b).
  { unfold targetValue in Htarget; destruct (targetMaxBytes R) as [t |]; [| discriminate].
    injection Htarget as ->; reflexivity. }
  unfold targetValue in Hrun; rewrite HR in Hrun.
  rewrite (EncoderFacts.renderResizedJpeg_runs _ _ _ _ _ _ Hm Hb Hcanvas) in Hrun.
  destruct (EncoderFacts.passLoop_rendered _ _ _ _ _ _ _ _ _ _ Hrun) as (_ & _ & _ & Hfit).
  cbn [fst] in Hfit.
  exists b; rewrite Hlimit, Hbytes, Hblob, Hdbg, Hflag; repeat split;
    try assumption; try reflexivity; unfold flagOf;
    destruct Hfit as [[Hle Hnone] | [Hsome _]]; rewrite ?Hnone, ?Hsome.
  - discriminate.
  - apply EncoderFacts.Qltb_lt.
  - intros Hover; exfalso; exact (Qlt_not_le _ _ Hover Hle).
  - apply EncoderFacts.Qltb_lt.
  - intros _; exact Hle.
  - apply EncoderFacts.Qltb_ge.
Qed.

Lemma over_limit_flag_iff_witness :
  exists p,
    posted (onmessage samplePlatform configured (processMessage "r1" (Some jpegFile)))
    = [ProcessDone p]
    /\ dbg_output_bestEffortOverLimit (po_debug p) = false
    /\ (inject_Z (po_normalized_bytes p) <= 500000)%Q.
Proof.
  eexists; split; [vm_compute; reflexivity |].
  match goal with
  | |- dbg_output_bestEffortOverLimit (po_debug ?p) = false /\ _ =>
      destruct (over_limit_flag_iff samplePlatform configured
                  (processMessage "r1" (Some jpegFile)) p)
        as (target & Htarget & _ & _ & _ & _ & Hwithin); [vm_compute; reflexivity |]
  end.
  vm_compute in Htarget; injection Htarget as <-.
  split; [reflexivity | apply Hwithin; reflexivity].
Defined.

End WorkerFacts.

(** ** Mime inference *)

Module MimeFacts.

Lemma lowerAscii_idem (c : ascii) : lowerAscii (lowerAscii c) = lowerAscii c.
Proof.
  destruct c as [[] [] [] [] [] [] [] []]; vm_compute; reflexivity.
Qed.

Lemma toLowerCase_idem (s : string) : toLowerCase (toLowerCase s) = toLowerCase s.
Proof.
  induction s as [| c s IH]; cbn [toLowerCase]; [reflexivity |].
  rewrite lowerAscii_idem, IH; reflexivity.
Qed.

Lemma toLowerCase_empty (s : string) :
  String.eqb (toLowerCase s) "" = String.eqb s "".
Proof. destruct s; reflexivity. Qed.

Lemma length_append (p x : string) :
  String.length (p ++ x) = (String.length p + String.length x)%nat.
Proof. induction p as [| c p IH]; cbn; [reflexivity | rewrite IH; reflexivity]. Qed.

Lemma substring_all (s : string) : substring 0 (String.length s) s = s.
Proof. induction s as [| c s IH]; cbn; [reflexivity | rewrite IH; reflexivity]. Qed.

Lemma substring_append (p x : string) :
  substring (String.length p) (String.length x) (p ++ x) = x.
Proof. induction p as [| c p IH]; cbn; [apply substring_all | exact IH]. Qed.

Lemma substring_split (s : string) (n : nat) :
  (n <= String.length s)%nat ->
  s = (substring 0 n s ++ substring n (String.length s - n) s)%string.
Proof.
  revert n; induction s as [| c s IH]; intros [| n] Hn; cbn in *; try reflexivity; try lia.
  - rewrite substring_all; reflexivity.
  - rewrite <- (IH n) by lia; reflexivity.
Qed.

(** [endsWith] holds exactly of the strings that are a stem followed by the
    suffix. *)
Lemma endsWith_spec (s suffix : string) :
  endsWith s suffix = true <-> exists stem, s = (stem ++ suffix)%string.
Proof.
  unfold endsWith; split.
  - destruct (String.length suffix <=? String.length s)%nat eqn:Hlen; [| discriminate].
    apply Nat.leb_le in Hlen; intros Heq; apply String.eqb_eq in Heq.
    exists (substring 0 (String.length s - String.length suffix) s).
    pose proof (substring_split s (String.length s - String.length suffix) ltac:(lia))
      as Hsplit.
    replace (String.length s - (String.length s - String.length suffix))%nat
      with (String.length suffix) in Hsplit by lia.
    rewrite Heq in Hsplit; exact Hsplit.
  - intros [stem ->]; rewrite length_append.
    replace (String.length suffix <=? String.length stem + String.length suffix)%nat
      with true by (symmetry; apply Nat.leb_le; lia).
    replace (String.length stem + String.length suffix - String.length suffix)%nat
      with (String.length stem) by lia.
    rewrite substring_append; apply String.eqb_refl.
Qed.

(** X1: the case of the declared type and of the file name does not matter
    to [inferMime], and what it returns is in lower case. *)
Theorem inferMime_ignores_case (f : File) :
  inferMime (mkFile (toLowerCase (file_type f)) (toLowerCase (file_name f))
               (file_size f) (file_bytes f))
  = inferMime f
  /\ toLowerCase (inferMime f) = inferMime f.
Proof.
  unfold inferMime; cbn [file_type file_name].
  rewrite toLowerCase_empty, !toLowerCase_idem; split; [reflexivity |].
  destruct (negb (String.eqb (file_type f) "")); [apply toLowerCase_idem |].
  repeat match goal with
         | |- context [if ?b then _ else _] => destruct b
         end; reflexivity.
Qed.

(** X2: a file without a declared type is HEIC-like exactly when its name, in
    lower case, ends in [.heic] or [.heif]; a declared type decides alone,
    whatever the name. *)
Theorem inferMime_heic_by_name (f : File) :
  (file_type f = ""%string ->
   (isHeicLike (inferMime f) = true
    <-> exists stem,
          toLowerCase (file_name f) = (stem ++ ".heic")%string
          \/ toLowerCase (file_name f) = (stem ++ ".heif")%string))
  /\ (file_type f <> ""%string -> inferMime f = toLowerCase (file_type f)).
Proof.
  split.
  - intros Htype; unfold inferMime; rewrite Htype; cbn [String.eqb negb].
    destruct (endsWith (toLowerCase (file_name f)) ".heic") eqn:Hheic.
    { split; [| reflexivity]; intros _.
      apply endsWith_spec in Hheic; destruct Hheic as [stem Hstem].
      exists stem; left; exact Hstem. }
    destruct (endsWith (toLowerCase (file_name f)) ".heif") eqn:Hheif.
    { split; [| reflexivity]; intros _.
      apply endsWith_spec in Hheif; destruct Hheif as [stem Hstem].
      exists stem; right; exact Hstem. }
    split.
    + repeat match goal with
             | |- context [if ?b then _ else _] => destruct b
             end; cbn; discriminate.
    + intros [stem [Hstem | Hstem]].
      * assert (Hends : endsWith (toLowerCase (file_name f)) ".heic" = true)
          by (apply endsWith_spec; exists stem; exact Hstem).
        congruence.
      * assert (Hends : endsWith (toLowerCase (file_name f)) ".heif" = true)
          by (apply endsWith_spec; exists stem; exact Hstem).
        congruence.
  - intros Htype; unfold inferMime.
    destruct (String.eqb_spec (file_type f) ""); [contradiction | reflexivity].
Qed.

Lemma inferMime_heic_by_name_witness :
  isHeicLike (inferMime heicFile) = true.
Proof.
  apply (proj1 (inferMime_heic_by_name heicFile)); [reflexivity |].
  exists "img_0001"%string; left; reflexivity.
Defined.

End MimeFacts.

(** ** More on the compositor *)

Module CanvasMore.

(** X3: whatever the orientation value, [drawBitmapWithOrientation] adds two
    operations to the canvas and nothing else: a white rectangle over
    [(0, 0, outW, outH)] under the transformation the context came with, then
    the bitmap, drawn once at the origin with the output dimensions swapped
    back for the tags 5 to 8.  The transformation, the fill style and the
    stack of saved states are afterwards what they were. *)
Theorem drawBitmapWithOrientation_effect ctx bitmap o outW outH :
  exists m,
    drawBitmapWithOrientation ctx bitmap o outW outH
    = mkContext
        (mkCanvas (cv_width (ctx_canvas ctx)) (cv_height (ctx_canvas ctx))
           (cv_ops (ctx_canvas ctx)
            ++ [FillRect "#ffffff" (ctx_matrix ctx) 0 0 outW outH;
                DrawImage bitmap m 0 0
                  (fst (orientedSize outW outH o)) (snd (orientedSize outW outH o))]))
        (ctx_matrix ctx) (ctx_fillStyle ctx) (ctx_saved ctx).
Proof.
  destruct o as [| o | o];
    try (eexists; cbv - [Z.mul Z.add Z.opp Z.sub app]; rewrite <- app_assoc; reflexivity);
    repeat (destruct o as [o | o |];
            try (eexists; cbv - [Z.mul Z.add Z.opp Z.sub app];
                 rewrite <- app_assoc; reflexivity)).
Qed.

Lemma composite_fills_canvas_witness :
  exists p q, drawnCorners (composite sampleBitmap 6 1400 1866) = [(p, q)]
              /\ (fst p = 0 /\ fst q = 1400 \/ fst p = 1400 /\ fst q = 0)
              /\ (snd p = 0 /\ snd q = 1866 \/ snd p = 1866 /\ snd q = 0).
Proof.
  apply (CanvasFacts.composite_fills_canvas sampleBitmap 6 1400 1866); lia.
Defined.

(** X6: the orientation does not change the long side, so the initial scale
    is the same for every tag; applying [orientedSize] twice gives the
    dimensions back. *)
Theorem orientedSize_keeps_long_side (w h o : Z) (m : Q) :
  Z.max (fst (orientedSize w h o)) (snd (orientedSize w h o)) = Z.max w h
  /\ initialScale (orientedSize w h o) m = initialScale (w, h) m
  /\ orientedSize (fst (orientedSize w h o)) (snd (orientedSize w h o)) o = (w, h).
Proof.
  assert (Hmax : Z.max (fst (orientedSize w h o)) (snd (orientedSize w h o)) = Z.max w h).
  { unfold orientedSize; destruct (_ && _); cbn [fst snd]; lia. }
  split; [exact Hmax |]; split.
  - unfold initialScale; rewrite Hmax; reflexivity.
  - unfold orientedSize; destruct (_ && _); reflexivity.
Qed.

(** X20: an orientation value outside 2..8 is composited like tag 1, without
    a transformation, and leaves width and height as they are. *)
Theorem unknown_orientation_is_identity ctx bitmap o outW outH :
  o < 2 \/ 8 < o ->
  drawBitmapWithOrientation ctx bitmap o outW outH
  = drawBitmapWithOrientation ctx bitmap 1 outW outH
  /\ (forall w h, orientedSize w h o = (w, h)).
Proof.
  intros Ho; split.
  - destruct o as [| o | o]; try reflexivity;
      repeat (destruct o as [o | o |]; try reflexivity; try (exfalso; lia)).
  - intros w h; unfold orientedSize.
    destruct (5 <=? o) eqn:H5; destruct (o <=? 8) eqn:H8; try reflexivity; lia.
Qed.

Lemma unknown_orientation_is_identity_witness :
  composite sampleBitmap 9 1400 1866 = composite sampleBitmap 1 1400 1866.
Proof.
  unfold composite.
  rewrite (proj1 (unknown_orientation_is_identity
                    (getContext (newOffscreenCanvas 1400 1866)) sampleBitmap 9 1400 1866
                    ltac:(lia))).
  reflexivity.
Defined.

End CanvasMore.

(** ** More on the size-constrained encoder *)

Module EncoderMore.

Import EncoderFacts.

(** X7: [renderResizedJpeg] returns a rendition exactly when both limits are
    finite positive numbers and the platform has OffscreenCanvas; otherwise
    it throws, naming the first of the three that fails, in the order of
    lines 255-257. *)
Theorem renderResizedJpeg_outcome pf R bitmap o mv bv :
  ((exists x, renderResizedJpeg pf R bitmap o mv bv = Ret x)
   /\ isFiniteNumber mv = true /\ (0 < numberOf mv)%Q
   /\ isFiniteNumber bv = true /\ (0 < numberOf bv)%Q
   /\ hasOffscreenCanvas pf = true)
  \/ (renderResizedJpeg pf R bitmap o mv bv = Throw "Invalid maxLongSidePx"
      /\ ~ (isFiniteNumber mv = true /\ (0 < numberOf mv)%Q))
  \/ (renderResizedJpeg pf R bitmap o mv bv = Throw "Invalid targetMaxBytes"
      /\ isFiniteNumber mv = true /\ (0 < numberOf mv)%Q
      /\ ~ (isFiniteNumber bv = true /\ (0 < numberOf bv)%Q))
  \/ (renderResizedJpeg pf R bitmap o mv bv
      = Throw "OffscreenCanvas is required for worker pipeline"
      /\ isFiniteNumber mv = true /\ (0 < numberOf mv)%Q
      /\ isFiniteNumber bv = true /\ (0 < numberOf bv)%Q
      /\ hasOffscreenCanvas pf = false).
Proof.
  unfold renderResizedJpeg.
  destruct (isFiniteNumber mv) eqn:Hmf; cbn [negb orb].
  2:{ right; left; split; [reflexivity | intros [H _]; discriminate]. }
  destruct (Qle_bool (numberOf mv) 0) eqn:Hm.
  { right; left; split; [reflexivity |].
    intros [_ H]; apply Qle_bool_iff in Hm; exact (Qlt_not_le _ _ H Hm). }
  assert (Hmpos : (0 < numberOf mv)%Q)
    by (apply Qltb_lt; unfold Qltb; rewrite Hm; reflexivity).
  destruct (isFiniteNumber bv) eqn:Hbf; cbn [negb orb].
  2:{ right; right; left; repeat split; try assumption; intros [H _]; discriminate. }
  destruct (Qle_bool (numberOf bv) 0) eqn:Hb.
  { right; right; left; repeat split; try assumption.
    intros [_ H]; apply Qle_bool_iff in Hb; exact (Qlt_not_le _ _ H Hb). }
  assert (Hbpos : (0 < numberOf bv)%Q)
    by (apply Qltb_lt; unfold Qltb; rewrite Hb; reflexivity).
  destruct (hasOffscreenCanvas pf) eqn:Hc; cbn [negb].
  2:{ right; right; right; repeat split; assumption. }
  left; repeat split; try assumption.
  match goal with
  | |- exists x, passLoop ?pf ?R ?bm ?o ?t ?sz ?fuel ?s ?p = Ret x =>
      destruct (passLoop_returns pf R bm o t sz fuel s p) as [r Hr];
      [unfold fuelFor; lia | exists r; exact Hr]
  end.
Qed.

Lemma round_inject_Z (z : Z) : round (inject_Z z) = z.
Proof.
  unfold round, Qfloor, Qplus, inject_Z; cbn [Qnum Qden].
  change (Z.pos (1 * 2)) with 2; symmetry; apply Z.div_unique with (r := 1); lia.
Qed.

Lemma outDim_one (side : Z) : 0 < side -> outDim side 1 = side.
Proof.
  intros Hside; unfold outDim.
  assert (Hround : round (inject_Z side * 1) = side).
  { unfold round, Qfloor, Qplus, Qmult, inject_Z; cbn [Qnum Qden].
    change (Z.pos (1 * 1 * 2)) with 2; symmetry; apply Z.div_unique with (r := 1); lia. }
  rewrite Hround; lia.
Qed.

(** X8: an image already within both limits is accepted by the first encode:
    when the long side is at most [maxLongSidePx], both loops may run at
    least once, and the encode of the unscaled canvas at the start quality
    fits the byte limit, the rendition has scale 1, the start quality, the
    oriented dimensions of the bitmap, and no over-limit property; it is the
    only encode made. *)
Theorem renderResizedJpeg_first_encode pf R bitmap o (m b : Q) :
  (0 < m)%Q -> (0 < b)%Q -> hasOffscreenCanvas pf = true ->
  0 < bm_width bitmap -> 0 < bm_height bitmap ->
  (inject_Z (Z.max (bm_width bitmap) (bm_height bitmap)) <= m)%Q ->
  (0 < maxResizePasses R)%Q -> (0 < maxQualityIters R)%Q ->
  let oSize := orientedSize (bm_width bitmap) (bm_height bitmap) o in
  let canvas := composite bitmap o (fst oSize) (snd oSize) in
  (inject_Z (blob_size (convertToBlob pf canvas (jpegQualityStart R))) <= b)%Q ->
  renderResizedJpeg pf R bitmap o (JNum (Finite m)) (JNum (Finite b))
  = Ret (mkRendition (convertToBlob pf canvas (jpegQualityStart R))
           (fst oSize) (snd oSize) (jpegQualityStart R) 1 (inject_Z 0) (inject_Z 0) None,
         [attemptOf pf canvas (fst oSize) (snd oSize) 1 0 (jpegQualityStart R) 0]).
Proof.
  intros Hm Hb Hcanvas Hw Hh Hlong Hpasses Hiters oSize canvas Hfits.
  rewrite (renderResizedJpeg_runs _ _ _ _ _ _ Hm Hb Hcanvas); fold oSize.
  assert (Hsides : 0 < fst oSize /\ 0 < snd oSize
                   /\ Z.max (fst oSize) (snd oSize)
                      = Z.max (bm_width bitmap) (bm_height bitmap)).
  { unfold oSize, orientedSize; destruct (_ && _); cbn [fst snd]; lia. }
  destruct Hsides as (Hfst & Hsnd & Hmax).
  assert (Hscale : initialScale oSize m = 1%Q).
  { unfold initialScale; rewrite Hmax.
    apply Qltb_ge in Hlong; rewrite Hlong; reflexivity. }
  rewrite Hscale; unfold fuelFor at 1; rewrite passLoop_unfold.
  apply Qltb_lt in Hpasses; change (inject_Z 0) with 0%Q; rewrite Hpasses.
  rewrite (outDim_one _ Hfst), (outDim_one _ Hsnd); fold canvas.
  unfold fuelFor; cbn [qualityLoop].
  apply Qltb_lt in Hiters; change (inject_Z 0) with 0%Q; rewrite Hiters.
  apply Qle_bool_iff in Hfits; rewrite Hfits; reflexivity.
Qed.

Lemma renderResizedJpeg_first_encode_witness :
  exists r log,
    renderResizedJpeg samplePlatform RUNTIME smallBitmap 1
      (JNum (Finite 2560)) (JNum (Finite 500000)) = Ret (r, log)
    /\ r_width r = 1200 /\ r_height r = 800 /\ r_scale r = 1%Q
    /\ List.length log = 1%nat.
Proof.
  eexists; eexists; split;
    [apply (renderResizedJpeg_first_encode samplePlatform RUNTIME smallBitmap 1
              2560 500000); try reflexivity; vm_compute; discriminate |].
  repeat split; reflexivity.
Defined.

(** X10: when no encode gets under the byte limit, the search runs through
    every pass and returns the final render: at the minimum quality, at the
    initial scale multiplied by the down-factor once per pass, with
    [bestEffortOverLimit] true and the configured bounds in [pass] and
    [iter]. *)
Theorem renderResizedJpeg_exhausted pf R bitmap o (m b : Q) :
  (0 < m)%Q -> (0 < b)%Q -> hasOffscreenCanvas pf = true ->
  (forall canvas q, (b < inject_Z (blob_size (convertToBlob pf canvas q)))%Q) ->
  exists r log,
    renderResizedJpeg pf R bitmap o (JNum (Finite m)) (JNum (Finite b)) = Ret (r, log)
    /\ r_bestEffortOverLimit r = Some true
    /\ r_quality r = jpegMinQuality R
    /\ r_scale r
       = scaleAfter R (Z.to_nat (iterations (maxResizePasses R)))
           (initialScale (orientedSize (bm_width bitmap) (bm_height bitmap) o) m)
    /\ r_pass r = maxResizePasses R
    /\ r_iter r = maxQualityIters R.
Proof.
  intros Hm Hb Hcanvas Hheavy.
  rewrite (renderResizedJpeg_runs _ _ _ _ _ _ Hm Hb Hcanvas).
  set (oSize := orientedSize (bm_width bitmap) (bm_height bitmap) o).
  destruct (passLoop_returns pf R bitmap o b oSize (fuelFor (maxResizePasses R))
              (initialScale oSize m) 0) as [[r log] Hrun]; [unfold fuelFor; lia |].
  exists r, log; split; [exact Hrun |].
  assert (Hall : forall fuel s pass x,
             passLoop pf R bitmap o b oSize fuel s pass = Ret x ->
             0 <= pass ->
             r_bestEffortOverLimit (fst x) = Some true
             /\ r_quality (fst x) = jpegMinQuality R
             /\ r_scale (fst x)
                = scaleAfter R
                    (Z.to_nat (Z.max 0 (Qceiling (maxResizePasses R) - pass))) s
             /\ r_pass (fst x) = maxResizePasses R
             /\ r_iter (fst x) = maxQualityIters R).
  { apply (passLoop_cases pf R bitmap o b oSize
             (fun s pass x =>
                0 <= pass ->
                r_bestEffortOverLimit (fst x) = Some true
                /\ r_quality (fst x) = jpegMinQuality R
                /\ r_scale (fst x)
                   = scaleAfter R
                       (Z.to_nat (Z.max 0 (Qceiling (maxResizePasses R) - pass))) s
                /\ r_pass (fst x) = maxResizePasses R
                /\ r_iter (fst x) = maxQualityIters R)).
    - intros s pass Hguard Hpass; unfold finalRender; cbn [fst r_bestEffortOverLimit
        r_quality r_scale r_pass r_iter r_blob].
      apply Qceiling_resp_le in Hguard; rewrite Qceiling_Z in Hguard.
      replace (Z.to_nat (Z.max 0 (Qceiling (maxResizePasses R) - pass))) with O by lia.
      repeat split.
      f_equal; apply Qltb_lt, Hheavy.
    - intros s pass best l _ Hinner _; exfalso.
      destruct (qualityLoop_accepted _ _ _ _ _ _ _ _ _ _ _ _ _ Hinner)
        as (Hfit & _ & _ & _ & _ & Hblob).
      rewrite Hblob in Hfit; exact (Qlt_not_le _ _ (Hheavy _ _) Hfit).
    - intros s pass l x Hguard _ IH Hpass; cbn [fst].
      destruct (IH ltac:(lia)) as (Hflag & Hq & Hs & Hp & Hi).
      repeat split; try assumption.
      rewrite Hs; apply lt_Qceiling in Hguard.
      replace (Z.to_nat (Z.max 0 (Qceiling (maxResizePasses R) - pass)))
        with (S (Z.to_nat (Z.max 0 (Qceiling (maxResizePasses R) - (pass + 1)))))
        by lia.
      unfold scaleAfter; rewrite Nat.iter_succ_r; reflexivity. }
  destruct (Hall _ _ _ _ Hrun ltac:(lia)) as (Hflag & Hq & Hs & Hp & Hi); cbn [fst] in *.
  rewrite Z.sub_0_r in Hs; repeat split; assumption.
Qed.

Lemma renderResizedJpeg_exhausted_witness :
  exists r log,
    renderResizedJpeg heavyPlatform RUNTIME sampleBitmap 1
      (JNum (Finite 2560)) (JNum (Finite 500000)) = Ret (r, log)
    /\ r_bestEffortOverLimit r = Some true
    /\ r_quality r = jpegMinQuality RUNTIME.
Proof.
  destruct (renderResizedJpeg_exhausted heavyPlatform RUNTIME sampleBitmap 1 2560 500000)
    as (r & log & Hrun & Hflag & Hq & _);
    [reflexivity | reflexivity | reflexivity | intros canvas q; reflexivity |].
  exists r, log; repeat split; assumption.
Defined.

Lemma qualityLoop_first_fit pf R target canvas outW outH scale pass fuel q iter r :
  qualityLoop pf R target fuel canvas outW outH scale pass q iter = Ret r ->
  match fst r with
  | Some best =>
      exists before last,
        snd r = before ++ [last] /\ Forall (Over target) before /\ Carries best last
  | None => Forall (Over target) (snd r)
  end.
Proof.
  revert fuel q iter r.
  apply (qualityLoop_cases pf R target canvas outW outH scale pass
           (fun _ _ r =>
              match fst r with
              | Some best =>
                  exists before last,
                    snd r = before ++ [last] /\ Forall (Over target) before
                    /\ Carries best last
              | None => Forall (Over target) (snd r)
              end)); cbn [fst snd].
  - intros; constructor.
  - intros q iter _ _; exists [], (attemptOf pf canvas outW outH scale pass q iter).
    split; [reflexivity |]; split; [constructor |].
    unfold Carries; cbn; repeat split.
  - intros q iter _ Hover _; repeat constructor; exact Hover.
  - intros q iter r _ Hover _ IH.
    destruct (fst r) as [best |].
    + destruct IH as (before & last & Hlog & Hbefore & Hlast).
      exists (attemptOf pf canvas outW outH scale pass q iter :: before), last.
      rewrite Hlog; split; [reflexivity |]; split; [| exact Hlast].
      constructor; [exact Hover | exact Hbefore].
    + constructor; [exact Hover | exact IH].
Qed.

(** X11: the search stops at the first encode that fits: the log of a run is
    a list of encodes that were all over the byte limit, followed by one
    last encode, and the rendition returned is that last encode. *)
Theorem renderResizedJpeg_first_fit pf R bitmap o (m b : Q) :
  (0 < m)%Q -> (0 < b)%Q -> hasOffscreenCanvas pf = true ->
  exists r before last,
    renderResizedJpeg pf R bitmap o (JNum (Finite m)) (JNum (Finite b))
    = Ret (r, before ++ [last])
    /\ Forall (Over b) before
    /\ Carries r last.
Proof.
  intros Hm Hb Hcanvas.
  rewrite (renderResizedJpeg_runs _ _ _ _ _ _ Hm Hb Hcanvas).
  set (oSize := orientedSize (bm_width bitmap) (bm_height bitmap) o).
  destruct (passLoop_returns pf R bitmap o b oSize (fuelFor (maxResizePasses R))
              (initialScale oSize m) 0) as [[r log] Hrun]; [unfold fuelFor; lia |].
  assert (Hall : forall fuel s pass x,
             passLoop pf R bitmap o b oSize fuel s pass = Ret x ->
             exists before last,
               snd x = before ++ [last] /\ Forall (Over b) before
               /\ Carries (fst x) last).
  { apply (passLoop_cases pf R bitmap o b oSize
             (fun _ _ x =>
                exists before last,
                  snd x = before ++ [last] /\ Forall (Over b) before
                  /\ Carries (fst x) last)).
    - intros s pass _; unfold finalRender; cbn [fst snd].
      eexists [], _; split; [reflexivity |]; split; [constructor |].
      unfold Carries; cbn; repeat split.
    - intros s pass best l _ Hinner.
      apply qualityLoop_first_fit in Hinner; exact Hinner.
    - intros s pass l x _ Hinner (before & last & Hlog & Hbefore & Hlast).
      apply qualityLoop_first_fit in Hinner; cbn [fst snd] in *.
      exists (l ++ before), last; rewrite Hlog, app_assoc.
      split; [reflexivity |]; split; [| exact Hlast].
      apply Forall_app; split; assumption. }
  destruct (Hall _ _ _ _ Hrun) as (before & last & Hlog & Hbefore & Hlast).
  cbn [fst snd] in *; subst log.
  exists r, before, last; split; [exact Hrun | split; assumption].
Qed.

Lemma renderResizedJpeg_first_fit_witness :
  exists r before last,
    renderResizedJpeg samplePlatform RUNTIME sampleBitmap 6
      (JNum (Finite 2560)) (JNum (Finite 500000)) = Ret (r, before ++ [last])
    /\ Forall (Over 500000) before
    /\ Carries r last.
Proof.
  apply (renderResizedJpeg_first_fit samplePlatform RUNTIME sampleBitmap 6 2560 500000);
    reflexivity.
Defined.

Lemma qualityLoop_order pf R target canvas outW outH scale pass fuel q iter r :
  qualityLoop pf R target fuel canvas outW outH scale pass q iter = Ret r ->
  StronglySorted Earlier (snd r)
  /\ (forall a, In a (snd r) ->
        at_pass a = pass /\ at_final a = false
        /\ iter <= at_iter a /\ (inject_Z (at_iter a) < maxQualityIters R)%Q).
Proof.
  revert fuel q iter r.
  apply (qualityLoop_cases pf R target canvas outW outH scale pass
           (fun _ iter r =>
              StronglySorted Earlier (snd r)
              /\ (forall a, In a (snd r) ->
                    at_pass a = pass /\ at_final a = false
                    /\ iter <= at_iter a
                    /\ (inject_Z (at_iter a) < maxQualityIters R)%Q))); cbn [snd].
  - intros; split; [constructor | intros a []].
  - intros q iter Hguard _; split; [repeat constructor |].
    intros a [<- | []]; cbn; repeat split; assumption || lia.
  - intros q iter Hguard _ _; split; [repeat constructor |].
    intros a [<- | []]; cbn; repeat split; assumption || lia.
  - intros q iter r Hguard _ _ [Hsorted Hfields]; split.
    + constructor; [exact Hsorted |].
      apply Forall_forall; intros a' Hin.
      destruct (Hfields _ Hin) as (Hp & _ & Hi & _).
      right; cbn; split; [symmetry; exact Hp | lia].
    + intros a [<- | Hin]; [cbn; repeat split; assumption || lia |].
      destruct (Hfields _ Hin) as (Hp & Hf & Hi & Hlt).
      repeat split; assumption || lia.
Qed.

(** X12: the encodes of a run are made in the order of the search, pass by
    pass and, within a pass, iteration by iteration, so no pair of counters
    is used twice; an encode of the two loops is made with
    [0 <= pass < maxResizePasses] and [0 <= iter < maxQualityIters]. *)
Theorem renderResizedJpeg_search_order pf R bitmap o (m b : Q) :
  (0 < m)%Q -> (0 < b)%Q -> hasOffscreenCanvas pf = true ->
  exists r log,
    renderResizedJpeg pf R bitmap o (JNum (Finite m)) (JNum (Finite b)) = Ret (r, log)
    /\ StronglySorted Earlier log
    /\ (forall a, In a log -> at_final a = false ->
          0 <= at_pass a /\ (inject_Z (at_pass a) < maxResizePasses R)%Q
          /\ 0 <= at_iter a /\ (inject_Z (at_iter a) < maxQualityIters R)%Q).
Proof.
  intros Hm Hb Hcanvas.
  rewrite (renderResizedJpeg_runs _ _ _ _ _ _ Hm Hb Hcanvas).
  set (oSize := orientedSize (bm_width bitmap) (bm_height bitmap) o).
  destruct (passLoop_returns pf R bitmap o b oSize (fuelFor (maxResizePasses R))
              (initialScale oSize m) 0) as [[r log] Hrun]; [unfold fuelFor; lia |].
  assert (Hall : forall fuel s pass x,
             passLoop pf R bitmap o b oSize fuel s pass = Ret x ->
             StronglySorted Earlier (snd x)
             /\ (forall a, In a (snd x) ->
                   pass <= at_pass a
                   /\ (at_final a = false ->
                       (inject_Z (at_pass a) < maxResizePasses R)%Q
                       /\ 0 <= at_iter a
                       /\ (inject_Z (at_iter a) < maxQualityIters R)%Q))).
  { apply (passLoop_cases pf R bitmap o b oSize
             (fun _ pass x =>
                StronglySorted Earlier (snd x)
                /\ (forall a, In a (snd x) ->
                      pass <= at_pass a
                      /\ (at_final a = false ->
                          (inject_Z (at_pass a) < maxResizePasses R)%Q
                          /\ 0 <= at_iter a
                          /\ (inject_Z (at_iter a) < maxQualityIters R)%Q)))).
    - intros s pass _; unfold finalRender; cbn [snd]; split; [repeat constructor |].
      intros a [<- | []]; cbn; split; [lia | discriminate].
    - intros s pass best l Hguard Hinner.
      destruct (qualityLoop_order _ _ _ _ _ _ _ _ _ _ _ _ Hinner) as [Hsorted Hfields].
      cbn [snd] in *; split; [exact Hsorted |].
      intros a Hin; destruct (Hfields _ Hin) as (Hp & _ & Hi & Hlt).
      rewrite Hp; split; [lia |]; intros _; repeat split; assumption.
    - intros s pass l x Hguard Hinner [Hsorted Hlater].
      destruct (qualityLoop_order _ _ _ _ _ _ _ _ _ _ _ _ Hinner) as [Hs Hfields].
      cbn [snd] in *; split.
      + apply StronglySorted_app_cross; [exact Hs | exact Hsorted |].
        intros a a' Ha Ha'.
        destruct (Hfields _ Ha) as (Hp & _).
        destruct (Hlater _ Ha') as (Hp' & _).
        left; lia.
      + intros a Hin; apply in_app_or in Hin; destruct Hin as [Hin | Hin].
        * destruct (Hfields _ Hin) as (Hp & _ & Hi & Hlt).
          rewrite Hp; split; [lia |]; intros _; repeat split; assumption.
        * destruct (Hlater _ Hin) as (Hp & Hrest); split; [lia | exact Hrest]. }
  destruct (Hall _ _ _ _ Hrun) as [Hsorted Hfields]; cbn [snd] in *.
  exists r, log; split; [exact Hrun |]; split; [exact Hsorted |].
  intros a Hin Hfinal; destruct (Hfields _ Hin) as (Hp & Hrest).
  destruct (Hrest Hfinal) as (Hlt & Hi & Hilt); repeat split; assumption.
Qed.

Lemma renderResizedJpeg_search_order_witness :
  exists r log,
    renderResizedJpeg samplePlatform RUNTIME sampleBitmap 6
      (JNum (Finite 2560)) (JNum (Finite 500000)) = Ret (r, log)
    /\ StronglySorted Earlier log.
Proof.
  destruct (renderResizedJpeg_search_order samplePlatform RUNTIME sampleBitmap 6
              2560 500000)
    as (r & log & Hrun & Hsorted & _); [reflexivity | reflexivity | reflexivity |].
  exists r, log; split; assumption.
Defined.

End EncoderMore.

(** ** More on the message handler *)

Module WorkerMore.

Import WorkerFacts.

Lemma bindW_halts {A B : Type} (m : W A) (k : A -> W B) :
  halts (snd m) -> (forall a, snd m = Ret a -> halts (snd (k a))) ->
  halts (snd (bindW m k)).
Proof.
  unfold bindW, halts; destruct (snd m) as [a | e |]; cbn [snd]; intros Hm Hk.
  - apply Hk; reflexivity.
  - discriminate.
  - congruence.
Qed.

Lemma tryW_halts {A : Type} (m : W A) (h : string -> W A) :
  halts (snd m) -> (forall e, halts (snd (h e))) -> halts (snd (tryW m h)).
Proof.
  unfold tryW, halts; destruct m as [log [a | e |]]; cbn [snd fst]; intros Hm Hh.
  - discriminate.
  - apply Hh.
  - congruence.
Qed.

Lemma retW_halts {A : Type} (a : A) : halts (snd (retW a)).
Proof. unfold halts; cbn; discriminate. Qed.

Lemma readJpegExifOrientation_halts dv : halts (Exif.readJpegExifOrientation dv).
Proof.
  unfold Exif.readJpegExifOrientation, try_catch.
  pose proof (ExifFacts.readBody_halts dv) as Hbody.
  destruct (Exif.readBody dv); [discriminate | discriminate | exact Hbody].
Qed.

(** The reader never hands the worker a tag outside 1..8. *)
Lemma readJpegExifOrientation_range dv v :
  Exif.readJpegExifOrientation dv = Ret v -> 1 <= v <= 8.
Proof.
  unfold Exif.readJpegExifOrientation, try_catch.
  destruct (Exif.readBody dv) as [v' | e |] eqn:Hbody; intros H; try discriminate.
  - apply Ret_inj in H; subst v'; unfold Exif.readBody in Hbody.
    inv_bind Hbody as soi Esoi.
    destruct (negb (soi =? 65496)); [apply Ret_inj in Hbody; lia |].
    exact (proj1 (ExifFacts.segments_sound _ _ _ _ Hbody)).
  - apply Ret_inj in H; lia.
Qed.

Lemma bitmapFromNonHeic_halts pf file :
  PlatformResponds pf -> halts (snd (bitmapFromNonHeic pf file)).
Proof.
  intros (_ & Hnative & Hplain & _); unfold bitmapFromNonHeic.
  apply tryW_halts.
  - apply bindW_halts; [apply Hnative | intros; apply retW_halts].
  - intros e; apply bindW_halts.
    + destruct (String.eqb _ _); [apply readJpegExifOrientation_halts | apply retW_halts].
    + intros orientation _; apply bindW_halts; [apply Hplain | intros; apply retW_halts].
Qed.

Lemma heicViaWasm_halts pf R file :
  PlatformResponds pf -> DecoderResponds R -> halts (snd (heicViaWasm pf R file)).
Proof.
  intros (_ & _ & _ & Hrgba) Hdecoder; unfold heicViaWasm.
  destruct (wasmDecoder R) as [decode |] eqn:Hwasm; [| discriminate].
  apply bindW_halts; [apply (Hdecoder _ Hwasm) |].
  intros [[w h [rgba |] orientation] |] _; try discriminate.
  destruct (_ || _); [discriminate |].
  apply bindW_halts; [apply Hrgba | intros; apply retW_halts].
Qed.

Lemma bitmapFromHeic_halts pf R file :
  PlatformResponds pf -> DecoderResponds R -> halts (snd (bitmapFromHeic pf R file)).
Proof.
  intros Hpf Hdecoder; unfold bitmapFromHeic.
  apply bindW_halts.
  - unfold heicViaImageDecoder; destruct (hasImageDecoder pf); [| apply retW_halts].
    apply tryW_halts; [| intros; apply retW_halts].
    apply bindW_halts; [apply Hpf | intros; apply retW_halts].
  - intros [d |] _; [apply retW_halts | apply heicViaWasm_halts; assumption].
Qed.

Lemma processFile_unfold pf R requestId file :
  processFile pf R requestId file
  = bindW (decodeStep pf R requestId file)
      (fun d =>
         match d with
         | inl failure => retW failure
         | inr decoded =>
             let bitmap := dec_bitmap decoded in
             let orientation := orOne (dec_orientation decoded) in
             let rendered := renderResizedJpeg pf R bitmap orientation
                               (JNum (Finite (maxLongSidePx R))) (targetValue R) in
             n <~ (match rendered with
                   | Ret (normalized, log) => (map CallConvertToBlob log, Ret normalized)
                   | Throw e => throwW e
                   | Diverge => ([], Diverge)
                   end) ;;
             retW (ProcessDone
                     (mkProcessOk requestId file
                        (if String.eqb (inferMime file) "" then file_type file
                         else inferMime file)
                        (file_size file)
                        (r_blob n) (blob_size (r_blob n)) (r_width n) (r_height n)
                        (mkDebug (inferMime file) (file_size file) (file_name file)
                           orientation (dec_orientationMode decoded)
                           (bm_width (close bitmap)) (bm_height (close bitmap))
                           (blob_size (r_blob n)) (r_width n) (r_height n)
                           (r_quality n) (r_scale n) (r_pass n) (r_iter n) (flagOf n)
                           (maxLongSidePx R) (targetMaxBytes R))))
         end).
Proof. reflexivity. Qed.

Lemma decodeStep_halts pf R requestId file :
  PlatformResponds pf -> DecoderResponds R ->
  halts (snd (decodeStep pf R requestId file)).
Proof.
  intros Hpf Hdecoder; unfold decodeStep; destruct (isHeicLike _).
  - apply tryW_halts; [| intros; apply retW_halts].
    apply bindW_halts; [apply bitmapFromHeic_halts; assumption | intros; apply retW_halts].
  - apply bindW_halts; [apply bitmapFromNonHeic_halts; assumption |].
    intros; apply retW_halts.
Qed.

Lemma process_halts pf R msg :
  PlatformResponds pf -> DecoderResponds R -> halts (snd (process pf R msg)).
Proof.
  intros Hpf Hdecoder; unfold process.
  destruct (negb (ready R)); [apply retW_halts |].
  destruct (noTarget R); [apply retW_halts |].
  destruct (msg_file msg) as [file |]; [| apply retW_halts].
  rewrite processFile_unfold.
  apply bindW_halts; [apply decodeStep_halts; assumption |].
  intros [failure | decoded] _; [apply retW_halts |].
  cbv zeta; apply bindW_halts; [| intros; apply retW_halts].
  pose proof (EncoderFacts.renderResizedJpeg_halts pf R (dec_bitmap decoded)
                (orOne (dec_orientation decoded))
                (JNum (Finite (maxLongSidePx R))) (targetValue R)) as Hrender.
  destruct (renderResizedJpeg _ _ _ _ _ _) as [[n log] | e |]; cbn [snd throwW];
    [discriminate | discriminate | exfalso; apply Hrender; reflexivity].
Qed.

(** X13: when the decoders of the platform and the configured HEIC decoder
    come back on every input, the worker answers every message with exactly
    one response: an acknowledgement for an init message, a success or a
    failure for a process request, a failure for anything else. *)
Theorem onmessage_posts_one_response pf R msg :
  PlatformResponds pf -> DecoderResponds R ->
  exists response,
    posted (onmessage pf R msg) = [response]
    /\ match response with
       | InitDone _ => msg_type msg = Some "init"%string
       | ProcessDone _ => msg_type msg = Some "process"%string
       | Failure _ => msg_type msg <> Some "init"%string
       end.
Proof.
  intros Hpf Hdecoder.
  destruct (isType msg "init") eqn:Hinit.
  - rewrite (onmessage_init _ _ _ Hinit); cbn [posted].
    eexists; split; [reflexivity |]; unfold init; cbn [snd].
    apply isType_true_inv; exact Hinit.
  - assert (Hnot : msg_type msg <> Some "init"%string).
    { intros H; apply isType_true in H; congruence. }
    destruct (isType msg "process") eqn:Hprocess.
    + destruct (onmessage_process pf R msg Hprocess) as [Hposted _].
      rewrite Hposted.
      pose proof (process_halts pf R msg Hpf Hdecoder) as Hhalts.
      destruct (snd (process pf R msg)) as [response | e |] eqn:Hresponse.
      * exists response; split; [reflexivity |].
        destruct response; [exact Hnot | | apply isType_true_inv; exact Hprocess].
        exfalso; revert Hresponse; unfold process.
        destruct (negb (ready R)); [cbn; discriminate |].
        destruct (noTarget R); [cbn; discriminate |].
        destruct (msg_file msg) as [file |]; [| cbn; discriminate].
        rewrite processFile_unfold; intros H.
        apply snd_bindW_Ret_inv in H; destruct H as ([failure | decoded] & Hdecode & H).
        -- cbn in H; apply Ret_inj in H; subst failure.
           revert Hdecode; unfold decodeStep; destruct (isHeicLike _).
           ++ unfold tryW, bindW; destruct (snd (bitmapFromHeic pf R file));
                cbn; discriminate.
           ++ unfold bindW; destruct (snd (bitmapFromNonHeic pf file)); cbn; discriminate.
        -- cbv zeta in H; apply snd_bindW_Ret_inv in H; destruct H as (n & _ & H).
           cbn in H; discriminate.
      * eexists; split; [reflexivity | exact Hnot].
      * exfalso; apply Hhalts; reflexivity.
    + unfold onmessage, dispatch; rewrite Hinit, Hprocess; cbn [snd retW posted].
      eexists; split; [reflexivity | exact Hnot].
Qed.

Lemma onmessage_posts_one_response_witness :
  exists response,
    posted (onmessage samplePlatform configured (processMessage "r1" (Some jpegFile)))
    = [response].
Proof.
  destruct (onmessage_posts_one_response samplePlatform configured
              (processMessage "r1" (Some jpegFile))) as (response & Hposted & _).
  - repeat split; intros; discriminate.
  - intros decode Hdecode; discriminate Hdecode.
  - exists response; exact Hposted.
Defined.

(** X14: a message that is neither an init message nor a process request is
    answered with [E_UNKNOWN_MESSAGE], whose text names the type received;
    the runtime stays as it was and the platform is not called. *)
Theorem unknown_message_is_rejected pf R msg :
  msg_type msg <> Some "init"%string -> msg_type msg <> Some "process"%string ->
  onmessage pf R msg
  = mkHandled R
      [err "E_UNKNOWN_MESSAGE" ("Unknown message type: " ++ typeText (msg_type msg))
         (mkExtra (Some "unknown_err"%string) None None)]
      [].
Proof.
  intros Hinit Hprocess; unfold onmessage, dispatch.
  rewrite (isType_init_false _ Hinit).
  assert (Hp : isType msg "process" = false).
  { destruct (isType msg "process") eqn:H; [| reflexivity].
    apply isType_true_inv in H; contradiction. }
  rewrite Hp; reflexivity.
Qed.

Lemma unknown_message_is_rejected_witness :
  posted (onmessage samplePlatform configured pingMessage)
  = [err "E_UNKNOWN_MESSAGE" "Unknown message type: ping"
       (mkExtra (Some "unknown_err"%string) None None)].
Proof.
  rewrite (unknown_message_is_rejected samplePlatform configured pingMessage);
    [reflexivity | discriminate | discriminate].
Defined.

(** X15: a bitmap decoded on the non-HEIC path comes with an orientation
    between 1 and 8: 1 when the platform applied the orientation itself;
    otherwise the bitmap is that of the plain decode and the orientation is
    what the EXIF reader returns for a JPEG, and 1 for any other type. *)
Theorem bitmapFromNonHeic_orientation pf file d :
  snd (bitmapFromNonHeic pf file) = Ret d ->
  1 <= dec_orientation d <= 8
  /\ ((createImageBitmapFromImage pf file = Ret (dec_bitmap d)
       /\ dec_orientation d = 1
       /\ dec_orientationMode d = "native_from-image"%string)
      \/ ((exists e, createImageBitmapFromImage pf file = Throw e)
          /\ createImageBitmap pf file = Ret (dec_bitmap d)
          /\ dec_orientationMode d = "manual_exif_or_unknown"%string
          /\ (if String.eqb (inferMime file) "image/jpeg"
              then Exif.readJpegExifOrientation (file_bytes file)
                   = Ret (dec_orientation d)
              else dec_orientation d = 1))).
Proof.
  unfold bitmapFromNonHeic, tryW, bindW, call; cbn [fst snd].
  destruct (createImageBitmapFromImage pf file) as [bm | e |] eqn:Hnative;
    cbn [fst snd retW]; intros H; try discriminate.
  - apply Ret_inj in H; subst d; cbn; split; [lia |].
    left; repeat split.
  - destruct (String.eqb (inferMime file) "image/jpeg") eqn:Hjpeg; cbn [fst snd retW] in H.
    + destruct (Exif.readJpegExifOrientation (file_bytes file)) as [v | e' |] eqn:Hexif;
        cbn [fst snd] in H; try discriminate.
      destruct (createImageBitmap pf file) as [bm | e' |] eqn:Hplain;
        cbn [fst snd] in H; try discriminate.
      apply Ret_inj in H; subst d; cbn.
      split; [exact (readJpegExifOrientation_range _ _ Hexif) |].
      right; repeat split; eauto.
    + destruct (createImageBitmap pf file) as [bm | e' |] eqn:Hplain;
        cbn [fst snd] in H; try discriminate.
      apply Ret_inj in H; subst d; cbn.
      split; [lia |]; right; repeat split; eauto.
Qed.

Lemma bitmapFromNonHeic_orientation_witness :
  exists d, snd (bitmapFromNonHeic legacyPlatform jpegFile) = Ret d
            /\ dec_orientation d = 6.
Proof.
  eexists; split; [vm_compute; reflexivity |].
  match goal with
  | |- dec_orientation ?d = 6 =>
      destruct (bitmapFromNonHeic_orientation legacyPlatform jpegFile d)
        as (_ & [(Hnative & _) | (_ & _ & _ & Hexif)]); [vm_compute; reflexivity | |]
  end.
  - vm_compute in Hnative; discriminate Hnative.
  - reflexivity.
Defined.

(** X16: for a HEIC-like file, every exception of the HEIC decode, whichever
    strategy raised it, is answered with [E_HEIC_CONVERT_FAILED] carrying the
    request identifier and the text of the exception; the calls made are
    those of the decode. *)
Theorem heic_decode_failure pf R msg file e :
  ready R = true -> noTarget R = false ->
  msg_type msg = Some "process"%string -> msg_file msg = Some file ->
  isHeicLike (inferMime file) = true ->
  snd (bitmapFromHeic pf R file) = Throw e ->
  posted (onmessage pf R msg) = [heicFailure (requestIdOf msg) e]
  /\ calls (onmessage pf R msg) = fst (bitmapFromHeic pf R file).
Proof.
  intros Hready Htarget Htype Hfile Hheic Hthrow.
  destruct (onmessage_process pf R msg (isType_true _ _ Htype)) as [Hposted Hcalls].
  rewrite Hposted, Hcalls; unfold process.
  rewrite Hready, Htarget, Hfile; cbn [negb].
  rewrite processFile_unfold; unfold decodeStep; rewrite Hheic.
  unfold tryW, bindW; cbn [fst snd]; rewrite Hthrow; cbn [fst snd retW].
  rewrite !app_nil_r; split; reflexivity.
Qed.

Lemma heic_decode_failure_witness :
  posted (onmessage samplePlatform withEmptyDecoder (processMessage "r9" (Some heicFile)))
  = [heicFailure (JStr "r9") "HEIC WASM decoder returned invalid payload"]
  /\ calls (onmessage samplePlatform withEmptyDecoder (processMessage "r9" (Some heicFile)))
     = [CallHeicWasm].
Proof.
  apply (heic_decode_failure samplePlatform withEmptyDecoder
           (processMessage "r9" (Some heicFile)) heicFile); reflexivity.
Defined.

(** X21: the WASM strategy yields a bitmap only from a payload with non-zero
    width and height and a pixel buffer; the orientation of the payload is
    passed on as it is, without a range check, and a missing or zero one
    becomes 1. *)
Theorem heicViaWasm_payload pf R file d :
  snd (heicViaWasm pf R file) = Ret d ->
  exists decode payload rgba,
    wasmDecoder R = Some decode
    /\ decode (file_bytes file) = Ret (Some payload)
    /\ pl_width payload <> 0 /\ pl_height payload <> 0
    /\ pl_rgba payload = Some rgba
    /\ bitmapOfRgba pf (pl_width payload) (pl_height payload) rgba = Ret (dec_bitmap d)
    /\ dec_orientation d
       = match pl_orientation payload with
         | Some o => if o =? 0 then 1 else o
         | None => 1
         end
    /\ dec_orientationMode d = "wasm_rgba"%string.
Proof.
  unfold heicViaWasm.
  destruct (wasmDecoder R) as [decode |] eqn:Hwasm; [| cbn; discriminate].
  unfold bindW, call; cbn [fst snd].
  destruct (decode (file_bytes file)) as [[[w h [rgba |] orientation] |] | e |] eqn:Hdecode;
    cbn [fst snd throwW]; try discriminate.
  destruct (w =? 0) eqn:Hw; cbn [orb throwW snd]; [discriminate |].
  destruct (h =? 0) eqn:Hh; cbn [throwW snd]; [discriminate |].
  destruct (bitmapOfRgba pf w h rgba) as [bm | e |] eqn:Hbitmap; cbn [fst snd retW];
    try discriminate.
  intros H; apply Ret_inj in H; subst d.
  apply Z.eqb_neq in Hw, Hh.
  exists decode, (mkPayload w h (Some rgba) orientation), rgba; cbn.
  repeat split; assumption || reflexivity.
Qed.

Lemma heicViaWasm_payload_witness :
  exists d, snd (heicViaWasm samplePlatform withDecoder heicFile) = Ret d
            /\ dec_orientation d = 6
            /\ dec_orientationMode d = "wasm_rgba"%string.
Proof.
  eexists; split; [vm_compute; reflexivity |].
  match goal with
  | |- dec_orientation ?d = 6 /\ _ =>
      destruct (heicViaWasm_payload samplePlatform withDecoder heicFile d)
        as (_ & _ & _ & _ & _ & _ & _ & _ & _ & _ & Hmode); [vm_compute; reflexivity |]
  end.
  split; [reflexivity | exact Hmode].
Defined.

Lemma decodeStep_failure pf R requestId file failure :
  snd (decodeStep pf R requestId file) = Ret (inl failure) ->
  exists e, failure = heicFailure requestId e.
Proof.
  unfold decodeStep; destruct (isHeicLike (inferMime file)).
  - unfold tryW, bindW.
    destruct (snd (bitmapFromHeic pf R file)) as [d | e |]; cbn; intros H;
      try discriminate.
    exists e; injection H as <-; reflexivity.
  - unfold bindW.
    destruct (snd (bitmapFromNonHeic pf file)) as [d | e |]; cbn; intros H; discriminate.
Qed.

(** What [processFile] can answer: the HEIC failure, or the success payload
    of a decode and a rendition. *)
Lemma processFile_response pf R requestId file response :
  snd (processFile pf R requestId file) = Ret response ->
  (exists e, response = heicFailure requestId e)
  \/ (exists decoded n log,
        snd (decodeStep pf R requestId file) = Ret (inr decoded)
        /\ renderResizedJpeg pf R (dec_bitmap decoded) (orOne (dec_orientation decoded))
             (JNum (Finite (maxLongSidePx R))) (targetValue R) = Ret (n, log)
        /\ response = ProcessDone (successOf R requestId file decoded n)).
Proof.
  rewrite processFile_unfold; intros H.
  apply snd_bindW_Ret_inv in H; destruct H as ([failure | decoded] & Hdecode & H).
  - cbn in H; apply Ret_inj in H; subst response.
    left; exact (decodeStep_failure _ _ _ _ _ Hdecode).
  - cbv zeta in H; apply snd_bindW_Ret_inv in H; destruct H as (n & Hrender & H).
    destruct (renderResizedJpeg pf R (dec_bitmap decoded) (orOne (dec_orientation decoded))
                (JNum (Finite (maxLongSidePx R))) (targetValue R))
      as [[n' log] | e |] eqn:Hrun; cbn [snd throwW] in Hrender; try discriminate.
    apply Ret_inj in Hrender; subst n'.
    cbn [snd retW] in H; apply Ret_inj in H; subst response.
    right; exists decoded, n, log; repeat split; assumption.
Qed.

Lemma posted_success_inv pf R msg p :
  posted (onmessage pf R msg) = [ProcessDone p] ->
  ready R = true /\ noTarget R = false
  /\ exists file, msg_file msg = Some file
                  /\ snd (processFile pf R (requestIdOf msg) file) = Ret (ProcessDone p).
Proof.
  intros Hposted.
  assert (Hprocess : snd (process pf R msg) = Ret (ProcessDone p)).
  { unfold onmessage, dispatch in Hposted.
    destruct (isType msg "init"); [cbn in Hposted; discriminate |].
    destruct (isType msg "process"); [| cbn in Hposted; discriminate].
    unfold bindW in Hposted.
    destruct (snd (process pf R msg)) as [response | e |]; cbn in Hposted;
      try discriminate.
    injection Hposted as ->; reflexivity. }
  unfold process in Hprocess.
  destruct (ready R); cbn [negb] in Hprocess; [| cbn in Hprocess; discriminate].
  destruct (noTarget R); [cbn in Hprocess; discriminate |].
  destruct (msg_file msg) as [file |]; [| cbn in Hprocess; discriminate].
  repeat split; exists file; split; [reflexivity | exact Hprocess].
Qed.

(** X17: a success response hands back the file of the request, unchanged,
    under the request identifier of the message (the empty string for a
    falsy one); the normalized dimensions and byte size are at least 1 wide
    and high and are those the debug trace reports for the output.  The
    trace reports a source of 0 by 0 pixels: line 437 closes the bitmap
    before line 441 reads its width and height. *)
Theorem success_response_accounts pf R msg p :
  posted (onmessage pf R msg) = [ProcessDone p] ->
  msg_file msg = Some (po_original_blob p)
  /\ po_requestId p = requestIdOf msg
  /\ po_original_bytes p = file_size (po_original_blob p)
  /\ po_normalized_bytes p = blob_size (po_normalized_blob p)
  /\ dbg_output_bytes (po_debug p) = po_normalized_bytes p
  /\ dbg_output_width (po_debug p) = po_normalized_width p
  /\ dbg_output_height (po_debug p) = po_normalized_height p
  /\ 1 <= po_normalized_width p /\ 1 <= po_normalized_height p
  /\ dbg_decode_srcW (po_debug p) = 0
  /\ dbg_decode_srcH (po_debug p) = 0
  /\ dbg_limits_maxLongSidePx (po_debug p) = maxLongSidePx R.
Proof.
  intros Hposted.
  destruct (posted_success_inv _ _ _ _ Hposted) as (_ & _ & file & Hfile & Hprocess).
  destruct (processFile_response _ _ _ _ _ Hprocess)
    as [[e He] | (decoded & n & log & _ & Hrun & Hp)]; [discriminate |].
  injection Hp as ->.
  destruct (EncoderFacts.renderResizedJpeg_Ret_inv _ _ _ _ _ _ _ Hrun)
    as (m & b & Hlimits & Htarget & Hm & Hb & Hcanvas).
  rewrite Hlimits, Htarget in Hrun.
  rewrite (EncoderFacts.renderResizedJpeg_runs _ _ _ _ _ _ Hm Hb Hcanvas) in Hrun.
  destruct (EncoderFacts.passLoop_rendered _ _ _ _ _ _ _ _ _ _ Hrun) as (Hw & Hh & _).
  cbn [fst] in Hw, Hh.
  unfold successOf; cbn.
  repeat split; try assumption; try reflexivity.
  - rewrite Hw; unfold outDim; lia.
  - rewrite Hh; unfold outDim; lia.
Qed.

Lemma success_response_accounts_witness :
  exists p,
    posted (onmessage legacyPlatform configured (processMessage "r1" (Some jpegFile)))
    = [ProcessDone p]
    /\ po_original_blob p = jpegFile
    /\ po_requestId p = JStr "r1"
    /\ dbg_decode_orientation (po_debug p) = 6
    /\ dbg_decode_srcW (po_debug p) = 0
    /\ dbg_decode_srcH (po_debug p) = 0.
Proof.
  eexists; split; [vm_compute; reflexivity |].
  match goal with
  | |- po_original_blob ?p = _ /\ _ =>
      destruct (success_response_accounts legacyPlatform configured
                  (processMessage "r1" (Some jpegFile)) p)
        as (_ & Hid & _ & _ & _ & _ & _ & _ & _ & HsrcW & HsrcH & _);
        [vm_compute; reflexivity |]
  end.
  split; [reflexivity |].
  split; [exact Hid |]; split; [reflexivity |]; split; [exact HsrcW | exact HsrcH].
Defined.

(** X18: the acknowledgement of an init message warns about a missing byte
    budget exactly when the process request handled next is refused with
    [E_CONFIG_TARGET_MAX_BYTES_MISSING]. *)
Theorem init_warning_predicts_refusal pf R0 msg0 msg :
  msg_type msg0 = Some "init"%string -> msg_type msg = Some "process"%string ->
  exists io,
    posted (onmessage pf R0 msg0) = [InitDone io]
    /\ ((io_warnings io = [missingTargetWarning]
         /\ posted (onmessage pf (runtime (onmessage pf R0 msg0)) msg)
            = [missingTargetFailure])
        \/ (io_warnings io = []
            /\ posted (onmessage pf (runtime (onmessage pf R0 msg0)) msg)
               <> [missingTargetFailure])).
Proof.
  intros Hinit Hprocess.
  rewrite (onmessage_init _ _ _ (isType_true _ _ Hinit)); cbn [posted runtime].
  destruct (onmessage_process pf (fst (init pf R0 msg0)) msg (isType_true _ _ Hprocess))
    as [Hposted _].
  rewrite Hposted.
  destruct (noTarget (fst (init pf R0 msg0))) eqn:Hnone.
  - destruct (init_warns pf R0 msg0 Hnone) as (io & Hio & Hwarn).
    exists io; rewrite Hio; split; [reflexivity |]; left; split; [exact Hwarn |].
    rewrite (process_without_target _ _ _ (init_ready pf R0 msg0) Hnone); reflexivity.
  - eexists; split; [unfold init; cbn [snd]; reflexivity |]; right.
    cbn [io_warnings]; unfold init in Hnone; cbn [fst] in Hnone; rewrite Hnone.
    split; [reflexivity |].
    unfold process; cbn [ready init fst negb].
    unfold init in Hposted |- *; cbn [fst] in *; rewrite Hnone.
    destruct (msg_file msg) as [file |]; [| cbn; discriminate].
    match goal with
    | |- context [snd (processFile ?pf ?R ?rid ?f)] =>
        destruct (snd (processFile pf R rid f)) as [response | e |] eqn:Hresponse
    end; [| cbn; discriminate | discriminate].
    destruct (processFile_response _ _ _ _ _ Hresponse)
      as [[e ->] | (decoded & n & log & _ & _ & ->)]; cbn; discriminate.
Qed.

Lemma init_warning_predicts_refusal_witness :
  exists io,
    posted (onmessage samplePlatform RUNTIME
              (initMessage JUndefined (JNum (Finite (-5))))) = [InitDone io]
    /\ io_warnings io = []
    /\ posted (onmessage samplePlatform
                 (runtime (onmessage samplePlatform RUNTIME
                             (initMessage JUndefined (JNum (Finite (-5))))))
                 (processMessage "r1" (Some jpegFile)))
       <> [missingTargetFailure].
Proof.
  destruct (init_warning_predicts_refusal samplePlatform RUNTIME
              (initMessage JUndefined (JNum (Finite (-5))))
              (processMessage "r1" (Some jpegFile)))
    as (io & Hposted & [[Hwarn _] | [Hwarn Hnot]]); [reflexivity | reflexivity | |].
  - exfalso; vm_compute in Hposted; injection Hposted as <-; discriminate Hwarn.
  - exists io; repeat split; assumption.
Defined.

(** X22: an initialised worker stays initialised, and a configured HEIC
    decoder stays configured, through every sequence of messages: nothing
    the worker handles resets [ready] or removes the decoder hook. *)
Theorem ready_and_decoder_persist pf R msgs :
  ready R = true ->
  Forall (fun h =>
            ready (runtime h) = true
            /\ (heicWasm R <> None -> heicWasm (runtime h) <> None))
         (run pf R msgs).
Proof.
  revert R; induction msgs as [| msg msgs IH]; intros R Hready; cbn [run];
    constructor.
  - destruct (isType msg "init") eqn:Hinit.
    + rewrite (onmessage_init _ _ _ Hinit); cbn [runtime]; split; [reflexivity |].
      unfold init; cbn [fst heicWasm].
      destruct (msg_heicWasmDecoder msg); [discriminate | tauto].
    + rewrite (onmessage_frame _ _ _ Hinit); split; [exact Hready | tauto].
  - assert (Hnext : ready (runtime (onmessage pf R msg)) = true
                    /\ (heicWasm R <> None ->
                        heicWasm (runtime (onmessage pf R msg)) <> None)).
    { destruct (isType msg "init") eqn:Hinit.
      - rewrite (onmessage_init _ _ _ Hinit); cbn [runtime]; split; [reflexivity |].
        unfold init; cbn [fst heicWasm].
        destruct (msg_heicWasmDecoder msg); [discriminate | tauto].
      - rewrite (onmessage_frame _ _ _ Hinit); split; [exact Hready | tauto]. }
    destruct Hnext as [Hready' Hhook].
    eapply Forall_impl; [| apply (IH _ Hready')].
    intros h [Hr Hh]; split; [exact Hr |]; intros HR; apply Hh, Hhook, HR.
Qed.

Lemma ready_and_decoder_persist_witness :
  Forall (fun h =>
            ready (runtime h) = true
            /\ (heicWasm withDecoder <> None -> heicWasm (runtime h) <> None))
         (run samplePlatform withDecoder
            [initMessage JUndefined JUndefined; pingMessage;
             processMessage "r1" (Some jpegFile)]).
Proof.
  apply (ready_and_decoder_persist samplePlatform withDecoder
           [initMessage JUndefined JUndefined; pingMessage;
            processMessage "r1" (Some jpegFile)]).
  reflexivity.
Defined.

End WorkerMore.

(** ** More on the EXIF reader *)

Module ExifMore.

Import DataView Exif.

Lemma gtb_false (x y : Z) : x <= y -> (x >? y) = false.
Proof. intros H; rewrite Z.gtb_ltb; apply Z.ltb_ge; exact H. Qed.

(** The scan of IFD0 returns the value of the first Orientation entry when
    the entries before it are inside the buffer and carry other tags. *)
Lemma scanEntries_finds dv l ifd0 v :
  forall n i0 i,
    0 <= i0 <= i -> i < i0 + Z.of_nat n ->
    (forall j, i0 <= j < i ->
       ifd0 + j * 12 + 12 <= byteLength dv
       /\ exists tag, getUint16 dv (ifd0 + j * 12) l = Ret tag /\ tag <> 0x0112) ->
    ifd0 + i * 12 + 12 <= byteLength dv ->
    OrientationEntry dv l (ifd0 + i * 12) v ->
    scanEntries dv l ifd0 n i0 = Ret v.
Proof.
  induction n as [| n IH]; intros i0 i Hi Hn Hbefore Hbound Hentry; [lia |].
  cbn [scanEntries].
  destruct (Z.eq_dec i0 i) as [-> | Hne].
  - destruct Hentry as (Htag & Htype & Hcount & Hvalue & Hrange).
    rewrite gtb_false by lia.
    rewrite Htag; cbn [bind]; rewrite Z.eqb_refl, Htype; cbn [bind].
    rewrite Hcount; cbn [bind]; rewrite !Z.eqb_refl; cbn [negb orb].
    rewrite Hvalue; cbn [bind].
    replace (1 <=? v) with true by (symmetry; apply Z.leb_le; lia).
    replace (v <=? 8) with true by (symmetry; apply Z.leb_le; lia).
    reflexivity.
  - destruct (Hbefore i0 ltac:(lia)) as (Hin & tag & Htag & Hother).
    rewrite gtb_false by lia.
    rewrite Htag; cbn [bind].
    replace (tag =? 274) with false by (symmetry; apply Z.eqb_neq; exact Hother).
    apply (IH (i0 + 1) i); try lia; try assumption.
    intros j Hj; apply Hbefore; lia.
Qed.

(** X23: the reader finds the orientation of a JPEG whose first segment is
    an Exif APP1 segment: with the SOI marker, the APP1 marker and a length
    of at least 2 behind it, the Exif signature, the TIFF magic in the byte
    order of the header, and in IFD0 an Orientation entry (short, count 1,
    value [v] in 1..8) that lies inside the buffer behind entries of other
    tags, the reader returns [v]. *)
Theorem readJpegExifOrientation_finds dv size bom ifd0Rel entries i v :
  getUint16 dv 0 false = Ret 0xFFD8 ->
  getUint16 dv 2 false = Ret 0xFFE1 ->
  getUint16 dv 4 false = Ret size -> 2 <= size ->
  getUint32 dv 6 false = Ret 0x45786966 ->
  getUint16 dv 10 false = Ret 0 ->
  getUint16 dv 12 false = Ret bom ->
  getUint16 dv 14 (bom =? 0x4949) = Ret 0x002A ->
  getUint32 dv 16 (bom =? 0x4949) = Ret ifd0Rel ->
  getUint16 dv (12 + ifd0Rel) (bom =? 0x4949) = Ret entries ->
  12 + ifd0Rel + 2 <= byteLength dv ->
  0 <= i < entries ->
  (forall j, 0 <= j < i ->
     12 + ifd0Rel + 2 + j * 12 + 12 <= byteLength dv
     /\ exists tag,
          getUint16 dv (12 + ifd0Rel + 2 + j * 12) (bom =? 0x4949) = Ret tag
          /\ tag <> 0x0112) ->
  12 + ifd0Rel + 2 + i * 12 + 12 <= byteLength dv ->
  OrientationEntry dv (bom =? 0x4949) (12 + ifd0Rel + 2 + i * 12) v ->
  readJpegExifOrientation dv = Ret v.
Proof.
  intros Hsoi Happ1 Hsize Hsize2 Hsig Hzero Hbom Hmagic Hrel Hentries Hifd Hi
    Hbefore Hbound Hentry.
  assert (Hlen : 6 < byteLength dv).
  { destruct Hentry as (_ & _ & _ & _ & Hv).
    assert (0 <= ifd0Rel).
    { revert Hrel; unfold getUint32.
      destruct (byteAt dv 16) as [b0 |] eqn:E0; [| discriminate].
      destruct (byteAt dv (16 + 1)) as [b1 |] eqn:E1; [| discriminate].
      destruct (byteAt dv (16 + 2)) as [b2 |] eqn:E2; [| discriminate].
      destruct (byteAt dv (16 + 3)) as [b3 |] eqn:E3; [| discriminate].
      apply ExifFacts.byteAt_nonneg in E0, E1, E2, E3.
      intros H; apply Ret_inj in H; subst ifd0Rel; destruct (bom =? 18761); lia. }
    lia. }
  unfold readJpegExifOrientation, readBody.
  rewrite Hsoi; cbn [bind]; rewrite Z.eqb_refl; cbn [negb segments].
  replace (2 + 4 <? byteLength dv) with true by (symmetry; apply Z.ltb_lt; lia).
  rewrite Happ1; cbn [bind].
  change (65505 =? 65497) with false; change (65505 =? 65498) with false; cbn [orb].
  change (2 + 2) with 4; rewrite Hsize; cbn [bind].
  replace (size <? 2) with false by (symmetry; apply Z.ltb_ge; lia).
  rewrite Z.eqb_refl; change (4 + 2) with 6.
  unfold exifHeader; rewrite Hsig; cbn [bind]; rewrite Z.eqb_refl.
  change (6 + 4) with 10; rewrite Hzero; cbn [bind negb]; rewrite Z.eqb_refl; cbn [negb].
  unfold parseTiff; change (6 + 6) with 12; rewrite Hbom; cbn [bind].
  change (12 + 2) with 14; rewrite Hmagic; cbn [bind]; rewrite Z.eqb_refl; cbn [negb].
  change (12 + 4) with 16; rewrite Hrel; cbn [bind].
  rewrite gtb_false by lia.
  rewrite Hentries; cbn [bind].
  rewrite (scanEntries_finds dv (bom =? 18761) (12 + ifd0Rel + 2) v
             (Z.to_nat entries) 0 i); try assumption; try lia.
  reflexivity.
Qed.

Lemma readJpegExifOrientation_finds_witness :
  readJpegExifOrientation jpegBigEndian6 = Ret 6.
Proof.
  apply (readJpegExifOrientation_finds jpegBigEndian6 34 0x4D4D 8 1 0 6);
    first [ lia
          | intros j Hj; lia
          | unfold OrientationEntry; repeat split; vm_compute;
            (reflexivity || discriminate)
          | vm_compute; reflexivity
          | vm_compute; discriminate ].
Defined.

End ExifMore.
